(** * Omnispeak, episode logic of Keen 5 and Keen 6

    A shallow embedding of [src/ck5_misc.c] and [src/ck6_misc.c] (with the
    file-system layer [id_fs.c] that the episode presence checks call), and
    the properties of the level scan, the lump tables, the big switch, the
    galaxy explosion and the enemy-shot spawner that are settled on it.

    C [int] values are modelled in [Z]; 16-bit quantities ([uint16_t] tiles
    and star coordinates) wrap explicitly through [u16].  A read or write
    that leaves a tile plane, or a null dereference, is undefined in C and
    is [None] here. *)

From Stdlib Require Import ZArith Lia Bool.
From stdpp Require Import base option list strings.

Local Open Scope Z_scope.

(** ** Machine integers *)

Definition u16 (z : Z) : Z := z mod 65536.

(** The two episodes ([EP_CK5], [EP_CK6] of the episode definitions). *)
Inductive Episode := EP_CK5 | EP_CK6.

(** ** File system ([id_fs.c]) *)

Module FS.

(** A directory as [readdir] enumerates it: for each entry its name, the
    size of the file behind it, and whether [openat] succeeds on it for
    reading. *)
Record dirent := { d_name : string; d_size : Z; d_opens : bool }.

(** The listings of the directories that the three paths name. Paths that
    name the same directory have the same listing ([FS_Startup] points
    all three at the current directory before it looks at the command
    line). Only lookups are modelled here; they change no directory. *)
Record FileSystem := {
  fs_keenPath : list dirent;
  fs_omniPath : list dirent;
  fs_userPath : list dirent
}.

(** An open file; the null [FS_File] is [None]. *)
Definition FS_File := option dirent.

Definition toupper (c : Ascii.ascii) : Ascii.ascii :=
  let n := Ascii.nat_of_ascii c in
  if (Nat.leb 97 n && Nat.leb n 122)%bool then Ascii.ascii_of_nat (n - 32) else c.

(** Modelled from the spec: [CK_Cross_strcasecmp] of [ck_cross.c], which is
    not part of the sources at hand; the usual comparison of two strings
    that ignores the case of ASCII letters. Only the test against zero is
    used, so the result is given as a boolean: [true] when the call
    returns 0. *)
Fixpoint CK_Cross_strcasecmp_is0 (a b : string) : bool :=
  match a, b with
  | String.EmptyString, String.EmptyString => true
  | String.String x a', String.String y b' =>
      if Ascii.eqb (toupper x) (toupper y) then CK_Cross_strcasecmp_is0 a' b' else false
  | _, _ => false
  end.

(** The directory walk of [FSL_OpenFileInDirCaseInsensitive] (read mode):
    the walk ends at the first entry whose name matches. That entry is
    opened; when [openat] fails on it, [fdopen] gives the null file, and
    no later entry is tried. *)
Fixpoint FSL_OpenFileInDirCaseInsensitive (dirPath : list dirent) (fileName : string)
  : FS_File :=
  match dirPath with
  | [] => None
  | dirEntry :: rest =>
      if CK_Cross_strcasecmp_is0 (d_name dirEntry) fileName
      then (if d_opens dirEntry then Some dirEntry else None)
      else FSL_OpenFileInDirCaseInsensitive rest fileName
  end.

Definition FS_OpenKeenFile (fs : FileSystem) (fileName : string) : FS_File :=
  FSL_OpenFileInDirCaseInsensitive (fs_keenPath fs) fileName.

Definition FS_OpenOmniFile (fs : FileSystem) (fileName : string) : FS_File :=
  match FSL_OpenFileInDirCaseInsensitive (fs_keenPath fs) fileName with
  | Some file => Some file
  | None => FSL_OpenFileInDirCaseInsensitive (fs_omniPath fs) fileName
  end.

Definition FS_GetFileSize (file : FS_File) : Z :=
  match file with
  | Some e => d_size e
  | None => 0
  end.

Definition FS_IsKeenFilePresent (fs : FileSystem) (filename : string) : bool :=
  match FS_OpenKeenFile fs filename with
  | None => false
  | Some _ => true
  end.

Definition FS_IsOmniFilePresent (fs : FileSystem) (filename : string) : bool :=
  match FS_OpenOmniFile fs filename with
  | None => false
  | Some _ => true
  end.

End FS.

(** ** Episode presence checks *)

Module Present.
Import FS.

(** The two Keen 6 episode descriptors that [ck6_episode] can point to. *)
Inductive CK6_EpisodeDef := ck6v14e_episode | ck6v15e_episode.

(** The global variables within reach of the presence checks: the episode
    pointer of Keen 6 (null until it is first assigned) and, standing for
    everything else, the persistent game state word by word. *)
Record Globals := {
  ck6_episode : option CK6_EpisodeDef;
  other_globals : list Z
}.

Definition set_ck6_episode (e : CK6_EpisodeDef) (g : Globals) : Globals :=
  {| ck6_episode := Some e; other_globals := other_globals g |}.

(** A C function over the globals: result and globals afterwards. *)
Definition CK5_IsPresent (fs : FileSystem) (g : Globals) : bool * Globals :=
  (* User-provided files *)
  if negb (FS_IsKeenFilePresent fs "EGAGRAPH.CK5") then (false, g) else
  if negb (FS_IsKeenFilePresent fs "GAMEMAPS.CK5") then (false, g) else
  if negb (FS_IsKeenFilePresent fs "AUDIO.CK5") then (false, g) else
  (* Omnispeak-provided files *)
  if negb (FS_IsOmniFilePresent fs "EGAHEAD.CK5") then (false, g) else
  if negb (FS_IsOmniFilePresent fs "EGADICT.CK5") then (false, g) else
  if negb (FS_IsOmniFilePresent fs "GFXINFOE.CK5") then (false, g) else
  if negb (FS_IsOmniFilePresent fs "MAPHEAD.CK5") then (false, g) else
  if negb (FS_IsOmniFilePresent fs "AUDIODCT.CK5") then (false, g) else
  if negb (FS_IsOmniFilePresent fs "AUDIOHHD.CK5") then (false, g) else
  if negb (FS_IsOmniFilePresent fs "AUDINFOE.CK5") then (false, g) else
  if negb (FS_IsOmniFilePresent fs "ACTION.CK5") then (false, g) else
  (true, g).

Definition CK6_IsPresent (fs : FileSystem) (g : Globals) : bool * Globals :=
  (* User-provided files *)
  if negb (FS_IsKeenFilePresent fs "EGAGRAPH.CK6") then (false, g) else
  if negb (FS_IsKeenFilePresent fs "GAMEMAPS.CK6") then (false, g) else
  if negb (FS_IsKeenFilePresent fs "AUDIO.CK6") then (false, g) else
  let egaGraph := FS_OpenKeenFile fs "EGAGRAPH.CK6" in
  let egaGraphSize := FS_GetFileSize egaGraph in
  let g :=
    if egaGraphSize =? 464662 then set_ck6_episode ck6v15e_episode g
    else set_ck6_episode ck6v14e_episode g in
  (* Omnispeak-provided files *)
  if negb (FS_IsOmniFilePresent fs "EGAHEAD.CK6") then (false, g) else
  if negb (FS_IsOmniFilePresent fs "EGADICT.CK6") then (false, g) else
  if negb (FS_IsOmniFilePresent fs "GFXINFOE.CK6") then (false, g) else
  if negb (FS_IsOmniFilePresent fs "MAPHEAD.CK6") then (false, g) else
  if negb (FS_IsOmniFilePresent fs "AUDIODCT.CK6") then (false, g) else
  if negb (FS_IsOmniFilePresent fs "AUDIOHHD.CK6") then (false, g) else
  if negb (FS_IsOmniFilePresent fs "AUDINFOE.CK6") then (false, g) else
  if negb (FS_IsOmniFilePresent fs "ACTION.CK6") then (false, g) else
  (true, g).

(** The files each check asks for, in the order of the tests. *)
Definition ck5_keenFiles : list string :=
  ["EGAGRAPH.CK5"; "GAMEMAPS.CK5"; "AUDIO.CK5"]%string.
Definition ck5_omniFiles : list string :=
  ["EGAHEAD.CK5"; "EGADICT.CK5"; "GFXINFOE.CK5"; "MAPHEAD.CK5";
   "AUDIODCT.CK5"; "AUDIOHHD.CK5"; "AUDINFOE.CK5"; "ACTION.CK5"]%string.
Definition ck6_keenFiles : list string :=
  ["EGAGRAPH.CK6"; "GAMEMAPS.CK6"; "AUDIO.CK6"]%string.
Definition ck6_omniFiles : list string :=
  ["EGAHEAD.CK6"; "EGADICT.CK6"; "GFXINFOE.CK6"; "MAPHEAD.CK6";
   "AUDIODCT.CK6"; "AUDIOHHD.CK6"; "AUDINFOE.CK6"; "ACTION.CK6"]%string.

Definition IsPresent (ep : Episode) : FileSystem → Globals → bool * Globals :=
  match ep with
  | EP_CK5 => CK5_IsPresent
  | EP_CK6 => CK6_IsPresent
  end.

Definition keenFiles (ep : Episode) : list string :=
  match ep with
  | EP_CK5 => ck5_keenFiles
  | EP_CK6 => ck6_keenFiles
  end.

Definition omniFiles (ep : Episode) : list string :=
  match ep with
  | EP_CK5 => ck5_omniFiles
  | EP_CK6 => ck6_omniFiles
  end.

(** The version of Keen 6 that the size of its graphics file stands for. *)
Definition ck6_version (fs : FileSystem) : CK6_EpisodeDef :=
  if FS_GetFileSize (FS_OpenKeenFile fs "EGAGRAPH.CK6") =? 464662
  then ck6v15e_episode else ck6v14e_episode.

(** Some required file is missing: a user-provided one from the Keen
    directory, or an engine-provided one from both directories. *)
Definition keenMissing (fs : FileSystem) (files : list string) : Prop :=
  ∃ f, f ∈ files ∧ FS_IsKeenFilePresent fs f = false.
Definition omniMissing (fs : FileSystem) (files : list string) : Prop :=
  ∃ f, f ∈ files ∧ FS_IsOmniFilePresent fs f = false.

(** Directory listings used as test data. *)
Definition file (n : string) (sz : Z) : dirent :=
  {| d_name := n; d_size := sz; d_opens := true |}.

Definition keen6_dir : list dirent :=
  [file "egagraph.ck6" 464662; file "GAMEMAPS.CK6" 99000; file "AUDIO.CK6" 150000].

Definition fs_no_headers : FileSystem :=
  {| fs_keenPath := keen6_dir; fs_omniPath := []; fs_userPath := [] |}.

Definition fs_no_maps : FileSystem :=
  {| fs_keenPath := [file "EGAGRAPH.CK6" 464662]; fs_omniPath := []; fs_userPath := [] |}.

Definition globals0 : Globals := {| ck6_episode := None; other_globals := [3; 0; 5] |}.

End Present.

(** ** Game state, objects, tile planes *)

Module Game.

(** [CK_Difficulty] of [ck_def.h]; C compares the enumerators as integers. *)
Inductive CK_Difficulty := D_NotPlaying | D_Easy | D_Normal | D_Hard.

Definition difficultyValue (d : CK_Difficulty) : Z :=
  match d with
  | D_NotPlaying => 0
  | D_Easy => 1
  | D_Normal => 2
  | D_Hard => 3
  end.

Definition diff_lt (a b : CK_Difficulty) : bool := difficultyValue a <? difficultyValue b.
Definition diff_gt (a b : CK_Difficulty) : bool := difficultyValue a >? difficultyValue b.

(** Modelled from the spec: the level-state enumeration, whose declaration
    is not part of the sources at hand; the scan only tests it for equality
    with [LS_TeleportToKorath]. *)
Inductive CK_LevelState :=
  | LS_Playing | LS_Died | LS_LevelComplete | LS_CouncilRescued
  | LS_AboutToRecordDemo | LS_TeleportToKorath | LS_KorathFuse | LS_DestroyedQED.

#[global] Instance CK_LevelState_eq_dec : EqDecision CK_LevelState.
Proof. solve_decision. Defined.

(** [ck_gameState]; the per-episode member [ep.ck5.fusesRemaining] is kept
    as a field of its own, and is a counter in [Z]. *)
Record CK_GameState := {
  difficulty : CK_Difficulty;
  levelState : CK_LevelState;
  numShots : Z;
  currentLevel : Z;
  fusesRemaining : Z;
  levelsDone : list bool
}.

Definition set_fusesRemaining (n : Z) (gs : CK_GameState) : CK_GameState :=
  {| difficulty := difficulty gs; levelState := levelState gs;
     numShots := numShots gs; currentLevel := currentLevel gs;
     fusesRemaining := n; levelsDone := levelsDone gs |}.

(** Modelled from the spec: the activity state of an object, whose
    enumeration is not part of the sources at hand:
    always-active, active-only-onscreen, inactive, exists-only-onscreen. *)
Inductive CK_objActive :=
  | OBJ_INACTIVE | OBJ_ACTIVE | OBJ_ALWAYS_ACTIVE | OBJ_EXISTS_ONLY_ONSCREEN.

#[global] Instance CK_objActive_eq_dec : EqDecision CK_objActive.
Proof. solve_decision. Defined.

Record CK_objPhysData := {
  unitX1 : Z; unitY1 : Z; unitX2 : Z; unitY2 : Z;
  tileX1 : Z; tileY1 : Z; tileX2 : Z; tileY2 : Z
}.

(** An action is referred to by the number of its entry in the action
    table. *)
Definition CK_action := Z.

(** The members of [CK_object] that the two files read or write; the links
    [next] and [prev] are the order of [live] in the registry below. *)
Record CK_object := {
  type : Z;
  active : CK_objActive;
  posX : Z;
  posY : Z;
  currentAction : option CK_action;
  clipRects : CK_objPhysData
}.

Definition set_type (t : Z) (o : CK_object) : CK_object :=
  {| type := t; active := active o; posX := posX o; posY := posY o;
     currentAction := currentAction o; clipRects := clipRects o |}.
Definition set_active (a : CK_objActive) (o : CK_object) : CK_object :=
  {| type := type o; active := a; posX := posX o; posY := posY o;
     currentAction := currentAction o; clipRects := clipRects o |}.
Definition set_posX (x : Z) (o : CK_object) : CK_object :=
  {| type := type o; active := active o; posX := x; posY := posY o;
     currentAction := currentAction o; clipRects := clipRects o |}.
Definition set_posY (y : Z) (o : CK_object) : CK_object :=
  {| type := type o; active := active o; posX := posX o; posY := y;
     currentAction := currentAction o; clipRects := clipRects o |}.
Definition set_currentAction (a : CK_action) (o : CK_object) : CK_object :=
  {| type := type o; active := active o; posX := posX o; posY := posY o;
     currentAction := Some a; clipRects := clipRects o |}.

Definition zeroRects : CK_objPhysData :=
  {| unitX1 := 0; unitY1 := 0; unitX2 := 0; unitY2 := 0;
     tileX1 := 0; tileY1 := 0; tileX2 := 0; tileY2 := 0 |}.

Definition zeroObject : CK_object :=
  {| type := 0; active := OBJ_INACTIVE; posX := 0; posY := 0;
     currentAction := None; clipRects := zeroRects |}.

(** Modelled from the spec: the Object Registry of [ck_play.c], which is not
    part of the sources at hand: a bounded pool of object records with free
    and live lists. A handle is the index of a slot; [live] lists the live
    objects in link order, Keen's object ([ck_keenObj]) first; [free] lists
    the slots that can be acquired. *)
Record Registry := {
  slots : list CK_object;
  live : list nat;
  free : list nat
}.

(** Modelled from the spec: [AcquireObject(clearAll) -> handle |
    null-on-exhaustion]. The slot is taken from the free list and linked at
    the end of the live list; its record is cleared when asked. *)
Definition CK_GetNewObj (clearAll : bool) (r : Registry) : option nat * Registry :=
  match free r with
  | [] => (None, r)
  | h :: rest =>
      (Some h,
       {| slots := if clearAll then <[h := zeroObject]> (slots r) else slots r;
          live := live r ++ [h];
          free := rest |})
  end.

(** Modelled from the spec: [ReleaseObject(handle)]: the slot is unlinked
    from the live list and returned to the pool. *)
Definition CK_RemoveObj (h : nat) (r : Registry) : Registry :=
  {| slots := slots r;
     live := filter (λ h', h' ≠ h) (live r);
     free := h :: free r |}.

Definition updObj (h : nat) (f : CK_object → CK_object) (r : Registry) : Registry :=
  {| slots := alter f h (slots r); live := live r; free := free r |}.

(** Modelled from the spec: [SetAction(handle, actionRef)]. *)
Definition CK_SetAction (h : nat) (a : CK_action) (r : Registry) : Registry :=
  updObj h (set_currentAction a) r.

Definition ck_keenObj (r : Registry) : option nat := head (live r).

(** The tile planes of the loaded map, [CA_mapPlanes], each a row-major
    array of [mapWidth * mapHeight] tiles (plane 1 is the foreground,
    plane 2 the info plane). *)
Record Level := {
  mapWidth : Z;
  mapHeight : Z;
  planes : list (list Z)
}.

Definition set_planes (ps : list (list Z)) (lvl : Level) : Level :=
  {| mapWidth := mapWidth lvl; mapHeight := mapHeight lvl; planes := ps |}.

(** A tile pointer is the index of the tile in its plane. *)
Definition CA_TilePtrAtPos (lvl : Level) (x y : Z) : Z := y * mapWidth lvl + x.

Definition readTile (lvl : Level) (plane : nat) (ptr : Z) : option Z :=
  if ptr <? 0 then None
  else p ← planes lvl !! plane; p !! Z.to_nat ptr.

Definition writeTile (lvl : Level) (plane : nat) (ptr : Z) (v : Z) : option Level :=
  if ptr <? 0 then None
  else
    p ← planes lvl !! plane;
    if decide (Z.to_nat ptr < length p)%nat
    then Some (set_planes (<[plane := <[Z.to_nat ptr := v]> p]> (planes lvl)) lvl)
    else None.

Definition CA_TileAtPos (lvl : Level) (x y : Z) (plane : nat) : option Z :=
  readTile lvl plane (CA_TilePtrAtPos lvl x y).

Definition CA_GetMapWidth (lvl : Level) : Z := mapWidth lvl.

(** Bounded [for] loops over an integer range, in the error monad. *)
Fixpoint for_count {St : Type} (n : nat) (i : Z) (body : Z → St → option St) (s : St)
  : option St :=
  match n with
  | O => Some s
  | S n' => s' ← body i s; for_count n' (i + 1) body s'
  end.

Definition for_range {St : Type} (lo hi : Z) (body : Z → St → option St) (s : St)
  : option St :=
  for_count (Z.to_nat (hi - lo)) lo body s.

(** Modelled from the spec: [ReplaceTiles] of the tile-storage layer
    ([RF_ReplaceTiles], not part of the sources at hand): the [w] by [h]
    block of tiles read row by row from [tiles] is stored in [plane] at
    tile ([dstX], [dstY]). *)
Definition RF_ReplaceTiles (tiles : list Z) (plane : nat) (dstX dstY w h : Z)
    (lvl : Level) : option Level :=
  for_range 0 h (λ r,
    for_range 0 w (λ c lvl',
      t ← tiles !! Z.to_nat (r * w + c);
      writeTile lvl' plane (CA_TilePtrAtPos lvl' (dstX + c) (dstY + r)) t)) lvl.

(** Tile attributes, loaded from the tile-info file. *)
Record TileInfo := {
  TI_ForeAnimTile : Z → Z;
  TI_ForeMisc : Z → Z
}.

(** Calls into other parts of the engine that the scan makes; they are
    recorded in the order they happen. *)
Inductive CK_Dir := CD_north | CD_east | CD_south | CD_west.

Inductive Arg := I (z : Z) | B (b : bool) | D (d : CK_Dir).

Inductive Call :=
  | Spawn (fn : string) (args : list Arg)
  | RF_SetScrollBlock (x y : Z) (b : bool)
  | GraphChunkNeeded (chunk : Z)
  | CA_MarkGrChunk (chunk : Z)
  | CA_CacheGrChunk (chunk : Z).

#[global] Instance CK_Dir_eq_dec : EqDecision CK_Dir.
Proof. solve_decision. Defined.
#[global] Instance Arg_eq_dec : EqDecision Arg.
Proof. solve_decision. Defined.
#[global] Instance Call_eq_dec : EqDecision Call.
Proof. solve_decision. Defined.

Definition isSpawn (c : Call) : bool :=
  match c with
  | Spawn _ _ => true
  | _ => false
  end.

(** The mutable state the scan works on. *)
Record World := {
  gameState : CK_GameState;
  ck5_lumpsNeeded : list bool;
  ck6_lumpsNeeded : list bool;
  registry : Registry;
  level : Level;
  calls : list Call
}.

Definition set_gameState (gs : CK_GameState) (w : World) : World :=
  {| gameState := gs; ck5_lumpsNeeded := ck5_lumpsNeeded w;
     ck6_lumpsNeeded := ck6_lumpsNeeded w; registry := registry w;
     level := level w; calls := calls w |}.
Definition set_ck5_lumpsNeeded (l : list bool) (w : World) : World :=
  {| gameState := gameState w; ck5_lumpsNeeded := l;
     ck6_lumpsNeeded := ck6_lumpsNeeded w; registry := registry w;
     level := level w; calls := calls w |}.
Definition set_ck6_lumpsNeeded (l : list bool) (w : World) : World :=
  {| gameState := gameState w; ck5_lumpsNeeded := ck5_lumpsNeeded w;
     ck6_lumpsNeeded := l; registry := registry w;
     level := level w; calls := calls w |}.
Definition set_registry (r : Registry) (w : World) : World :=
  {| gameState := gameState w; ck5_lumpsNeeded := ck5_lumpsNeeded w;
     ck6_lumpsNeeded := ck6_lumpsNeeded w; registry := r;
     level := level w; calls := calls w |}.
Definition set_level (lvl : Level) (w : World) : World :=
  {| gameState := gameState w; ck5_lumpsNeeded := ck5_lumpsNeeded w;
     ck6_lumpsNeeded := ck6_lumpsNeeded w; registry := registry w;
     level := lvl; calls := calls w |}.
Definition set_calls (cs : list Call) (w : World) : World :=
  {| gameState := gameState w; ck5_lumpsNeeded := ck5_lumpsNeeded w;
     ck6_lumpsNeeded := ck6_lumpsNeeded w; registry := registry w;
     level := level w; calls := cs |}.

(** What the spawner functions do to the registry, by name and arguments;
    every result below holds whatever they are. The call log holds the
    calls that the scan makes itself: what a spawner asks of the chunk
    cache on its own behalf is not part of it. *)
Definition Spawners := string → list Arg → Registry → Registry.

Definition record (c : Call) (w : World) : World := set_calls (calls w ++ [c]) w.

Definition spawn (sp : Spawners) (fn : string) (args : list Arg) (w : World) : World :=
  record (Spawn fn args) (set_registry (sp fn args (registry w)) w).

(** A statement sequence reads left to right. *)
Notation "w ▷ f" := (f w) (at level 45, left associativity, only parsing).

(** The pass that follows the tile loop of both scans. *)
Definition deactivate (o : CK_object) : CK_object :=
  if decide (active o ≠ OBJ_ALWAYS_ACTIVE) then set_active OBJ_INACTIVE o else o.

Definition deactivateAll (r : Registry) : Registry :=
  foldl (λ r' h, updObj h deactivate r') r (live r).

(** The chunks of a lump, from its first to its last, and the requests of
    the pass at the end of both scans, lump by lump. *)
Definition lumpChunks (starts ends : list Z) (i : nat) : list Z :=
  match starts !! i, ends !! i with
  | Some s, Some e => seqZ s (e - s + 1)
  | _, _ => []
  end.

Definition lumpRequests (needed : list bool) (starts ends : list Z) (i : nat) : list Z :=
  match needed !! i with
  | Some true => lumpChunks starts ends i
  | _ => []
  end.

Definition batchRequests (maxlumps : nat) (needed : list bool) (starts ends : list Z)
  : list Z :=
  i ← seq 0 maxlumps; lumpRequests needed starts ends i.

(** How often a chunk is requested in a list of requests. *)
Definition requestCount (j : Z) (requests : list Z) : nat :=
  count_occ Z.eq_dec requests j.

End Game.

(** ** Keen 5 ([ck5_misc.c]) *)

Module CK5.
Import Game.

Definition MAXLUMPS : nat := 34.

(** [CK_Lumptype]. *)
Definition Lump_0 : nat := 0.
Definition Lump_Keen : nat := 1.
Definition Lump_Candy : nat := 2.
Definition Lump_Marshmallow : nat := 3.
Definition Lump_Cola : nat := 4.
Definition Lump_Stix : nat := 5.
Definition Lump_SugarStoopies : nat := 6.
Definition Lump_BagOSugar : nat := 7.
Definition Lump_VitalinKeg : nat := 8.
Definition Lump_Gems : nat := 9.
Definition Lump_Stunner : nat := 10.
Definition Lump_PinkShot : nat := 11.
Definition Lump_MapKeen : nat := 12.
Definition Lump_ShikadiMaster : nat := 13.
Definition Lump_Shikadi : nat := 14.
Definition Lump_Shocksund : nat := 15.
Definition Lump_Sphereful : nat := 16.
Definition Lump_Sparky : nat := 17.
Definition Lump_Mine : nat := 18.
Definition Lump_Slicestar : nat := 19.
Definition Lump_RoboRed : nat := 20.
Definition Lump_Spirogrip : nat := 21.
Definition Lump_Ampton : nat := 22.
Definition Lump_VolteFace : nat := 23.
Definition Lump_PurplePlat : nat := 24.
Definition Lump_Spindred : nat := 25.
Definition Lump_Shelley : nat := 26.
Definition Lump_RedPlat : nat := 27.
Definition Lump_UnusedRedPlat : nat := 28.
Definition Lump_Keycard : nat := 29.
Definition Lump_Korath : nat := 30.
Definition Lump_QEDFuse : nat := 31.
Definition Lump_QEDExplosion : nat := 32.
Definition Lump_Teleporter : nat := 33.

Definition ck5_itemLumps : list nat :=
  [Lump_Gems; Lump_Gems; Lump_Gems; Lump_Gems; Lump_Candy; Lump_Marshmallow;
   Lump_Cola; Lump_Stix; Lump_SugarStoopies; Lump_BagOSugar; Lump_VitalinKeg;
   Lump_Stunner].

Definition ck5_lumpStarts : list Z :=
  [0; 0x6C; 0xD2; 0xD4; 0xD6; 0xD8; 0xDA; 0xDC; 0xDE; 0xE0; 0xE9; 0xEC; 0xF2;
   0x130; 0x140; 0x151; 0x166; 0x16E; 0x17A; 0x181; 0x183; 0x189; 0x195;
   0x1A1; 0x1A6; 0x1A8; 0x1AC; 0x1BE; 0x1BF; 0xCF; 0x126; 0x11B; 0x11E; 0x122].

Definition ck5_lumpEnds : list Z :=
  [0; 0xCE; 0xD3; 0xD5; 0xD7; 0xD9; 0xDB; 0xDD; 0xDF; 0xE8; 0xEA; 0xF1; 0x11A;
   0x13F; 0x150; 0x165; 0x16D; 0x179; 0x180; 0x182; 0x188; 0x194; 0x1A0;
   0x1A5; 0x1A7; 0x1AB; 0x1BD; 0x1BE; 0x1BF; 0xD1; 0x12F; 0x11D; 0x121; 0x125].

(** [ck5_lumpsNeeded[i] = true]. *)
Definition need (i : nat) (w : World) : World :=
  set_ck5_lumpsNeeded (<[i := true]> (ck5_lumpsNeeded w)) w.

(** [ca_graphChunkNeeded[chunk] |= ca_levelbit]. *)
Definition graphChunkNeeded (chunk : Z) (w : World) : World :=
  record (GraphChunkNeeded chunk) w.

Definition setFuses (n : Z) (w : World) : World :=
  set_gameState (set_fusesRemaining n (gameState w)) w.

(** The body of the [switch] of [CK5_ScanInfoLayer] for one tile. A case
    that falls through is written as the test that guards its [break]
    followed by the case below it. *)
Definition CK5_ScanTile (sp : Spawners) (x y infoValue : Z) (w : World) : World :=
  let gs := gameState w in
  let d := difficulty gs in
  let brk (b : bool) (rest : World → World) (w : World) := if b then w else rest w in
  let keen dir w :=
    w ▷ spawn sp "CK_SpawnKeen" [I x; I y; I dir] ▷ spawn sp "CK_DemoSignSpawn" []
      ▷ graphChunkNeeded 0xEB ▷ need Lump_Keen in
  let sparky w := w ▷ spawn sp "CK5_SpawnSparky" [I x; I y] ▷ need Lump_Sparky in
  let mine w := w ▷ spawn sp "CK5_SpawnMine" [I x; I y] ▷ need Lump_Mine in
  let slice dir w :=
    w ▷ spawn sp "CK5_SpawnSlice" [I x; I y; D dir] ▷ need Lump_Slicestar in
  let robo w := w ▷ spawn sp "CK5_SpawnRobo" [I x; I y] ▷ need Lump_RoboRed in
  let spirogrip w :=
    w ▷ spawn sp "CK5_SpawnSpirogrip" [I x; I y] ▷ need Lump_Spirogrip in
  let sliceDiag w :=
    w ▷ spawn sp "CK5_SpawnSliceDiag" [I x; I y] ▷ need Lump_Slicestar in
  let axis n purple lump w :=
    w ▷ spawn sp "CK_SpawnAxisPlatform" [I x; I y; I n; B purple] ▷ need lump in
  let standPlat w :=
    w ▷ spawn sp "CK_SpawnStandPlatform" [I x; I y] ▷ need Lump_RedPlat in
  let goPlat n purple lump w :=
    w ▷ spawn sp "CK_SpawnGoPlat" [I x; I y; I n; B purple] ▷ need lump in
  let ampton w := w ▷ spawn sp "CK5_SpawnAmpton" [I x; I y] ▷ need Lump_Ampton in
  let turret n w :=
    w ▷ spawn sp "CK_TurretSpawn" [I x; I y; I n] ▷ need Lump_PinkShot in
  let item v w :=
    w ▷ spawn sp "CK_SpawnItem" [I x; I y; I (v - 57)]
      ▷ need (default 0%nat (ck5_itemLumps !! Z.to_nat (v - 57))) in
  let volte w := w ▷ spawn sp "CK5_SpawnVolte" [I x; I y] ▷ need Lump_VolteFace in
  let shelly w := w ▷ spawn sp "CK5_SpawnShelly" [I x; I y] ▷ need Lump_Shelley in
  let spindred w :=
    w ▷ spawn sp "CK5_SpawnSpindred" [I x; I y] ▷ need Lump_Spindred in
  let master w :=
    w ▷ spawn sp "CK5_SpawnMaster" [I x; I y] ▷ need Lump_ShikadiMaster in
  let shikadi w := w ▷ spawn sp "CK5_SpawnShikadi" [I x; I y] ▷ need Lump_Shikadi in
  let shocksund w :=
    w ▷ spawn sp "CK5_SpawnShocksund" [I x; I y] ▷ need Lump_Shocksund in
  let sphereful w :=
    w ▷ spawn sp "CK5_SpawnSphereful" [I x; I y] ▷ need Lump_Sphereful in
  match infoValue with
  | 1 => keen 1 w
  | 2 => keen (-1) w
  | 3 =>
      let w := w ▷ spawn sp "CK_DemoSignSpawn" [] ▷ graphChunkNeeded 0xEB
                 ▷ need Lump_MapKeen in
      if decide (levelState gs ≠ LS_TeleportToKorath)
      then spawn sp "CK_SpawnMapKeen" [I x; I y] w else w

  | 6 => brk (diff_lt d D_Hard) (brk (diff_lt d D_Normal) sparky) w
  | 5 => brk (diff_lt d D_Normal) sparky w
  | 4 => sparky w

  | 9 => brk (diff_lt d D_Hard) (brk (diff_lt d D_Normal) mine) w
  | 8 => brk (diff_lt d D_Normal) mine w
  | 7 => mine w

  | 12 => brk (diff_lt d D_Hard) (brk (diff_lt d D_Normal) (slice CD_north)) w
  | 11 => brk (diff_lt d D_Normal) (slice CD_north) w
  | 10 => slice CD_north w

  | 15 => brk (diff_lt d D_Hard) (brk (diff_lt d D_Normal) robo) w
  | 14 => brk (diff_lt d D_Normal) robo w
  | 13 => robo w

  | 18 => brk (diff_lt d D_Hard) (brk (diff_lt d D_Normal) spirogrip) w
  | 17 => brk (diff_lt d D_Normal) spirogrip w
  | 16 => spirogrip w

  | 21 => brk (diff_lt d D_Hard) (brk (diff_lt d D_Normal) sliceDiag) w
  | 20 => brk (diff_lt d D_Normal) sliceDiag w
  | 19 => sliceDiag w

  | 24 => brk (diff_lt d D_Hard) (brk (diff_lt d D_Normal) (slice CD_east)) w
  | 23 => brk (diff_lt d D_Normal) (slice CD_east) w
  | 22 => slice CD_east w

  | 25 => record (RF_SetScrollBlock x y true) w
  | 26 =>
      if decide (levelState gs = LS_TeleportToKorath)
      then spawn sp "CK5_MapKeenTeleSpawn" [I x; I y] w else w
  | 27 | 28 | 29 | 30 => axis (infoValue - 27) false Lump_RedPlat w
  | 32 => w ▷ spawn sp "CK_SpawnFallPlat" [I x; I y] ▷ need Lump_RedPlat

  | 33 => brk (diff_gt d D_Easy) (brk (diff_gt d D_Normal) standPlat) w
  | 34 => brk (diff_gt d D_Normal) standPlat w
  | 35 => standPlat w

  | 36 | 37 | 38 | 39 => goPlat (infoValue - 36) false Lump_RedPlat w
  | 40 => w ▷ spawn sp "CK_SneakPlatSpawn" [I x; I y] ▷ need Lump_RedPlat
  | 41 =>
      let w :=
        if currentLevel gs =? 12
        then w ▷ setFuses 4 ▷ spawn sp "CK5_QEDSpawn" [I x; I y]
        else w ▷ setFuses (fusesRemaining gs + 1) in
      need Lump_QEDFuse w

  | 44 => brk (diff_lt d D_Hard) (brk (diff_lt d D_Normal) ampton) w
  | 43 => brk (diff_lt d D_Normal) ampton w
  | 42 => ampton w

  | 53 => brk (diff_lt d D_Hard) (brk (diff_lt d D_Normal) (turret 0)) w
  | 49 => brk (diff_lt d D_Normal) (turret 0) w
  | 45 => turret 0 w

  | 54 => brk (diff_lt d D_Hard) (brk (diff_lt d D_Normal) (turret 1)) w
  | 50 => brk (diff_lt d D_Normal) (turret 1) w
  | 46 => turret 1 w

  | 55 => brk (diff_lt d D_Hard) (brk (diff_lt d D_Normal) (turret 2)) w
  | 51 => brk (diff_lt d D_Normal) (turret 2) w
  | 47 => turret 2 w

  | 56 => brk (diff_lt d D_Hard) (brk (diff_lt d D_Normal) (turret 3)) w
  | 52 => brk (diff_lt d D_Normal) (turret 3) w
  | 48 => turret 3 w

  | 69 =>
      (* Spawn extra stunner if Keen has low ammo *)
      brk (numShots gs >=? 5) (item 68) w
  | 57 | 58 | 59 | 60 | 61 | 62 | 63 | 64 | 65 | 66 | 67 | 68 => item infoValue w
  | 70 =>
      (* Omegamatic Keycard *)
      w ▷ spawn sp "CK_SpawnItem" [I x; I y; I (infoValue - 58)] ▷ need Lump_Keycard

  | 73 => brk (diff_lt d D_Hard) (brk (diff_lt d D_Normal) volte) w
  | 72 => brk (diff_lt d D_Normal) volte w
  | 71 => volte w

  | 76 => brk (diff_lt d D_Hard) (brk (diff_lt d D_Normal) shelly) w
  | 75 => brk (diff_lt d D_Normal) shelly w
  | 74 => shelly w

  | 79 => brk (diff_lt d D_Hard) (brk (diff_lt d D_Normal) spindred) w
  | 78 => brk (diff_lt d D_Normal) spindred w
  | 77 => spindred w

  | 80 | 81 | 82 | 83 => goPlat (infoValue - 80) true Lump_PurplePlat w
  | 84 | 85 | 86 | 87 => axis (infoValue - 84) true Lump_PurplePlat w

  | 90 => brk (diff_lt d D_Hard) (brk (diff_lt d D_Normal) master) w
  | 89 => brk (diff_lt d D_Normal) master w
  | 88 => master w

  | 101 => brk (diff_lt d D_Hard) (brk (diff_lt d D_Normal) shikadi) w
  | 100 => brk (diff_lt d D_Normal) shikadi w
  | 99 => shikadi w

  | 104 => brk (diff_lt d D_Hard) (brk (diff_lt d D_Normal) shocksund) w
  | 103 => brk (diff_lt d D_Normal) shocksund w
  | 102 => shocksund w

  | 107 => brk (diff_lt d D_Hard) (brk (diff_lt d D_Normal) sphereful) w
  | 106 => brk (diff_lt d D_Normal) sphereful w
  | 105 => sphereful w

  | 124 => w ▷ spawn sp "CK5_SpawnKorath" [I x; I y] ▷ need Lump_Korath
  | 125 =>
      (* TODO: Signal about teleportation (caching) *)
      need Lump_Teleporter w
  | _ => w
  end.

(** The two nested loops over the info plane. *)
Definition CK5_ScanTiles (sp : Spawners) (w : World) : option World :=
  let mapW := mapWidth (level w) in
  let mapH := mapHeight (level w) in
  for_range 0 mapH (λ y,
    for_range 0 mapW (λ x w',
      infoValue ← CA_TileAtPos (level w') x y 2;
      Some (CK5_ScanTile sp x y infoValue w'))) w.

Definition CK5_OpenMapTeleporter (tileX tileY : Z) (lvl : Level) : option Level :=
  t0 ← CA_TileAtPos lvl (5 * 2 + 0) 0 1;
  t1 ← CA_TileAtPos lvl (5 * 2 + 1) 0 1;
  t2 ← CA_TileAtPos lvl (5 * 2 + 0) 1 1;
  t3 ← CA_TileAtPos lvl (5 * 2 + 1) 1 1;
  RF_ReplaceTiles [t0; t1; t2; t3] 1 tileX tileY 2 2 lvl.

Definition CK5_CloseMapTeleporter (tileX tileY : Z) (lvl : Level) : option Level :=
  t0 ← CA_TileAtPos lvl 0 0 1;
  t1 ← CA_TileAtPos lvl 1 0 1;
  t2 ← CA_TileAtPos lvl 0 1 1;
  t3 ← CA_TileAtPos lvl 1 1 1;
  RF_ReplaceTiles [t0; t1; t2; t3] 1 tileX tileY 2 2 lvl.

(** The requests of the final pass of the scan, as calls. *)
Definition ck5_batch (needed : list bool) : list Z :=
  batchRequests MAXLUMPS needed ck5_lumpStarts ck5_lumpEnds.

Definition markNeededLumps (w : World) : World :=
  set_calls (calls w ++ (CA_MarkGrChunk <$> ck5_batch (ck5_lumpsNeeded w))) w.

(** The elevator doors of the world map (level 0). *)
Definition mapTeleporters (w : World) : option World :=
  h ← ck_keenObj (registry w);
  keen ← slots (registry w) !! h;
  let gs := gameState w in
  let keenYTilePos := Z.shiftr (posY keen) 8 in
  lvl ←
    (if (keenYTilePos <? 75) || (keenYTilePos >? 100)
     then CK5_CloseMapTeleporter 24 76 (level w) ≫= CK5_OpenMapTeleporter 22 55
     else Some (level w));
  d4 ← levelsDone gs !! 4%nat;
  d6 ← levelsDone gs !! 6%nat;
  d8 ← levelsDone gs !! 8%nat;
  d10 ← levelsDone gs !! 10%nat;
  lvl ←
    (if d4 && d6 && d8 && d10 && (keenYTilePos >? 39)
     then CK5_OpenMapTeleporter 26 55 lvl else Some lvl);
  lvl ←
    (if (keenYTilePos <? 39) || (keenYTilePos >? 100)
     then CK5_OpenMapTeleporter 24 30 lvl else Some lvl);
  Some (set_level lvl w).

Definition CK5_ScanInfoLayer (sp : Spawners) (w : World) : option World :=
  let w := setFuses 0 w in
  w ← CK5_ScanTiles sp w;
  let w := set_registry (deactivateAll (registry w)) w in
  (* Mark all of the chunks for needed lumps. *)
  let w := markNeededLumps w in
  if currentLevel (gameState w) =? 0 then mapTeleporters w else Some w.

(** *** The enemy shot *)

(** [CT5_EnemyShot] is a constant of [ck5_ep.h] and [CK_NotStuckInWall] a
    test of the physics code on the object and the tiles around it;
    neither is part of the sources at hand, and both are arguments here. *)
Definition CK5_SpawnEnemyShot (CT5_EnemyShot : Z)
    (CK_NotStuckInWall : Registry → nat → bool)
    (posX posY : Z) (action : CK_action) (r : Registry) : option nat * Registry :=
  match CK_GetNewObj true r with
  | (None, r) => (None, r)
  | (Some new_object, r) =>
      let r :=
        r ▷ updObj new_object (set_posX posX)
          ▷ updObj new_object (set_posY posY)
          ▷ updObj new_object (set_type CT5_EnemyShot)
          ▷ updObj new_object (set_active OBJ_EXISTS_ONLY_ONSCREEN)
          ▷ CK_SetAction new_object action in
      if CK_NotStuckInWall r new_object then (Some new_object, r)
      else (None, CK_RemoveObj new_object r)
  end.

(** In a well-formed registry a free slot is a slot of the pool and is not
    linked among the live objects. *)
Definition freeSlotsUnlinked (r : Registry) : Prop :=
  Forall (λ h, (h < length (slots r))%nat ∧ h ∉ live r) (free r).

(** *** The galaxy explosion *)

(** [CK5_GalExplode]: four arrays of 4000 entries; [x] and [y] are
    [uint16_t], [dx] and [dy] are [int16_t]. *)
Record CK5_GalExplode := {
  x : list Z;
  dx : list Z;
  y : list Z;
  dy : list Z
}.

Definition NUM_STARS : nat := 4000.

(** The four entries of one star. *)
Record Star := { sx : Z; sdx : Z; sy : Z; sdy : Z }.

(** Star [i] of the table, when all four of its entries are there. *)
Definition getStar (info : CK5_GalExplode) (i : nat) : option Star :=
  xi ← x info !! i; dxi ← dx info !! i; yi ← y info !! i; dyi ← dy info !! i;
  Some {| sx := xi; sdx := dxi; sy := yi; sdy := dyi |}.

Definition putStar (info : CK5_GalExplode) (i : nat) (s : Star) : CK5_GalExplode :=
  {| x := <[i := sx s]> (x info); dx := dx info;
     y := <[i := sy s]> (y info); dy := dy info |}.

(** The body of the loop of [CK_GalExplodeUpdateCoords] for one star: the
    star afterwards and the pixel plotted for it, if any. Each [continue]
    leaves the body before [VH_Plot]. *)
Definition starStep (s : Star) : Star * option (Z * Z) :=
  let newPos := u16 (sx s + sdx s) in
  if newPos >? 320 * 0x80 then (s, None)
  else
    let s := {| sx := newPos; sdx := sdx s; sy := sy s; sdy := sdy s |} in
    let newPos := u16 (sy s + sdy s) in
    if newPos >? 200 * 0x80 then (s, None)
    else
      let s := {| sx := sx s; sdx := sdx s; sy := newPos; sdy := sdy s |} in
      (s, Some (sx s / 0x80, sy s / 0x80)).

(** One turn of the loop of [CK_GalExplodeUpdateCoords], for star [i]:
    [x[i]] and [dx[i]] are read first, and the first [continue] leaves
    the turn before [y[i]] and [dy[i]] are read; otherwise the star is
    stepped and stored. A read outside an array is undefined. *)
Definition frameBody (acc : option (CK5_GalExplode * list (Z * Z))) (i : nat)
  : option (CK5_GalExplode * list (Z * Z)) :=
  '(info, screen) ← acc;
  xi ← x info !! i; dxi ← dx info !! i;
  let newPos := u16 (xi + dxi) in
  if newPos >? 320 * 0x80 then Some (info, screen)
  else
    s ← getStar info i;
    let '(s', plot) := starStep s in
    Some (putStar info i s', screen ++ option_list plot).

(** One frame: the video buffer is blanked, then the stars are stepped
    from the last to the first; the result is the star table and the
    pixels plotted on the blank buffer, in the order of the calls of
    [VH_Plot] (all in colour 15). *)
Definition CK_GalExplodeUpdateCoords (info : CK5_GalExplode)
  : option (CK5_GalExplode * list (Z * Z)) :=
  foldl frameBody (Some (info, [])) (reverse (seq 0 NUM_STARS)).

(** A star over the frames. *)
Definition starAfter (n : nat) (s : Star) : Star := Nat.iter n (λ s, (starStep s).1) s.

Definition xLeaves (s : Star) : bool := u16 (sx s + sdx s) >? 320 * 0x80.
Definition yLeaves (s : Star) : bool := u16 (sy s + sdy s) >? 200 * 0x80.

End CK5.

(** ** Keen 6 ([ck6_misc.c]) *)

Module CK6.
Import Game.

Definition MAXLUMPS : nat := 0x28.

(** [CK6_LumpType]. *)
Definition Lump_0 : nat := 0.
Definition Lump_Keen : nat := 1.
Definition Lump_100Pts : nat := 2.
Definition Lump_200Pts : nat := 3.
Definition Lump_500Pts : nat := 4.
Definition Lump_1000Pts : nat := 5.
Definition Lump_2000Pts : nat := 6.
Definition Lump_5000Pts : nat := 7.
Definition Lump_1UP : nat := 8.
Definition Lump_Gems : nat := 9.
Definition Lump_Stunner : nat := 10.
Definition Lump_Mapkeen : nat := 11.
Definition Lump_12 : nat := 12.
Definition Lump_Bloog : nat := 13.
Definition Lump_BloogletR : nat := 14.
Definition Lump_BloogletY : nat := 15.
Definition Lump_BloogletB : nat := 16.
Definition Lump_BloogletG : nat := 17.
Definition Lump_Platform : nat := 18.
Definition Lump_Gik : nat := 19.
Definition Lump_Blorb : nat := 20.
Definition Lump_Bobba : nat := 21.
Definition Lump_Babobba : nat := 22.
Definition Lump_Bloogguard : nat := 23.
Definition Lump_Flect : nat := 24.
Definition Lump_Bip : nat := 25.
Definition Lump_PlatBip : nat := 26.
Definition Lump_Bipship : nat := 27.
Definition Lump_Nospike : nat := 28.
Definition Lump_Orbatrix : nat := 29.
Definition Lump_Ceilick : nat := 30.
Definition Lump_Fleex : nat := 31.
Definition Lump_Rope : nat := 32.
Definition Lump_Sandwich : nat := 33.
Definition Lump_Turret : nat := 34.
Definition Lump_Passcard : nat := 35.
Definition Lump_Molly : nat := 36.

Definition ck6_itemLumps : list nat :=
  [Lump_Gems; Lump_Gems; Lump_Gems; Lump_Gems; Lump_100Pts; Lump_200Pts;
   Lump_500Pts; Lump_1000Pts; Lump_2000Pts; Lump_5000Pts; Lump_1UP; Lump_Stunner].

Definition ck6_lumpStarts : list Z :=
  [11; 52; 150; 152; 154; 156; 158; 160; 162; 164; 173; 184; 0; 342; 351; 360;
   369; 378; 424; 387; 399; 402; 285; 254; 317; 414; 423; 269; 298; 329; 246;
   239; 183; 182; 176; 435; 433; 0; 0; 0].

Definition ck6_lumpEnds : list Z :=
  [26; 149; 151; 153; 155; 157; 159; 161; 163; 172; 174; 238; 0; 350; 359; 368;
   377; 386; 432; 398; 401; 413; 297; 268; 328; 422; 423; 284; 316; 341; 253;
   245; 183; 182; 181; 435; 434; 0; 0; 0].

(** [ck6_lumpsNeeded[i] = true]. *)
Definition need (i : nat) (w : World) : World :=
  set_ck6_lumpsNeeded (<[i := true]> (ck6_lumpsNeeded w)) w.

Definition graphChunkNeeded (chunk : Z) (w : World) : World :=
  record (GraphChunkNeeded chunk) w.

(** The body of the [switch] of [CK6_ScanInfoLayer] for one tile. *)
Definition CK6_ScanTile (sp : Spawners) (x y infoValue : Z) (w : World) : World :=
  let gs := gameState w in
  let d := difficulty gs in
  let brk (b : bool) (rest : World → World) (w : World) := if b then w else rest w in
  let keen dir w :=
    w ▷ spawn sp "CK_SpawnKeen" [I x; I y; I dir] ▷ spawn sp "CK_DemoSignSpawn" []
      ▷ graphChunkNeeded 175 ▷ need Lump_Keen in
  let bloog w := w ▷ need Lump_Bloog ▷ spawn sp "CK6_SpawnBloog" [I x; I y] in
  let fleex w := w ▷ need Lump_Fleex ▷ spawn sp "CK6_SpawnFleex" [I x; I y] in
  let standPlat w :=
    w ▷ spawn sp "CK_SpawnStandPlatform" [I x; I y] ▷ need Lump_Platform in
  let bobba w := w ▷ need Lump_Bobba ▷ spawn sp "CK6_SpawnBobba" [I x; I y] in
  let nospike w := w ▷ need Lump_Nospike ▷ spawn sp "CK6_SpawnNospike" [I x; I y] in
  let gik w := w ▷ need Lump_Gik ▷ spawn sp "CK6_SpawnGik" [I x; I y] in
  let item v w :=
    w ▷ spawn sp "CK_SpawnItem" [I x; I y; I (v - 57)]
      ▷ need (default 0%nat (ck6_itemLumps !! Z.to_nat (v - 57))) in
  let orbatrix w :=
    w ▷ need Lump_Orbatrix ▷ spawn sp "CK6_SpawnOrbatrix" [I x; I y] in
  let bipship w :=
    w ▷ need Lump_Bip ▷ need Lump_PlatBip ▷ need Lump_Bipship
      ▷ spawn sp "CK6_SpawnBipship" [I x; I y] in
  let flect w := w ▷ need Lump_Flect ▷ spawn sp "CK6_SpawnFlect" [I x; I y] in
  let blorb w := w ▷ need Lump_Blorb ▷ spawn sp "CK6_SpawnBlorb" [I x; I y] in
  let ceilick w := w ▷ need Lump_Ceilick ▷ spawn sp "CK6_SpawnCeilick" [I x; I y] in
  let bloogguard w :=
    w ▷ need Lump_Bloogguard ▷ spawn sp "CK6_SpawnBloogguard" [I x; I y] in
  let babobba w := w ▷ need Lump_Babobba ▷ spawn sp "CK6_SpawnBabobba" [I x; I y] in
  match infoValue with
  | 1 => keen 1 w
  | 2 => keen (-1) w
  | 3 =>
      w ▷ spawn sp "CK_DemoSignSpawn" [] ▷ graphChunkNeeded 175
        ▷ spawn sp "CK_SpawnMapKeen" [I x; I y] ▷ need Lump_Mapkeen

  (* Bloogs *)
  | 6 => brk (diff_lt d D_Hard) (brk (diff_lt d D_Normal) bloog) w
  | 5 => brk (diff_lt d D_Normal) bloog w
  | 4 => bloog w

  | 7 | 8 | 9 | 10 | 11 | 12 | 13 | 14 =>
      let color := Z.rem (infoValue - 7) 4 in
      w ▷ need (Lump_BloogletR + Z.to_nat color)%nat
        ▷ spawn sp "CK6_SpawnBlooglet" [I x; I y; I (infoValue - 7)]

  | 15 | 16 => spawn sp "CK6_SpawnMapCliff" [I x; I y; I (infoValue - 15)] w

  | 24 => w ▷ need Lump_Molly ▷ spawn sp "CK6_SpawnMolly" [I x; I y]

  (* Fleex *)
  | 20 => brk (diff_lt d D_Hard) (brk (diff_lt d D_Normal) fleex) w
  | 19 => brk (diff_lt d D_Normal) fleex w
  | 18 => fleex w

  | 25 => record (RF_SetScrollBlock x y true) w
  | 26 => record (RF_SetScrollBlock x y false) w

  (* Platforms *)
  | 27 | 28 | 29 | 30 =>
      w ▷ spawn sp "CK_SpawnAxisPlatform" [I x; I y; I (infoValue - 27); B false]
        ▷ need Lump_Platform
  | 32 => w ▷ spawn sp "CK_SpawnFallPlat" [I x; I y] ▷ need Lump_Platform

  | 33 => brk (diff_gt d D_Easy) (brk (diff_gt d D_Normal) standPlat) w
  | 34 => brk (diff_gt d D_Normal) standPlat w
  | 35 => standPlat w

  | 36 | 37 | 38 | 39 =>
      w ▷ spawn sp "CK_SpawnGoPlat" [I x; I y; I (infoValue - 36); B false]
        ▷ need Lump_Platform ▷ need Lump_PlatBip
  | 40 => w ▷ spawn sp "CK_SneakPlatSpawn" [I x; I y] ▷ need Lump_Platform

  (* Bobbas *)
  | 43 => brk (diff_lt d D_Hard) (brk (diff_lt d D_Normal) bobba) w
  | 42 => brk (diff_lt d D_Normal) bobba w
  | 41 => bobba w

  | 44 | 45 => spawn sp "CK6_SpawnSatelliteLoading" [I x; I y; I (infoValue - 44)] w

  (* Nospike *)
  | 49 => brk (diff_lt d D_Hard) (brk (diff_lt d D_Normal) nospike) w
  | 48 => brk (diff_lt d D_Normal) nospike w
  | 47 => nospike w

  (* Gik *)
  | 52 => brk (diff_lt d D_Hard) (brk (diff_lt d D_Normal) gik) w
  | 51 => brk (diff_lt d D_Normal) gik w
  | 50 => gik w

  (* Turrets *)
  | 53 | 54 | 55 | 56 =>
      w ▷ need Lump_Turret ▷ spawn sp "CK_TurretSpawn" [I x; I y; I (infoValue - 53)]

  | 69 =>
      (* Spawn extra stunner if Keen has low ammo *)
      brk (numShots gs >=? 5) (item 68) w
  | 57 | 58 | 59 | 60 | 61 | 62 | 63 | 64 | 65 | 66 | 67 | 68 => item infoValue w

  (* Orbatrices *)
  | 72 => brk (diff_lt d D_Hard) (brk (diff_lt d D_Normal) orbatrix) w
  | 71 => brk (diff_lt d D_Normal) orbatrix w
  | 70 => orbatrix w

  (* Bip *)
  | 75 => brk (diff_lt d D_Hard) (brk (diff_lt d D_Normal) bipship) w
  | 74 => brk (diff_lt d D_Normal) bipship w
  | 73 => bipship w

  (* Flects *)
  | 78 => brk (diff_lt d D_Hard) (brk (diff_lt d D_Normal) flect) w
  | 77 => brk (diff_lt d D_Normal) flect w
  | 76 => flect w

  (* Blorbs *)
  | 81 => brk (diff_lt d D_Hard) (brk (diff_lt d D_Normal) blorb) w
  | 80 => brk (diff_lt d D_Normal) blorb w
  | 79 => blorb w

  (* Ceilicks *)
  | 84 => brk (diff_lt d D_Hard) (brk (diff_lt d D_Normal) ceilick) w
  | 83 => brk (diff_lt d D_Normal) ceilick w
  | 82 => ceilick w

  (* Bloogguards *)
  | 87 => brk (diff_lt d D_Hard) (brk (diff_lt d D_Normal) bloogguard) w
  | 86 => brk (diff_lt d D_Normal) bloogguard w
  | 85 => bloogguard w

  (* Grabbiter *)
  | 88 => spawn sp "CK6_SpawnGrabbiter" [I x; I y] w

  (* Satellite *)
  | 89 => spawn sp "CK6_SpawnSatellite" [I x; I y] w

  (* Story Items *)
  | 99 => w ▷ need Lump_Rope ▷ spawn sp "CK6_SpawnRope" [I x; I y]
  | 100 => w ▷ need Lump_Sandwich ▷ spawn sp "CK6_SpawnSandwich" [I x; I y]
  | 101 => w ▷ need Lump_Passcard ▷ spawn sp "CK6_SpawnPasscard" [I x; I y]

  (* Babobbas *)
  | 104 => brk (diff_lt d D_Hard) (brk (diff_lt d D_Normal) babobba) w
  | 103 => brk (diff_lt d D_Normal) babobba w
  | 102 => babobba w

  | 105 => spawn sp "CK6_SpawnRocket" [I x; I y; I (infoValue - 105)] w
  | _ => w
  end.

Definition CK6_ScanTiles (sp : Spawners) (w : World) : option World :=
  let mapW := mapWidth (level w) in
  let mapH := mapHeight (level w) in
  for_range 0 mapH (λ y,
    for_range 0 mapW (λ x w',
      infoValue ← CA_TileAtPos (level w') x y 2;
      Some (CK6_ScanTile sp x y infoValue w'))) w.

Definition ck6_batch (needed : list bool) : list Z :=
  batchRequests MAXLUMPS needed ck6_lumpStarts ck6_lumpEnds.

Definition cacheNeededLumps (w : World) : World :=
  set_calls (calls w ++ (CA_CacheGrChunk <$> ck6_batch (ck6_lumpsNeeded w))) w.

Definition CK6_ScanInfoLayer (sp : Spawners) (w : World) : option World :=
  w ← CK6_ScanTiles sp w;
  let w := set_registry (deactivateAll (registry w)) w in
  Some (cacheNeededLumps w).

(** *** The big switch *)

(** The misc flags tested by the switch are constants of a header that is
    not part of the sources at hand; they are given with the tile
    attributes. *)
Record MiscFlags := {
  MISCFLAG_DEADLY : Z;
  MISCFLAG_BRIDGE : Z;
  MISCFLAG_ACTIVEZAPPER : Z;
  MISCFLAG_INACTIVEZAPPER : Z
}.

(** [while (!*infoTile) { tx++; infoTile++; }] over the tiles of the info
    plane from the pointer on. The loop has no bound of its own: when only
    empty tiles are left, the pointer runs off the plane ([None]). *)
Fixpoint skipEmptyInfo (rest : list Z) (tx infoTile : Z) : option (Z * Z) :=
  match rest with
  | [] => None
  | v :: rest' =>
      if v =? 0 then skipEmptyInfo rest' (tx + 1) (infoTile + 1)
      else Some (tx, infoTile)
  end.

Definition findInfoTile (lvl : Level) (tx infoTile : Z) : option (Z * Z) :=
  if infoTile <? 0 then None
  else p ← planes lvl !! 2%nat; skipEmptyInfo (drop (Z.to_nat infoTile) p) tx infoTile.

(** [tile + TI_ForeAnimTile(tile)], stored as [uint16_t]. *)
Definition toggledTile (ti : TileInfo) (t : Z) : Z := u16 (t + TI_ForeAnimTile ti t).

(** The six tiles of [tile_array], read through the walking pointer
    [fgTile]. *)
Definition switchTileArray (ti : TileInfo) (lvl : Level) (tx ty : Z) : option (list Z) :=
  '(tile_array, _) ←
    for_range 0 3 (λ y '(arr, fgTile),
      '(arr, fgTile) ←
        for_range 0 2 (λ x '(arr, fgTile),
          t ← readTile lvl 1 fgTile;
          Some (arr ++ [toggledTile ti t], fgTile + 1)) (arr, fgTile);
      Some (arr, fgTile + (CA_GetMapWidth lvl - 2)))
    ([], CA_TilePtrAtPos lvl tx ty);
  Some tile_array.

(** The first half of [CK6_ToggleBigSwitch], "Replace switch tiles", up to
    the destination read from the info tile: the level as it is then, and
    the destination. *)
Definition replaceSwitchTiles (ti : TileInfo) (obj : CK_object) (dir : bool)
    (lvl : Level) : option (Level * Z * Z) :=
  let ty := if dir then tileY2 (clipRects obj) else tileY1 (clipRects obj) - 2 in
  let tx := tileX1 (clipRects obj) - 1 in
  '(tx, _) ← findInfoTile lvl tx (CA_TilePtrAtPos lvl (tx + 1) (ty + 1));
  tile_array ← switchTileArray ti lvl tx ty;
  lvl ← RF_ReplaceTiles tile_array 1 tx ty 2 3 lvl;
  infoTile ← readTile lvl 2 (CA_TilePtrAtPos lvl (tx + 1) (ty + 1));
  let destX := Z.shiftr infoTile 8 in
  let destY := Z.land infoTile 0xFF in
  Some (lvl, destX, destY).

(** The four effects of a switch, and the tests that choose among them. *)
Inductive SwitchEffect :=
  | ToggleArrow | ActiveZapper | InactiveZapper | Bridge | BBlock.

Definition switchEffect (ti : TileInfo) (mf : MiscFlags) (lvl : Level)
    (destX destY : Z) : option SwitchEffect :=
  infoTile ← readTile lvl 2 (CA_TilePtrAtPos lvl destX destY);
  if (0x5B <=? infoTile) && (infoTile <? 0x5B + 8) then Some ToggleArrow
  else
    fgTile ← readTile lvl 1 (CA_TilePtrAtPos lvl destX destY);
    let miscValue := Z.land (TI_ForeMisc ti fgTile) 0x7F in
    if miscValue =? MISCFLAG_ACTIVEZAPPER mf then Some ActiveZapper
    else if miscValue =? MISCFLAG_INACTIVEZAPPER mf then Some InactiveZapper
    else if miscValue =? MISCFLAG_BRIDGE mf then Some Bridge
    else Some BBlock.

Definition infoPlaneInverses : list Z := [2; 3; 0; 1; 6; 7; 4; 5].

(** The middle of a zapper: a [while] loop that goes down a column. Every
    round moves one row down, so on a map that has a width the loop ends
    or leaves the plane within as many rounds as the plane has tiles;
    [fuel] is that number. *)
Fixpoint zapperRun (ti : TileInfo) (fuel : nat) (goOn : Z → bool) (mid destX destY : Z)
    (lvl : Level) : option (Z * Level) :=
  match fuel with
  | O => None
  | S fuel' =>
      t ← CA_TileAtPos lvl destX destY 1;
      if goOn (TI_ForeMisc ti t) then
        lvl' ← RF_ReplaceTiles [mid] 1 destX destY 1 1 lvl;
        zapperRun ti fuel' goOn mid destX (destY + 1) lvl'
      else Some (destY, lvl)
  end.

Definition toggleZapper (ti : TileInfo) (goOn : Z → bool) (srcX destX destY : Z)
    (lvl : Level) : option Level :=
  start ← CA_TileAtPos lvl srcX 0 1;
  mid ← CA_TileAtPos lvl (srcX + 1) 0 1;
  end_ ← CA_TileAtPos lvl (srcX + 2) 0 1;
  lvl ← RF_ReplaceTiles [start] 1 destX destY 1 1 lvl;
  let destY := destY + 1 in
  fg ← planes lvl !! 1%nat;
  '(destY, lvl) ← zapperRun ti (S (length fg)) goOn mid destX destY lvl;
  RF_ReplaceTiles [end_] 1 destX destY 1 1 lvl.

(** One row of a bridge: the inner [for] loop with its [break]; the level
    afterwards and the pointers of the tiles that were replaced. *)
Fixpoint bridgeRow (ti : TileInfo) (n : nat) (x y : Z) (lvl : Level)
  : option (Level * list Z) :=
  match n with
  | O => Some (lvl, [])
  | S n' =>
      currentTile ← CA_TileAtPos lvl x y 1;
      if TI_ForeAnimTile ti currentTile =? 0 then Some (lvl, [])
      else
        let newTile := u16 (currentTile + TI_ForeAnimTile ti currentTile) in
        lvl' ← RF_ReplaceTiles [newTile] 1 x y 1 1 lvl;
        '(lvl'', cells) ← bridgeRow ti n' (x + 1) y lvl';
        Some (lvl'', CA_TilePtrAtPos lvl x y :: cells)
  end.

Definition toggleBridge (ti : TileInfo) (destX destY : Z) (lvl : Level)
  : option (Level * list Z) :=
  for_range destY (destY + 2) (λ y '(lvl, cells),
    let x0 := destX - (if y =? destY then 0 else 1) in
    '(lvl', row) ← bridgeRow ti (Z.to_nat (CA_GetMapWidth lvl - x0)) x0 y lvl;
    Some (lvl', cells ++ row)) (lvl, []).

(** The second half, "Apply the switch effect": the level afterwards and,
    for a bridge, the pointers of the foreground tiles that were replaced. *)
Definition applySwitchEffect (ti : TileInfo) (mf : MiscFlags) (lvl : Level)
    (destX destY : Z) : option (Level * list Z) :=
  let infoTile := CA_TilePtrAtPos lvl destX destY in
  effect ← switchEffect ti mf lvl destX destY;
  match effect with
  | ToggleArrow =>
      (* Toggle a goplat arrow *)
      v ← readTile lvl 2 infoTile;
      inverse ← infoPlaneInverses !! Z.to_nat (v - 0x5B);
      lvl' ← writeTile lvl 2 infoTile (inverse + 0x5B);
      Some (lvl', [])
  | ActiveZapper =>
      lvl' ← toggleZapper ti (λ m, m =? MISCFLAG_DEADLY mf) 0 destX destY lvl;
      Some (lvl', [])
  | InactiveZapper =>
      lvl' ← toggleZapper ti (λ m, negb (m =? MISCFLAG_INACTIVEZAPPER mf)) 3
                destX destY lvl;
      Some (lvl', [])
  | Bridge => toggleBridge ti destX destY lvl
  | BBlock =>
      (* Toggle a B block *)
      v ← readTile lvl 2 infoTile;
      lvl' ← writeTile lvl 2 infoTile (Z.lxor v 0x1F);
      Some (lvl', [])
  end.

(** [SD_PlaySound] between the two halves does not touch the tiles and is
    left out. *)
Definition CK6_ToggleBigSwitch (ti : TileInfo) (mf : MiscFlags) (obj : CK_object)
    (dir : bool) (lvl : Level) : option Level :=
  '(lvl, destX, destY) ← replaceSwitchTiles ti obj dir lvl;
  fst <$> applySwitchEffect ti mf lvl destX destY.

(** Which effect a toggle has, and the foreground tiles its bridge loops
    replace (none when the effect is another). *)
Definition toggleEffect (ti : TileInfo) (mf : MiscFlags) (obj : CK_object)
    (dir : bool) (lvl : Level) : option SwitchEffect :=
  '(lvl, destX, destY) ← replaceSwitchTiles ti obj dir lvl;
  switchEffect ti mf lvl destX destY.

Definition bridgeRegion (ti : TileInfo) (mf : MiscFlags) (obj : CK_object)
    (dir : bool) (lvl : Level) : list Z :=
  default []
    ('(lvl, destX, destY) ← replaceSwitchTiles ti obj dir lvl;
     snd <$> applySwitchEffect ti mf lvl destX destY).

(** The two successive animation offsets of a tile sum to zero. *)
Definition offsetsCancel (ti : TileInfo) (t : Z) : Prop :=
  TI_ForeAnimTile ti t + TI_ForeAnimTile ti (toggledTile ti t) = 0.

(** The tiles of a plane are 16-bit values. *)
Definition tiles16 (lvl : Level) : Prop :=
  ∀ ptr t, readTile lvl 1 ptr = Some t → 0 ≤ t < 65536.

(** *** What a toggle does to the foreground plane *)

(** The pointers of the six tiles of a switch at ([tx], [ty]). *)
Definition blockCells (lvl : Level) (tx ty : Z) : list Z :=
  let p := CA_TilePtrAtPos lvl tx ty in
  let W := mapWidth lvl in
  [p; p + 1; p + W; p + W + 1; p + 2 * W; p + 2 * W + 1].

(** The tiles of the switch that a toggle replaces. *)
Definition switchBlock (obj : CK_object) (dir : bool) (lvl : Level) : list Z :=
  let ty := if dir then tileY2 (clipRects obj) else tileY1 (clipRects obj) - 2 in
  let tx := tileX1 (clipRects obj) - 1 in
  match findInfoTile lvl tx (CA_TilePtrAtPos lvl (tx + 1) (ty + 1)) with
  | Some (tx, _) => blockCells lvl tx ty
  | None => []
  end.

(** [toggledOn ti cells lvl lvl']: [lvl'] is [lvl] with the foreground
    tiles at [cells] toggled; the width and the info plane are the same. *)
Definition toggledOn (ti : TileInfo) (cells : list Z) (lvl lvl' : Level) : Prop :=
  mapWidth lvl' = mapWidth lvl
  ∧ planes lvl' !! 2%nat = planes lvl !! 2%nat
  ∧ ∀ c, readTile lvl' 1 c
         = (if decide (c ∈ cells) then toggledTile ti else id) <$> readTile lvl 1 c.

Definition toggles (ti : TileInfo) (k : nat) (t : Z) : Z := Nat.iter k (toggledTile ti) t.

(** A 16-bit tile whose two successive offsets cancel. *)
Definition cancelling (ti : TileInfo) (t : Z) : Prop :=
  0 ≤ t < 65536 ∧ offsetsCancel ti t.

(** [toggledTimes ti e lvl lvl']: the foreground tile at each pointer [c]
    of [lvl'] is that of [lvl] toggled [e c] times; the width and the info
    plane are the same. *)
Definition toggledTimes (ti : TileInfo) (e : Z → nat) (lvl lvl' : Level) : Prop :=
  mapWidth lvl' = mapWidth lvl
  ∧ planes lvl' !! 2%nat = planes lvl !! 2%nat
  ∧ ∀ c, readTile lvl' 1 c = toggles ti (e c) <$> readTile lvl 1 c.

Definition inCells (cells : list Z) (c : Z) : nat := if decide (c ∈ cells) then 1 else 0.

(** Every tile of [cells] has, further right in its row, a tile without
    animation offset. *)
Definition rowsBounded (ti : TileInfo) (cells : list Z) (lvl : Level) : Prop :=
  ∀ c, c ∈ cells →
    ∃ c' t', c < c' ∧ c' `div` mapWidth lvl = c `div` mapWidth lvl
      ∧ readTile lvl 1 c' = Some t' ∧ TI_ForeAnimTile ti t' = 0.

End CK6.

(** ** The two episodes side by side *)

Module Episodes.
Import Game.

(** The scan hook of the episode definition ([ck5_episode],
    [ck6v14e_episode], [ck6v15e_episode]) and its parts. *)
Definition ScanTile (ep : Episode) : Spawners → Z → Z → Z → World → World :=
  match ep with
  | EP_CK5 => CK5.CK5_ScanTile
  | EP_CK6 => CK6.CK6_ScanTile
  end.

Definition ScanTiles (ep : Episode) : Spawners → World → option World :=
  match ep with
  | EP_CK5 => λ sp w, CK5.CK5_ScanTiles sp (CK5.setFuses 0 w)
  | EP_CK6 => CK6.CK6_ScanTiles
  end.

Definition ScanInfoLayer (ep : Episode) : Spawners → World → option World :=
  match ep with
  | EP_CK5 => CK5.CK5_ScanInfoLayer
  | EP_CK6 => CK6.CK6_ScanInfoLayer
  end.

Definition lumpsNeeded (ep : Episode) : World → list bool :=
  match ep with
  | EP_CK5 => ck5_lumpsNeeded
  | EP_CK6 => ck6_lumpsNeeded
  end.

(** The assignment [ck5_lumpsNeeded[i] = true], resp.
    [ck6_lumpsNeeded[i] = true]. *)
Definition need (ep : Episode) : nat → World → World :=
  match ep with
  | EP_CK5 => CK5.need
  | EP_CK6 => CK6.need
  end.

Definition maxLumps (ep : Episode) : nat :=
  match ep with
  | EP_CK5 => CK5.MAXLUMPS
  | EP_CK6 => CK6.MAXLUMPS
  end.

Definition lumpStarts (ep : Episode) : list Z :=
  match ep with
  | EP_CK5 => CK5.ck5_lumpStarts
  | EP_CK6 => CK6.ck6_lumpStarts
  end.

Definition lumpEnds (ep : Episode) : list Z :=
  match ep with
  | EP_CK5 => CK5.ck5_lumpEnds
  | EP_CK6 => CK6.ck6_lumpEnds
  end.

(** The request the final pass makes for a chunk: Keen 5 marks, Keen 6
    caches. *)
Definition chunkRequest (ep : Episode) : Z → Call :=
  match ep with
  | EP_CK5 => CA_MarkGrChunk
  | EP_CK6 => CA_CacheGrChunk
  end.

Definition batch (ep : Episode) (needed : list bool) : list Z :=
  batchRequests (maxLumps ep) needed (lumpStarts ep) (lumpEnds ep).

(** The difficulty cascades of the two switches, as (base code, code gated
    by Normal, code gated by Hard). *)
Definition cascades (ep : Episode) : list (Z * Z * Z) :=
  match ep with
  | EP_CK5 =>
      [(4, 5, 6); (7, 8, 9); (10, 11, 12); (13, 14, 15); (16, 17, 18);
       (19, 20, 21); (22, 23, 24); (42, 43, 44); (45, 49, 53); (46, 50, 54);
       (47, 51, 55); (48, 52, 56); (71, 72, 73); (74, 75, 76); (77, 78, 79);
       (88, 89, 90); (99, 100, 101); (102, 103, 104); (105, 106, 107)]
  | EP_CK6 =>
      [(4, 5, 6); (18, 19, 20); (41, 42, 43); (47, 48, 49); (50, 51, 52);
       (70, 71, 72); (73, 74, 75); (76, 77, 78); (79, 80, 81); (82, 83, 84);
       (85, 86, 87); (102, 103, 104)]
  end.

(** The lump categories without chunks: first and last chunk both 0. *)
Definition emptyRange (ep : Episode) (i : nat) : Prop :=
  lumpStarts ep !! i = Some 0 ∧ lumpEnds ep !! i = Some 0.

(** Checks on the lump tables, by evaluation: chunk 0 lies in no range but
    the empty ones, and no two categories share a chunk, the empty ones of
    Keen 6 apart (which all stand for chunk 0). *)
Definition rangeOf (ep : Episode) (i : nat) : option (Z * Z) :=
  s ← lumpStarts ep !! i; e ← lumpEnds ep !! i; Some (s, e).

Definition chunk0Free (ep : Episode) : bool :=
  forallb (λ i,
    match rangeOf ep i with
    | Some (s, e) => ((s =? 0) && (e =? 0)) || negb ((s <=? 0) && (0 <=? e))
    | None => true
    end) (seq 0 (maxLumps ep)).

Definition apart (ep : Episode) (i k : nat) : bool :=
  match rangeOf ep i, rangeOf ep k with
  | Some (s, e), Some (s', e') => (e <? s') || (e' <? s)
  | _, _ => true
  end.

Definition rangesApart (ep : Episode) : bool :=
  forallb (λ i,
    forallb (λ k,
      (i =? k)%nat || apart ep i k
      || match ep with
         | EP_CK5 => false
         | EP_CK6 =>
             match rangeOf ep i with
             | Some (s, e) => (s =? 0) && (e =? 0)
             | None => false
             end
         end) (seq 0 (maxLumps ep))) (seq 0 (maxLumps ep)).

Definition hasChunks (ep : Episode) (i : nat) : bool :=
  match lumpStarts ep !! i, lumpEnds ep !! i with
  | Some s, Some e => negb ((s =? 0) && (e =? 0))
  | _, _ => false
  end.

(** [marked ep l l']: the flags [l'] are [l] after some categories that
    have chunks were marked as needed. *)
Inductive marked (ep : Episode) (l : list bool) : list bool → Prop :=
  | marked_none : marked ep l l
  | marked_more l' i :
      hasChunks ep i = true → marked ep l l' → marked ep l (<[i := true]> l').

(** The tile loop as a whole: the level is not touched, and the flags it
    sets belong to categories that have chunks. *)
Definition tilesEffect (ep : Episode) (w w' : World) : Prop :=
  level w' = level w
  ∧ marked ep (lumpsNeeded ep w) (lumpsNeeded ep w').

(** The info tiles that the two loops of a scan read: the first
    [width * height] tiles of the info plane. *)
Definition scannedTiles (lvl : Level) : list Z :=
  take (Z.to_nat (mapWidth lvl) * Z.to_nat (mapHeight lvl))
       (default [] (planes lvl !! 2%nat)).

(** The lump flags that the program can hold when a scan begins. The
    array of an episode is static to its file: it is clear when the
    program starts, and nothing but the scan of the episode assigns to
    it. *)
Inductive reachableFlags (ep : Episode) : list bool → Prop :=
  | flags_at_start : reachableFlags ep (replicate (maxLumps ep) false)
  | flags_after_scan sp w w' :
      reachableFlags ep (lumpsNeeded ep w) →
      ScanInfoLayer ep sp w = Some w' →
      reachableFlags ep (lumpsNeeded ep w').

(** The info plane has a tile for every position of the map. *)
Definition infoPlaneFits (lvl : Level) : Prop :=
  0 ≤ mapWidth lvl ∧ 0 ≤ mapHeight lvl
  ∧ ∃ p, planes lvl !! 2%nat = Some p
         ∧ Z.of_nat (length p) = mapWidth lvl * mapHeight lvl.

End Episodes.

(** ** Test data *)

Module Samples.
Import Game Episodes.

(** A stand-in for the spawners: each takes a slot from the pool; an axis
    platform is always active, as [CK6_SpawnAxisPlatform] makes it, any
    other object is active. *)
Definition demoSpawners : Spawners := λ fn args r,
  match CK_GetNewObj true r with
  | (Some h, r') =>
      updObj h
        (set_active
           (if String.eqb fn "CK_SpawnAxisPlatform" then OBJ_ALWAYS_ACTIVE
            else OBJ_ACTIVE)) r'
  | (None, r') => r'
  end.

Definition pool (n : nat) : Registry :=
  {| slots := replicate n zeroObject; live := []; free := seq 0 n |}.

Definition demoState (d : CK_Difficulty) (lvl : Z) : CK_GameState :=
  {| difficulty := d; levelState := LS_Playing; numShots := 0;
     currentLevel := lvl; fusesRemaining := 7; levelsDone := replicate 25 false |}.

(** A map of three by two tiles: Keen, a Hard-only Sparky, a fuse, an axis
    platform, nothing, a Normal-and-up Sparky. *)
Definition demoLevel : Level :=
  {| mapWidth := 3; mapHeight := 2;
     planes := [[0; 0; 0; 0; 0; 0]; [0; 0; 0; 0; 0; 0]; [1; 6; 41; 27; 0; 5]] |}.

Definition demoWorld (d : CK_Difficulty) (lvl : Z) : World :=
  {| gameState := demoState d lvl;
     ck5_lumpsNeeded := replicate 34 false;
     ck6_lumpsNeeded := replicate 40 false;
     registry := pool 8;
     level := demoLevel;
     calls := [] |}.

(** A star table whose stars all sit on the right border and move right. *)
Definition borderStar : CK5.Star := {| CK5.sx := 320 * 0x80; CK5.sdx := 1; CK5.sy := 0; CK5.sdy := 0 |}.

Definition borderGalaxy : CK5.CK5_GalExplode :=
  {| CK5.x := replicate 4000 (320 * 0x80); CK5.dx := replicate 4000 1;
     CK5.y := replicate 4000 0; CK5.dy := replicate 4000 0 |}.

(** A shot counts as stuck in a wall when it is placed left of the map. *)
Definition demoNotStuck : Registry → nat → bool := λ r h,
  match slots r !! h with
  | Some o => 0 <=? posX o
  | None => false
  end.

Definition demoPool : Registry :=
  {| slots := replicate 3 zeroObject; live := [0%nat]; free := [1%nat; 2%nat] |}.

(** A map of eight by five tiles with a big switch in the top left corner
    (tiles 20, switched 21) whose info tile points to a bridge that starts
    at tile (3, 3) (tiles 10, extended 11). *)
Definition switchLevel : Level :=
  {| mapWidth := 8; mapHeight := 5;
     planes :=
       [ replicate 40 0;
         [20; 20; 0; 0; 0; 0; 0; 0;
          20; 20; 0; 0; 0; 0; 0; 0;
          20; 20; 0; 0; 0; 0; 0; 0;
          0; 0; 0; 10; 10; 10; 0; 0;
          0; 0; 10; 10; 10; 10; 0; 0];
         [0; 0; 0; 0; 0; 0; 0; 0;
          0; 771; 0; 0; 0; 0; 0; 0;
          0; 0; 0; 0; 0; 0; 0; 0;
          0; 0; 0; 0; 0; 0; 0; 0;
          0; 0; 0; 0; 0; 0; 0; 0] ] |}.

Definition demoFlags : CK6.MiscFlags :=
  {| CK6.MISCFLAG_DEADLY := 3; CK6.MISCFLAG_BRIDGE := 18;
     CK6.MISCFLAG_ACTIVEZAPPER := 19; CK6.MISCFLAG_INACTIVEZAPPER := 20 |}.

Definition demoAnim (t : Z) : Z :=
  if (t =? 10) || (t =? 20) then 1
  else if (t =? 11) || (t =? 21) then -1
  else 0.

(** Both bridge tiles carry the bridge flag. *)
Definition bridgeInfo : TileInfo :=
  {| TI_ForeAnimTile := demoAnim;
     TI_ForeMisc := λ t, if (t =? 10) || (t =? 11) then 18 else 0 |}.

(** Only the retracted bridge tile carries the bridge flag. *)
Definition halfBridgeInfo : TileInfo :=
  {| TI_ForeAnimTile := demoAnim;
     TI_ForeMisc := λ t, if t =? 10 then 18 else 0 |}.

Definition switchObj : CK_object :=
  {| type := 0; active := OBJ_ACTIVE; posX := 0; posY := 0; currentAction := None;
     clipRects :=
       {| unitX1 := 256; unitY1 := 0; unitX2 := 511; unitY2 := 255;
          tileX1 := 1; tileY1 := 0; tileX2 := 1; tileY2 := 0 |} |}.

End Samples.

(** ** Notions for further properties of the scans *)

Module ScanNotions.
Import Game Episodes.

Definition set_difficulty (d : CK_Difficulty) (gs : CK_GameState) : CK_GameState :=
  {| difficulty := d; levelState := levelState gs;
     numShots := numShots gs; currentLevel := currentLevel gs;
     fusesRemaining := fusesRemaining gs; levelsDone := levelsDone gs |}.

(** The same world, played at difficulty [d]. *)
Definition atDifficulty (d : CK_Difficulty) (w : World) : World :=
  set_gameState (set_difficulty d (gameState w)) w.

(** The tile does nothing at difficulty [d], or it does at [d] what it
    does at [d']. *)
Definition keptAt (ep : Episode) (sp : Spawners) (x y v : Z) (w : World)
    (d d' : CK_Difficulty) : Prop :=
  ScanTile ep sp x y v (atDifficulty d w) = atDifficulty d w
  ∨ ScanTile ep sp x y v (atDifficulty d w)
    = atDifficulty d (ScanTile ep sp x y v (atDifficulty d' w)).

(** The number of fuse tiles (info value 41) among some tiles, and the
    fuse counter that the Keen 5 scan leaves for that number on level
    [cl]. *)
Definition fuseTiles (p : list Z) : Z := Z.of_nat (count_occ Z.eq_dec p 41).

Definition fusesAfter (cl n : Z) : Z :=
  if cl =? 12 then (if n =? 0 then 0 else 4) else n.

(** [sameFrame pl lvl lvl']: the two levels have the same size and the
    same planes, plane [pl] apart. *)
Definition sameFrame (pl : nat) (lvl lvl' : Level) : Prop :=
  mapWidth lvl' = mapWidth lvl ∧ mapHeight lvl' = mapHeight lvl
  ∧ ∀ pl', pl' ≠ pl → planes lvl' !! pl' = planes lvl !! pl'.

End ScanNotions.

(** ** Notions for further properties of the galaxy explosion *)

Module GalaxyNotions.
Import Game CK5.

(** The entries of star [i] that a turn of the loop reads are in the
    table: [x[i]] and [dx[i]], and, unless the star leaves by its x,
    [y[i]] and [dy[i]]. *)
Definition starInside (info : CK5_GalExplode) (i : nat) : Prop :=
  ∃ xi dxi, x info !! i = Some xi ∧ dx info !! i = Some dxi
    ∧ ((u16 (xi + dxi) >? 320 * 0x80) = false →
       is_Some (y info !! i) ∧ is_Some (dy info !! i)).

(** A star table cut short in its third array, whose stars all leave by
    their x. *)
Definition cutGalaxy : CK5_GalExplode :=
  {| x := replicate 4000 (320 * 0x80); dx := replicate 4000 1;
     y := replicate 3000 0; dy := [] |}.

(** A star table whose stars are one step left of the right border and
    one step above the bottom line, moving right and down; and the table
    one frame later. *)
Definition edgeGalaxy : CK5_GalExplode :=
  {| x := replicate 4000 (320 * 0x80 - 1); dx := replicate 4000 1;
     y := replicate 4000 (200 * 0x80 - 1); dy := replicate 4000 1 |}.

Definition edgeGalaxyAfter : CK5_GalExplode :=
  {| x := replicate 4000 (320 * 0x80); dx := replicate 4000 1;
     y := replicate 4000 (200 * 0x80); dy := replicate 4000 1 |}.

End GalaxyNotions.

(** ** Notions for further properties of the big switch *)

Module SwitchNotions.
Import Game CK6 Samples.

(** The pointer at which the scan for the routing info tile starts, the
    pointer of the info tile it finds, and the pointer of the destination
    that this tile names. *)
Definition scanStart (obj : CK_object) (dir : bool) (lvl : Level) : Z :=
  let ty := if dir then tileY2 (clipRects obj) else tileY1 (clipRects obj) - 2 in
  let tx := tileX1 (clipRects obj) - 1 in
  CA_TilePtrAtPos lvl (tx + 1) (ty + 1).

Definition routingTile (obj : CK_object) (dir : bool) (lvl : Level) : option Z :=
  let ty := if dir then tileY2 (clipRects obj) else tileY1 (clipRects obj) - 2 in
  let tx := tileX1 (clipRects obj) - 1 in
  '(tx, _) ← findInfoTile lvl tx (CA_TilePtrAtPos lvl (tx + 1) (ty + 1));
  Some (CA_TilePtrAtPos lvl (tx + 1) (ty + 1)).

Definition destinationTile (ti : TileInfo) (obj : CK_object) (dir : bool) (lvl : Level)
  : option Z :=
  '(lvl, destX, destY) ← replaceSwitchTiles ti obj dir lvl;
  Some (CA_TilePtrAtPos lvl destX destY).

(** What a toggle of each effect stores in the info tile of the
    destination: the inverse arrow, the value with its low five bits
    flipped, or the value as it is. *)
Definition infoAfter (e : SwitchEffect) (v : Z) : Z :=
  match e with
  | ToggleArrow => default 0 (infoPlaneInverses !! Z.to_nat (v - 0x5B)) + 0x5B
  | BBlock => Z.lxor v 0x1F
  | _ => v
  end.

(** The column of row 0 that holds the three replacement tiles, and the
    test that continues the run, for the two zapper effects. *)
Definition zapperSource (e : SwitchEffect) : Z :=
  match e with ActiveZapper => 0 | _ => 3 end.

Definition zapperGoesOn (mf : MiscFlags) (e : SwitchEffect) (m : Z) : bool :=
  match e with
  | ActiveZapper => m =? MISCFLAG_DEADLY mf
  | _ => negb (m =? MISCFLAG_INACTIVEZAPPER mf)
  end.

(** The map of [switchLevel] without the bridge, with a platform arrow
    (info value 0x5B) at the destination (3, 3) of the switch. *)
Definition arrowLevel : Level :=
  {| mapWidth := 8; mapHeight := 5;
     planes :=
       [ replicate 40 0;
         [20; 20; 0; 0; 0; 0; 0; 0;
          20; 20; 0; 0; 0; 0; 0; 0;
          20; 20; 0; 0; 0; 0; 0; 0;
          0; 0; 0; 0; 0; 0; 0; 0;
          0; 0; 0; 0; 0; 0; 0; 0];
         [0; 0; 0; 0; 0; 0; 0; 0;
          0; 771; 0; 0; 0; 0; 0; 0;
          0; 0; 0; 0; 0; 0; 0; 0;
          0; 0; 0; 0x5B; 0; 0; 0; 0;
          0; 0; 0; 0; 0; 0; 0; 0] ] |}.

(** The same with a B block (info value 0x1F) at the destination. *)
Definition blockLevel : Level :=
  {| mapWidth := 8; mapHeight := 5;
     planes :=
       [ replicate 40 0;
         [20; 20; 0; 0; 0; 0; 0; 0;
          20; 20; 0; 0; 0; 0; 0; 0;
          20; 20; 0; 0; 0; 0; 0; 0;
          0; 0; 0; 0; 0; 0; 0; 0;
          0; 0; 0; 0; 0; 0; 0; 0];
         [0; 0; 0; 0; 0; 0; 0; 0;
          0; 771; 0; 0; 0; 0; 0; 0;
          0; 0; 0; 0; 0; 0; 0; 0;
          0; 0; 0; 0x1F; 0; 0; 0; 0;
          0; 0; 0; 0; 0; 0; 0; 0] ] |}.

(** A map of eight by six tiles with a switch at (4, 2) whose info tile
    points to an active zapper at (3, 1): top tile 40, beam tiles 41
    (deadly), bottom tile 42; the tiles of a zapper that is off are 50, 51
    and 52, in row 0. *)
Definition zapLevel : Level :=
  {| mapWidth := 8; mapHeight := 6;
     planes :=
       [ replicate 48 0;
         [50; 51; 52; 60; 61; 62; 0; 0;
          0; 0; 0; 40; 0; 0; 0; 0;
          0; 0; 0; 41; 20; 20; 0; 0;
          0; 0; 0; 41; 20; 20; 0; 0;
          0; 0; 0; 42; 20; 20; 0; 0;
          0; 0; 0; 0; 0; 0; 0; 0];
         [0; 0; 0; 0; 0; 0; 0; 0;
          0; 0; 0; 0; 0; 0; 0; 0;
          0; 0; 0; 0; 0; 0; 0; 0;
          0; 0; 0; 0; 0; 769; 0; 0;
          0; 0; 0; 0; 0; 0; 0; 0;
          0; 0; 0; 0; 0; 0; 0; 0] ] |}.

Definition zapInfo : TileInfo :=
  {| TI_ForeAnimTile := demoAnim;
     TI_ForeMisc := λ t, if t =? 40 then 19 else if t =? 41 then 3
                         else if t =? 50 then 20 else 0 |}.

Definition zapObj : CK_object :=
  {| type := 0; active := OBJ_ACTIVE; posX := 0; posY := 0; currentAction := None;
     clipRects :=
       {| unitX1 := 1280; unitY1 := 512; unitX2 := 1535; unitY2 := 767;
          tileX1 := 5; tileY1 := 2; tileX2 := 5; tileY2 := 2 |} |}.

End SwitchNotions.

(** ** The extension of a file name *)

Module FileNames.

(** The member [ext] of the episode definitions [ck5_episode],
    [ck6v14e_episode] and [ck6v15e_episode]. *)
Definition episodeExt (ep : Episode) : string :=
  match ep with
  | EP_CK5 => "CK5"
  | EP_CK6 => "CK6"
  end.

(** [FS_AdjustExtension]: the name is copied into the static buffer
    [newname[16]] and its last three characters are overwritten with the
    three characters of the extension of the current episode. [strcpy]
    writes past the buffer when the name has 16 characters or more, and
    the three stores land before the buffer when it has fewer than three:
    both are undefined. The result is the name in the buffer. *)
Definition FS_AdjustExtension (ck_currentEpisode : Episode) (filename : string)
  : option string :=
  let newname := String.list_ascii_of_string filename in
  let fnamelen := length newname in
  if decide (fnamelen < 3 ∨ 16 ≤ fnamelen)%nat then None
  else
    let ext := String.list_ascii_of_string (episodeExt ck_currentEpisode) in
    let newname := <[(fnamelen - 3)%nat := default Ascii.zero (ext !! 0%nat)]> newname in
    let newname := <[(fnamelen - 2)%nat := default Ascii.zero (ext !! 1%nat)]> newname in
    let newname := <[(fnamelen - 1)%nat := default Ascii.zero (ext !! 2%nat)]> newname in
    Some (String.string_of_list_ascii newname).

End FileNames.

(** ** Streams, and the 16-bit values and flags of a saved game *)

Module Streams.

(** A stream of the C library: the bytes of the file and the position of
    the next read or write. *)
Record FILE := { f_bytes : list Z; f_pos : nat }.

(** [fread(ptr, 2, nmemb, stream)]: the complete two-byte elements that
    are left, at most [nmemb] of them; the position moves over the bytes
    read, a last odd byte included. *)
Fixpoint words (nmemb : nat) (bs : list Z) : list (Z * Z) :=
  match nmemb, bs with
  | S n, b0 :: b1 :: rest => (b0, b1) :: words n rest
  | _, _ => []
  end.

Definition fread2 (nmemb : nat) (stream : FILE) : list (Z * Z) * FILE :=
  let left := drop (f_pos stream) (f_bytes stream) in
  (words nmemb left,
   {| f_bytes := f_bytes stream;
      f_pos := f_pos stream + Nat.min (2 * nmemb) (length left) |}).

(** [fwrite] of some bytes: they replace the bytes at the position and
    extend the file at its end (a gap left by a seek past the end reads
    as zero bytes); a write of no byte does nothing. Write errors are not
    modelled. *)
Definition writeAt (bs : list Z) (stream : FILE) : FILE :=
  let old := f_bytes stream ++ replicate (f_pos stream - length (f_bytes stream)) 0 in
  {| f_bytes := take (f_pos stream) old ++ bs ++ drop (f_pos stream + length bs) old;
     f_pos := f_pos stream + length bs |}.

Definition fwrite (bs : list Z) (stream : FILE) : FILE :=
  match bs with
  | [] => stream
  | _ => writeAt bs stream
  end.

Definition FS_SeekTo (file : FILE) (offset : nat) : nat * FILE :=
  let oldOff := f_pos file in
  (oldOff, {| f_bytes := f_bytes file; f_pos := offset |}).

(** A [uint16_t] in the memory of the host, as two bytes, and back. *)
Definition hostBytes (bigEndian : bool) (v : Z) : list Z :=
  if bigEndian then [Z.shiftr v 8; Z.land v 0xFF] else [Z.land v 0xFF; Z.shiftr v 8].

Definition hostWord (bigEndian : bool) (w : Z * Z) : Z :=
  if bigEndian then Z.lor (Z.shiftl w.1 8) w.2 else Z.lor (Z.shiftl w.2 8) w.1.

(** What [ck_cross.h] gives on a host: whether [CK_CROSS_IS_BIGENDIAN] is
    defined, and the two conversions that the functions below call. The
    header lies outside [ck5_misc.c], so the conversions are parameters
    of the functions. *)
Record Cross := {
  CK_CROSS_IS_BIGENDIAN : bool;
  CK_Cross_Swap16 : Z → Z;
  CK_Cross_SwapLE16 : Z → Z
}.

(** [FS_ReadInt16LE]. The result is the values stored through [ptr], the
    count returned, and the stream. *)
Definition FS_ReadInt16LE (c : Cross) (count : nat) (stream : FILE)
  : list Z * nat * FILE :=
  let '(ws, stream) := fread2 count stream in
  let count := length ws in
  let uptr := hostWord (CK_CROSS_IS_BIGENDIAN c) <$> ws in
  let uptr := if CK_CROSS_IS_BIGENDIAN c then CK_Cross_Swap16 c <$> uptr else uptr in
  (uptr, count, stream).

Definition FS_WriteInt16LE (c : Cross) (ptr : list Z) (stream : FILE)
  : nat * FILE :=
  if CK_CROSS_IS_BIGENDIAN c then
    foldl (λ '(actualCount, stream) v,
             let val := CK_Cross_Swap16 c v in
             ((actualCount + 1)%nat, fwrite (hostBytes true val) stream))
          (0%nat, stream) ptr
  else (length ptr, fwrite (ptr ≫= hostBytes false) stream).

(** [FS_ReadBoolFrom16LE], with [readBool] for one turn of its loop: a
    word that is read is stored as a [bool] (true when it is not zero); a
    word that cannot be read any more is skipped, and its entry of the
    array is left as it is. A store past the end of the array is
    undefined. *)
Definition readBool (c : Cross) (acc : option (list bool * nat * FILE)) (loopVar : nat)
  : option (list bool * nat * FILE) :=
  '(ptr, actualCount, stream) ← acc;
  match fread2 1 stream with
  | ([val], stream) =>
      if decide (loopVar < length ptr)%nat
      then Some (<[loopVar := negb (hostWord (CK_CROSS_IS_BIGENDIAN c) val =? 0)]> ptr,
                 S actualCount, stream)
      else None
  | (_, stream) => Some (ptr, actualCount, stream)
  end.

Definition FS_ReadBoolFrom16LE (c : Cross) (ptr : list bool) (count : nat)
    (stream : FILE) : option (list bool * nat * FILE) :=
  foldl (readBool c) (Some (ptr, 0%nat, stream)) (seq 0 count).

Definition FS_WriteBoolTo16LE (c : Cross) (ptr : list bool) (stream : FILE)
  : nat * FILE :=
  foldl (λ '(actualCount, stream) (b : bool),
           let val := CK_Cross_SwapLE16 c (if b then 1 else 0) in
           ((actualCount + 1)%nat,
            fwrite (hostBytes (CK_CROSS_IS_BIGENDIAN c) val) stream))
        (0%nat, stream) ptr.

(** The two bytes of a value in the file, low byte first; and the word
    of a [bool]. *)
Definition littleEndian (v : Z) : list Z := [v mod 256; v / 256].

Definition boolWord (b : bool) : list Z := [if b then 1 else 0; 0].

(** A 16-bit value with its two bytes exchanged, and a header whose
    conversions do what their names say: [CK_Cross_Swap16] exchanges the
    bytes, [CK_Cross_SwapLE16] does so on a big-endian host only. *)
Definition swapped16 (v : Z) : Z := v mod 256 * 256 + v / 256.

Definition crossSwaps (c : Cross) : Prop :=
  ∀ v, 0 ≤ v < 65536 →
    CK_Cross_Swap16 c v = swapped16 v
    ∧ CK_Cross_SwapLE16 c v = if CK_CROSS_IS_BIGENDIAN c then swapped16 v else v.

Definition littleHost : Cross :=
  {| CK_CROSS_IS_BIGENDIAN := false; CK_Cross_Swap16 := swapped16;
     CK_Cross_SwapLE16 := λ v, v |}.

Definition bigHost : Cross :=
  {| CK_CROSS_IS_BIGENDIAN := true; CK_Cross_Swap16 := swapped16;
     CK_Cross_SwapLE16 := swapped16 |}.

(** A save file for the examples: six bytes, positioned at the third. *)
Definition sampleStream : FILE := {| f_bytes := [1; 2; 3; 4; 5; 6]; f_pos := 2 |}.

End Streams.

(** ** The doors of the Keen 5 world map *)

Module DoorNotions.
Import Game CK5.

(** The tile of the door pictures that [CK5_OpenMapTeleporter] (for
    [opened]) and [CK5_CloseMapTeleporter] copy to column [c], row [r]
    of a door. *)
Definition doorPicture (opened : bool) (lvl : Level) (c r : Z) : option Z :=
  CA_TileAtPos lvl ((if opened then 5 * 2 else 0) + c) r 1.

Definition setDoor (opened : bool) : Z → Z → Level → option Level :=
  if opened then CK5_OpenMapTeleporter else CK5_CloseMapTeleporter.

(** The four tiles of the door at ([tileX], [tileY]). *)
Definition doorTiles (lvl : Level) (tileX tileY : Z) : list Z :=
  [CA_TilePtrAtPos lvl tileX tileY; CA_TilePtrAtPos lvl (tileX + 1) tileY;
   CA_TilePtrAtPos lvl tileX (tileY + 1); CA_TilePtrAtPos lvl (tileX + 1) (tileY + 1)].

(** A map of 12 by 4 tiles whose foreground tile number [i] is [100 + i]. *)
Definition doorLevel : Level :=
  {| mapWidth := 12; mapHeight := 4;
     planes := [replicate 48 0; (λ i : nat, 100 + Z.of_nat i) <$> seq 0 48;
                replicate 48 0] |}.

End DoorNotions.

(* ===================================================================== *)
(** * Properties *)

Module PresentFacts.
Import FS Present.

Lemma fs_no_headers_missing : omniMissing fs_no_headers (omniFiles EP_CK6).
Proof. exists "EGAHEAD.CK6"%string. split; [apply list_elem_of_here | reflexivity]. Qed.

(** C3, as stated, does not hold: with the three files of the game in
    place and no header file, [CK6_IsPresent] answers false after it has
    pointed [ck6_episode] to the descriptor of version 1.5. *)
Lemma presence_check_assigns_episode :
  ¬ (∀ ep fs g,
       keenMissing fs (keenFiles ep) ∨ omniMissing fs (omniFiles ep) →
       IsPresent ep fs g = (false, g)).
Proof.
  intros H.
  specialize (H EP_CK6 fs_no_headers globals0 (or_intror fs_no_headers_missing)).
  vm_compute in H. discriminate H.
Qed.

Ltac absent_file H :=
  destruct H as (f & Hf & Hfalse);
  repeat (apply elem_of_cons in Hf as [->|Hf]; [congruence|]);
  by apply elem_of_nil in Hf.

Ltac presence_tests fs :=
  repeat match goal with
    | |- context [FS_IsKeenFilePresent fs ?n] =>
        destruct (FS_IsKeenFilePresent fs n) eqn:?; simpl
    | |- context [FS_IsOmniFilePresent fs ?n] =>
        destruct (FS_IsOmniFilePresent fs n) eqn:?; simpl
    end.

(** C3, amended: when a required file is absent, either check answers
    false. [CK5_IsPresent] changes no global variable. [CK6_IsPresent]
    changes none when a user-provided file is absent; when these are all
    there, it has assigned [ck6_episode], from the size of the graphics
    file, before it looks for the engine-provided files, and that is the
    only variable it changes. *)
Theorem presence_check_missing ep fs g :
  keenMissing fs (keenFiles ep) ∨ omniMissing fs (omniFiles ep) →
  (IsPresent ep fs g).1 = false
  ∧ other_globals (IsPresent ep fs g).2 = other_globals g
  ∧ (ep = EP_CK5 ∨ keenMissing fs (keenFiles ep) → (IsPresent ep fs g).2 = g)
  ∧ (ep = EP_CK6 → ¬ keenMissing fs (keenFiles ep) →
     (IsPresent ep fs g).2 = set_ck6_episode (ck6_version fs) g).
Proof.
  intros Hmiss. destruct ep; simpl.
  - unfold CK5_IsPresent. presence_tests fs;
      try (split_and!; [done | done | done | done]).
    exfalso. destruct Hmiss as [H|H]; absent_file H.
  - unfold CK6_IsPresent.
    destruct (FS_IsKeenFilePresent fs "EGAGRAPH.CK6") eqn:H1; simpl;
      [destruct (FS_IsKeenFilePresent fs "GAMEMAPS.CK6") eqn:H2; simpl;
       [destruct (FS_IsKeenFilePresent fs "AUDIO.CK6") eqn:H3; simpl|]|].
    + assert (¬ keenMissing fs ck6_keenFiles) as Hkeen by (intros H; absent_file H).
      replace (if FS_GetFileSize (FS_OpenKeenFile fs "EGAGRAPH.CK6") =? 464662
               then set_ck6_episode ck6v15e_episode g
               else set_ck6_episode ck6v14e_episode g)
        with (set_ck6_episode (ck6_version fs) g)
        by (unfold ck6_version; by case_match).
      presence_tests fs;
        try (split_and!; [done | done | by intros [?|?] | done]).
      exfalso. destruct Hmiss as [H|H]; [done | absent_file H].
    + split_and!; try done. intros _ []. exists "AUDIO.CK6"%string.
      split; [|done]. do 2 apply list_elem_of_further. apply list_elem_of_here.
    + split_and!; try done. intros _ []. exists "GAMEMAPS.CK6"%string.
      split; [|done]. apply list_elem_of_further, list_elem_of_here.
    + split_and!; try done. intros _ []. exists "EGAGRAPH.CK6"%string.
      split; [|done]. apply list_elem_of_here.
Qed.

Lemma presence_check_missing_witness :
  (IsPresent EP_CK6 fs_no_headers globals0).1 = false
  ∧ other_globals (IsPresent EP_CK6 fs_no_headers globals0).2 = other_globals globals0.
Proof.
  refine (let H := presence_check_missing EP_CK6 fs_no_headers globals0
                     (or_intror fs_no_headers_missing) in
          conj (proj1 H) (proj1 (proj2 H))).
Defined.

End PresentFacts.

(** ** The switch of the info-layer scan *)

Module ScanFacts.
Import Game Episodes Samples.

Lemma cascade_witness_data : (4, 5, 6) ∈ cascades EP_CK5.
Proof. apply list_elem_of_here. Qed.

(** C1, as stated, does not hold: at difficulty Normal a tile with the
    Hard-gated code 6 is skipped, while the next eligible code below it,
    the Normal-gated 5, spawns a Sparky. *)
Lemma hard_code_falls_through_fails :
  ¬ (∀ ep sp x y w b n h,
       (b, n, h) ∈ cascades ep →
       diff_lt (difficulty (gameState w)) D_Hard = true →
       ScanTile ep sp x y h w
       = ScanTile ep sp x y
           (if diff_lt (difficulty (gameState w)) D_Normal then b else n) w).
Proof.
  intros H.
  specialize (H EP_CK5 demoSpawners 0 0 (demoWorld D_Normal 1) 4 5 6
                cascade_witness_data eq_refl).
  apply (f_equal calls) in H. vm_compute in H. discriminate H.
Qed.

(** C1, amended: for every cascade of either episode, a tile with the
    Hard-gated code does nothing at all below Hard, and at Hard it does
    what the base code does, which is one call of the spawner and no
    other call. *)
Theorem hard_code_gate ep sp x y w b n h :
  (b, n, h) ∈ cascades ep →
  if diff_lt (difficulty (gameState w)) D_Hard
  then ScanTile ep sp x y h w = w
  else ScanTile ep sp x y h w = ScanTile ep sp x y b w
       ∧ ∃ fn args, calls (ScanTile ep sp x y h w) = calls w ++ [Spawn fn args].
Proof.
  intros Hin. destruct w as [[d ls ns cl fr ld] l5 l6 r lvl cs].
  destruct ep; cbn [cascades] in Hin;
    repeat (apply elem_of_cons in Hin as [Hin|Hin];
            [injection Hin as -> -> ->;
             destruct d; cbn; try reflexivity;
             (split; [reflexivity | eexists _, _; reflexivity]) |]);
    by apply elem_of_nil in Hin.
Qed.

Lemma hard_code_gate_witness :
  ScanTile EP_CK5 demoSpawners 1 0 6 (demoWorld D_Normal 1) = demoWorld D_Normal 1.
Proof.
  exact (hard_code_gate EP_CK5 demoSpawners 1 0 (demoWorld D_Normal 1) 4 5 6
           cascade_witness_data).
Defined.

(** C5: in the Keen 5 scan a tile with info value 41 marks the fuse lump
    as needed; on level 12 it sets the fuse counter to 4, whatever it was,
    and calls the QED spawner; on any other level it adds 1 to the counter
    and calls no spawner. *)
Theorem fuse_tile sp x y w :
  let w' := CK5.CK5_ScanTile sp x y 41 w in
  ck5_lumpsNeeded w' = <[CK5.Lump_QEDFuse := true]> (ck5_lumpsNeeded w)
  ∧ if currentLevel (gameState w) =? 12
    then fusesRemaining (gameState w') = 4
         ∧ calls w' = calls w ++ [Spawn "CK5_QEDSpawn" [I x; I y]]
         ∧ registry w' = sp "CK5_QEDSpawn" [I x; I y] (registry w)
    else fusesRemaining (gameState w') = fusesRemaining (gameState w) + 1
         ∧ calls w' = calls w
         ∧ registry w' = registry w.
Proof.
  destruct w as [[d ls ns cl fr ld] l5 l6 r lvl cs]. cbn.
  destruct (cl =? 12); cbn; auto.
Qed.

Ltac positive_leaves p :=
  do 8 (try (destruct p as [p|p|])).

Ltac tile_effect :=
  repeat first
    [ apply marked_none
    | apply marked_more; [reflexivity|] ].

Lemma ScanTile_effect ep sp x y v w :
  let w' := ScanTile ep sp x y v w in
  level w' = level w
  ∧ marked ep (lumpsNeeded ep w) (lumpsNeeded ep w').
Proof.
  destruct w as [[d ls ns cl fr ld] l5 l6 r lvl cs].
  destruct ep, v as [|p|p]; try (cbn; split_and!; tile_effect; done);
    positive_leaves p; cbn;
    repeat case_match; cbn; split_and!; try reflexivity; tile_effect.
Qed.

Lemma marked_trans ep l1 l2 l3 : marked ep l1 l2 → marked ep l2 l3 → marked ep l1 l3.
Proof. intros H12 H23. induction H23; [done | by constructor]. Qed.

(** Loop invariants for [for_count]. *)
Lemma for_count_inv {St} (P : St → Prop) n i (body : Z → St → option St) s s' :
  (∀ j s1 s2, P s1 → body j s1 = Some s2 → P s2) →
  P s → for_count n i body s = Some s' → P s'.
Proof.
  intros Hstep. revert i s. induction n as [|n IH]; intros i s Hs Hrun; simpl in Hrun.
  - by injection Hrun as <-.
  - destruct (body i s) as [s1|] eqn:Hb; [|done]. simpl in Hrun. eauto.
Qed.

Lemma for_count_total {St} (P : St → Prop) n i (body : Z → St → option St) s :
  (∀ j s1, i ≤ j < i + Z.of_nat n → P s1 → ∃ s2, body j s1 = Some s2 ∧ P s2) →
  P s → ∃ s', for_count n i body s = Some s' ∧ P s'.
Proof.
  revert i s. induction n as [|n IH]; intros i s Hstep Hs; simpl.
  - eauto.
  - destruct (Hstep i s) as (s1 & -> & Hs1); [lia | done |]. simpl.
    apply IH; [|done]. intros j s2 Hj. apply Hstep. lia.
Qed.

Lemma tilesEffect_refl ep w : tilesEffect ep w w.
Proof. split; [done | constructor]. Qed.

Lemma tilesEffect_trans ep w1 w2 w3 :
  tilesEffect ep w1 w2 → tilesEffect ep w2 w3 → tilesEffect ep w1 w3.
Proof.
  intros (Hl & Hm) (Hl' & Hm'). split.
  - congruence.
  - by eapply marked_trans.
Qed.

Lemma tile_loop_effect ep sp (w w' : World) mapW mapH :
  for_range 0 mapH (λ y,
    for_range 0 mapW (λ x w1,
      infoValue ← CA_TileAtPos (level w1) x y 2;
      Some (ScanTile ep sp x y infoValue w1))) w = Some w' →
  tilesEffect ep w w'.
Proof.
  unfold for_range.
  apply (for_count_inv (tilesEffect ep w)); [|apply tilesEffect_refl].
  intros y w1 w2 H1.
  apply (for_count_inv (tilesEffect ep w)); [|done].
  intros x w3 w4 H3 Hb.
  destruct (CA_TileAtPos (level w3) x y 2) as [v|]; [|done].
  injection Hb as <-. eapply tilesEffect_trans; [done|].
  apply ScanTile_effect.
Qed.

Lemma setFuses_effect n w : tilesEffect EP_CK5 w (CK5.setFuses n w).
Proof. split; [done | constructor]. Qed.

Lemma ScanTiles_effect ep sp w w' :
  ScanTiles ep sp w = Some w' → tilesEffect ep w w'.
Proof.
  destruct ep; simpl; intros H.
  - eapply tilesEffect_trans; [apply (setFuses_effect 0)|].
    by apply (tile_loop_effect EP_CK5) in H.
  - by apply (tile_loop_effect EP_CK6) in H.
Qed.

Lemma mapTeleporters_effect w w' :
  CK5.mapTeleporters w = Some w' →
  gameState w' = gameState w ∧ registry w' = registry w ∧ calls w' = calls w
  ∧ ck5_lumpsNeeded w' = ck5_lumpsNeeded w.
Proof.
  unfold CK5.mapTeleporters. intros H.
  repeat (simplify_option_eq; try case_match); by destruct w.
Qed.

(** The scan in its parts: the tile loop, then the pass over the live
    objects, then the chunk requests. *)
Lemma ScanInfoLayer_parts ep sp w w' :
  ScanInfoLayer ep sp w = Some w' →
  ∃ w1, ScanTiles ep sp w = Some w1
    ∧ registry w' = deactivateAll (registry w1)
    ∧ calls w' = calls w1 ++ (chunkRequest ep <$> batch ep (lumpsNeeded ep w1))
    ∧ lumpsNeeded ep w' = lumpsNeeded ep w1.
Proof.
  destruct ep; simpl.
  - unfold CK5.CK5_ScanInfoLayer. intros H.
    destruct (CK5.CK5_ScanTiles sp (CK5.setFuses 0 w)) as [w1|] eqn:H1; [|done].
    simpl in H. exists w1. split; [done|].
    case_match.
    + apply mapTeleporters_effect in H as (_ & -> & -> & ->). by destruct w1.
    + injection H as <-. by destruct w1.
  - unfold CK6.CK6_ScanInfoLayer. intros H.
    destruct (CK6.CK6_ScanTiles sp w) as [w1|] eqn:H1; [|done].
    simpl in H. injection H as <-. exists w1. by destruct w1.
Qed.

(** The pass over the live objects. *)
Lemma deactivate_idemp o : deactivate (deactivate o) = deactivate o.
Proof. unfold deactivate. repeat case_decide; simpl in *; done. Qed.

Lemma deactivate_active o :
  active (deactivate o)
  = if decide (active o = OBJ_ALWAYS_ACTIVE) then OBJ_ALWAYS_ACTIVE else OBJ_INACTIVE.
Proof. unfold deactivate. repeat case_decide; simpl; congruence. Qed.

Lemma deactivate_always o : active o = OBJ_ALWAYS_ACTIVE → deactivate o = o.
Proof. unfold deactivate. intros ->. by case_decide. Qed.

Lemma deactivate_loop hs r :
  let r' := foldl (λ r' h, updObj h deactivate r') r hs in
  live r' = live r ∧ free r' = free r
  ∧ ∀ h, slots r' !! h
         = (if decide (h ∈ hs) then deactivate else id) <$> slots r !! h.
Proof.
  revert r. induction hs as [|a hs IH]; intros r; cbn [foldl].
  - split_and!; try done. intros h. rewrite decide_False by apply not_elem_of_nil.
    by destruct (slots r !! h).
  - destruct (IH (updObj a deactivate r)) as (Hl & Hf & Hs).
    split_and!; [by rewrite Hl | by rewrite Hf |].
    intros h. rewrite Hs. cbn [updObj slots]. rewrite list_lookup_alter.
    destruct (decide (h ∈ a :: hs)) as [Hin'|Hin'];
      destruct (decide (a = h)) as [->|Hne];
      destruct (decide (h ∈ hs)) as [Hin|Hin];
      destruct (slots r !! h) as [o|]; simpl; rewrite ?deactivate_idemp;
      try done; exfalso;
      first [ apply Hin', elem_of_cons; by auto
            | by apply elem_of_cons in Hin' as [?|?] ].
Qed.

Lemma deactivateAll_live r : live (deactivateAll r) = live r.
Proof. apply (deactivate_loop (live r) r). Qed.

Lemma deactivateAll_lookup r h :
  slots (deactivateAll r) !! h
  = (if decide (h ∈ live r) then deactivate else id) <$> slots r !! h.
Proof. apply (deactivate_loop (live r) r). Qed.

(** C7: when the scan of either episode returns, every object in the list
    of live objects that is not always active is inactive; an object that
    was always active when the tile loop ended is as the loop left it. *)
Theorem scan_deactivates ep sp w w' :
  ScanInfoLayer ep sp w = Some w' →
  (∀ h o, h ∈ live (registry w') → slots (registry w') !! h = Some o →
          active o ≠ OBJ_ALWAYS_ACTIVE → active o = OBJ_INACTIVE)
  ∧ ∃ w1, ScanTiles ep sp w = Some w1
      ∧ live (registry w') = live (registry w1)
      ∧ ∀ h o, slots (registry w1) !! h = Some o →
               active o = OBJ_ALWAYS_ACTIVE → slots (registry w') !! h = Some o.
Proof.
  intros (w1 & H1 & Hr & _)%ScanInfoLayer_parts. rewrite Hr. split.
  - intros h o. rewrite deactivateAll_live, deactivateAll_lookup.
    intros Hin. rewrite decide_True by done.
    destruct (slots (registry w1) !! h) as [o1|]; [|done]. simpl.
    intros [= <-]. rewrite deactivate_active. by case_decide.
  - exists w1. split_and!; [done | apply deactivateAll_live |].
    intros h o Ho Ha. rewrite deactivateAll_lookup, Ho. simpl.
    case_decide; simpl; [|done]. by rewrite deactivate_always.
Qed.

Lemma scan_deactivates_witness :
  ∃ w', ScanInfoLayer EP_CK5 demoSpawners (demoWorld D_Hard 1) = Some w'
    ∧ (active <$> slots (registry w'))
      = [OBJ_INACTIVE; OBJ_INACTIVE; OBJ_INACTIVE; OBJ_ALWAYS_ACTIVE; OBJ_INACTIVE;
         OBJ_INACTIVE; OBJ_INACTIVE; OBJ_INACTIVE]
    ∧ ∀ h o, h ∈ live (registry w') → slots (registry w') !! h = Some o →
             active o ≠ OBJ_ALWAYS_ACTIVE → active o = OBJ_INACTIVE.
Proof.
  eexists. split; [vm_compute; reflexivity|]. split; [vm_compute; reflexivity|].
  apply (scan_deactivates EP_CK5 demoSpawners (demoWorld D_Hard 1)).
  vm_compute; reflexivity.
Defined.

(** The scan returns when the info plane has a tile for every position of
    the map (and, for Keen 5, the level is not the world map, whose
    elevator doors are at fixed positions of a larger map). *)
Lemma tile_loop_returns ep sp (w : World) :
  infoPlaneFits (level w) →
  ∃ w', for_range 0 (mapHeight (level w)) (λ y,
          for_range 0 (mapWidth (level w)) (λ x w1,
            infoValue ← CA_TileAtPos (level w1) x y 2;
            Some (ScanTile ep sp x y infoValue w1))) w = Some w'.
Proof.
  intros (HW & HH & p & Hp & Hlen). unfold for_range.
  set (W := mapWidth (level w)) in *. set (H := mapHeight (level w)) in *.
  destruct (for_count_total (λ w1, level w1 = level w) (Z.to_nat (H - 0)) 0
              (λ y, for_count (Z.to_nat (W - 0)) 0 (λ x w1,
                 infoValue ← CA_TileAtPos (level w1) x y 2;
                 Some (ScanTile ep sp x y infoValue w1))) w) as (w' & Hw' & _);
    [|done|by exists w'].
  intros y w1 Hy Hl1.
  apply (for_count_total (λ w1, level w1 = level w)); [|done].
  intros x w2 Hx Hl2.
  assert (is_Some (CA_TileAtPos (level w2) x y 2)) as [v Hv].
  { unfold CA_TileAtPos, CA_TilePtrAtPos, readTile. rewrite Hl2. fold W.
    rewrite (proj2 (Z.ltb_ge _ _)) by nia. rewrite Hp. simpl.
    apply lookup_lt_is_Some. nia. }
  rewrite Hv. simpl. eexists. split; [done|].
  rewrite <- Hl2. apply ScanTile_effect.
Qed.

Lemma scan_returns ep sp w :
  infoPlaneFits (level w) →
  (ep = EP_CK5 → currentLevel (gameState w) ≠ 0) →
  is_Some (ScanInfoLayer ep sp w).
Proof.
  intros Hfit Hlvl. destruct ep; simpl.
  - unfold CK5.CK5_ScanInfoLayer, CK5.CK5_ScanTiles.
    destruct (tile_loop_returns EP_CK5 sp (CK5.setFuses 0 w)) as (w1 & H1); [done|].
    simpl in H1. change (level (CK5.setFuses 0 w)) with (level w).
    rewrite H1. simpl.
    assert (currentLevel (gameState w1) = currentLevel (gameState w)) as Hcl.
    { revert H1. unfold for_range.
      apply (for_count_inv (λ w1, currentLevel (gameState w1) = currentLevel (gameState w)));
        [|done].
      intros y w2 w3 H2.
      apply (for_count_inv (λ w1, currentLevel (gameState w1) = currentLevel (gameState w)));
        [|done].
      intros x w4 w5 H4 Hb.
      destruct (CA_TileAtPos (level w4) x y 2) as [v|]; [|done].
      injection Hb as <-. rewrite <- H4. clear.
      destruct w4 as [[d ls ns cl fr ld] l5 l6 r lvl cs].
      destruct v as [|p|p]; try done; positive_leaves p; cbn;
        repeat case_match; done. }
    destruct w1 as [gs1 ? ? ? ? ?]. simpl in *. rewrite Hcl.
    rewrite (proj2 (Z.eqb_neq _ _)) by auto. done.
  - unfold CK6.CK6_ScanInfoLayer, CK6.CK6_ScanTiles.
    destruct (tile_loop_returns EP_CK6 sp w) as (w1 & H1); [done|].
    simpl in H1. rewrite H1. done.
Qed.

(** ** The lump tables and the final pass *)

Lemma elem_of_lumpChunks starts ends k j :
  j ∈ lumpChunks starts ends k
  ↔ ∃ s e, starts !! k = Some s ∧ ends !! k = Some e ∧ s ≤ j ≤ e.
Proof.
  unfold lumpChunks.
  destruct (starts !! k) as [s|], (ends !! k) as [e|];
    rewrite ?elem_of_seqZ, ?elem_of_nil;
    (split; [|by intros (? & ? & [= <-] & [= <-] & ?); lia]); try done.
  intros ?. exists s, e. split_and!; try done; lia.
Qed.

Lemma elem_of_batchRequests n needed starts ends j :
  j ∈ batchRequests n needed starts ends
  ↔ ∃ k, (k < n)%nat ∧ needed !! k = Some true ∧ j ∈ lumpChunks starts ends k.
Proof.
  unfold batchRequests. rewrite list_elem_of_bind. split.
  - intros (k & Hj & Hk). apply elem_of_seq in Hk. exists k.
    unfold lumpRequests in Hj.
    destruct (needed !! k) as [[]|]; try by apply elem_of_nil in Hj.
    split_and!; [lia | done | done].
  - intros (k & Hk & Hn & Hj). exists k. split; [|apply elem_of_seq; lia].
    unfold lumpRequests. by rewrite Hn.
Qed.

Lemma emptyRange_hasChunks ep i : emptyRange ep i → hasChunks ep i = false.
Proof. intros [Hs He]. unfold hasChunks. by rewrite Hs, He. Qed.

Lemma marked_lookup ep l l' k :
  marked ep l l' → hasChunks ep k = false → l' !! k = l !! k.
Proof.
  intros Hm Hk. induction Hm as [|l' i Hi _ IH]; [done|].
  rewrite list_lookup_insert_ne; [done|]. congruence.
Qed.

Lemma chunk0_range ep k :
  0 ∈ lumpChunks (lumpStarts ep) (lumpEnds ep) k → emptyRange ep k.
Proof.
  rewrite elem_of_lumpChunks. intros (s & e & Hs & He & Hse).
  assert (k < maxLumps ep)%nat as Hk.
  { apply lookup_lt_Some in Hs. by destruct ep. }
  assert (chunk0Free ep = true) as Hfree by (by destruct ep; vm_compute).
  unfold chunk0Free in Hfree. rewrite forallb_forall in Hfree.
  specialize (Hfree k). unfold rangeOf in Hfree. rewrite Hs, He in Hfree.
  simpl in Hfree. unfold emptyRange. rewrite Hs, He.
  assert (s = 0 ∧ e = 0) as [-> ->]; [|done].
  assert (In k (seq 0 (maxLumps ep))) as Hin by (apply in_seq; lia).
  apply Hfree in Hin. lia.
Qed.

Lemma marked_keeps ep l l' :
  marked ep l l' →
  length l' = length l ∧ ∀ i, l !! i = Some true → l' !! i = Some true.
Proof.
  induction 1 as [|l' k _ _ [IHlen IH]]; [done|]. split.
  - by rewrite length_insert.
  - intros i Hi. destruct (decide (k = i)) as [->|Hne].
    + rewrite list_lookup_insert_eq; [done|]. apply IH in Hi.
      by apply lookup_lt_Some in Hi.
    + rewrite list_lookup_insert_ne by done. by apply IH.
Qed.

Lemma ScanTile_gameState ep sp x y v w :
  gameState (ScanTile ep sp x y v w)
  = match ep with
    | EP_CK5 =>
        if v =? 41
        then set_fusesRemaining
               (if currentLevel (gameState w) =? 12 then 4
                else fusesRemaining (gameState w) + 1) (gameState w)
        else gameState w
    | EP_CK6 => gameState w
    end.
Proof.
  destruct w as [[d ls ns cl fr ld] l5 l6 r lvl cs].
  destruct ep, v as [|p|p]; try reflexivity;
    positive_leaves p; cbn; repeat case_match; reflexivity.
Qed.

Lemma for_count_ix {St} (P : Z → St → Prop) n i (body : Z → St → option St) s s' :
  (∀ j s1 s2, i ≤ j < i + Z.of_nat n → P j s1 → body j s1 = Some s2 → P (j + 1) s2) →
  P i s → for_count n i body s = Some s' → P (i + Z.of_nat n) s'.
Proof.
  revert i s. induction n as [|n IH]; intros i s Hstep Hs Hrun; simpl in Hrun.
  - injection Hrun as <-. by rewrite Z.add_0_r.
  - destruct (body i s) as [s1|] eqn:Hb; [|done]. simpl in Hrun.
    replace (i + Z.of_nat (S n)) with (i + 1 + Z.of_nat n) by lia.
    apply (IH (i + 1) s1); [|apply (Hstep i s); [lia|done..]|done].
    intros j s2 s3 Hj. apply Hstep. lia.
Qed.

(** The tile loop of either scan, tile by tile: an invariant that holds of
    the tiles read so far. *)
Lemma tile_loop_ix ep sp (Inv : nat → World → Prop) (w w' : World) :
  let p := default [] (planes (level w) !! 2%nat) in
  (∀ k v x y w1, p !! k = Some v → Inv k w1 → level w1 = level w →
     Inv (S k) (ScanTile ep sp x y v w1)) →
  Inv 0%nat w →
  for_range 0 (mapHeight (level w)) (λ y,
    for_range 0 (mapWidth (level w)) (λ x w1,
      infoValue ← CA_TileAtPos (level w1) x y 2;
      Some (ScanTile ep sp x y infoValue w1))) w = Some w' →
  Inv (Z.to_nat (mapWidth (level w)) * Z.to_nat (mapHeight (level w)))%nat w'.
Proof.
  intros p Hstep H0 Hrun. unfold for_range in Hrun.
  set (W := mapWidth (level w)) in *. set (H := mapHeight (level w)) in *.
  rewrite !Z.sub_0_r in Hrun.
  pose (P := λ (y : Z) (w1 : World),
          level w1 = level w ∧ Inv (Z.to_nat y * Z.to_nat W)%nat w1).
  apply (for_count_ix P) in Hrun.
  - destruct Hrun as [_ Hrun]. rewrite Z.add_0_l, Nat2Z.id in Hrun.
    by rewrite Nat.mul_comm.
  - intros y w1 w2 Hy [Hl1 H1] Hrow.
    pose (Q := λ (x : Z) (w3 : World),
            level w3 = level w ∧ Inv (Z.to_nat y * Z.to_nat W + Z.to_nat x)%nat w3).
    apply (for_count_ix Q) in Hrow.
    + destruct Hrow as [Hl2 H2]. split; [done|].
      rewrite Z.add_0_l, Nat2Z.id in H2.
      by replace (Z.to_nat (y + 1) * Z.to_nat W)%nat
        with (Z.to_nat y * Z.to_nat W + Z.to_nat W)%nat by lia.
    + intros x w3 w4 Hx [Hl3 H3] Hb.
      destruct (CA_TileAtPos (level w3) x y 2) as [v|] eqn:Hv; [|done].
      injection Hb as <-. split.
      { rewrite <- Hl3. apply ScanTile_effect. }
      replace (Z.to_nat y * Z.to_nat W + Z.to_nat (x + 1))%nat
        with (S (Z.to_nat y * Z.to_nat W + Z.to_nat x))%nat by lia.
      apply Hstep; [|done..].
      unfold CA_TileAtPos, CA_TilePtrAtPos, readTile in Hv. rewrite Hl3 in Hv.
      fold W in Hv. rewrite (proj2 (Z.ltb_ge _ _)) in Hv by nia. unfold p.
      destruct (planes (level w) !! 2%nat) as [p'|]; [|done]. simpl in *.
      rewrite <- Hv. f_equal. nia.
    + split; [done|]. by rewrite Nat.add_0_r.
  - split; [done|]. done.
Qed.

(** A scan keeps the flags of the categories without chunks as they
    were: no case of either switch assigns to one of them. *)
Lemma scan_keeps_empty ep sp w w' k :
  emptyRange ep k → ScanInfoLayer ep sp w = Some w' →
  lumpsNeeded ep w' !! k = lumpsNeeded ep w !! k.
Proof.
  intros Hk (w1 & H1 & _ & _ & ->)%ScanInfoLayer_parts.
  apply ScanTiles_effect in H1 as (_ & Hm).
  apply (marked_lookup _ _ _ _ Hm). by apply emptyRange_hasChunks.
Qed.

Lemma reachable_clear ep l k :
  reachableFlags ep l → emptyRange ep k → l !! k ≠ Some true.
Proof.
  intros Hl Hk. induction Hl as [|sp w w' _ IH Hrun].
  - intros [? _]%lookup_replicate. done.
  - by rewrite (scan_keeps_empty _ _ _ _ _ Hk Hrun).
Qed.

(** C4: a lump category whose range is (0, 0) is never requested. Its
    needed flag is clear when the program starts and no case of either
    scan sets it, so in every state that the program reaches the flag is
    clear after the scan as it was before; the final pass, which is the
    end of the call log of the scan, holds no request for the category,
    and chunk 0 is not among its requests. *)
Theorem empty_range_never_requested ep sp w w' i :
  reachableFlags ep (lumpsNeeded ep w) →
  emptyRange ep i →
  ScanInfoLayer ep sp w = Some w' →
  lumpsNeeded ep w !! i ≠ Some true
  ∧ lumpsNeeded ep w' !! i ≠ Some true
  ∧ ∃ w1, ScanTiles ep sp w = Some w1
      ∧ calls w' = calls w1 ++ (chunkRequest ep <$> batch ep (lumpsNeeded ep w1))
      ∧ lumpRequests (lumpsNeeded ep w1) (lumpStarts ep) (lumpEnds ep) i = []
      ∧ 0 ∉ batch ep (lumpsNeeded ep w1).
Proof.
  intros Hreach Hi Hrun.
  pose proof (flags_after_scan ep sp w w' Hreach Hrun) as Hreach'.
  split; [by apply (reachable_clear ep)|].
  split; [by apply (reachable_clear ep)|].
  apply ScanInfoLayer_parts in Hrun as (w1 & H1 & _ & Hcalls & Hflags).
  rewrite Hflags in Hreach'.
  exists w1. split_and!; [done..| |].
  - unfold lumpRequests. pose proof (reachable_clear ep _ i Hreach' Hi) as Hclear.
    by destruct (lumpsNeeded ep w1 !! i) as [[]|].
  - intros (k & _ & Hk & H0)%elem_of_batchRequests.
    apply chunk0_range in H0. by apply (reachable_clear ep _ k Hreach').
Qed.

Lemma empty_range_never_requested_witness :
  ∃ w', ScanInfoLayer EP_CK6 demoSpawners (demoWorld D_Hard 1) = Some w'
    ∧ lumpsNeeded EP_CK6 w' !! CK6.Lump_12 ≠ Some true
    ∧ ∃ w1, calls w' = calls w1
              ++ (chunkRequest EP_CK6 <$> batch EP_CK6 (lumpsNeeded EP_CK6 w1))
        ∧ 0 ∉ batch EP_CK6 (lumpsNeeded EP_CK6 w1).
Proof.
  destruct (ScanInfoLayer EP_CK6 demoSpawners (demoWorld D_Hard 1)) as [w'|] eqn:Hrun;
    [|vm_compute in Hrun; discriminate Hrun].
  exists w'. split; [reflexivity|].
  destruct (empty_range_never_requested EP_CK6 demoSpawners (demoWorld D_Hard 1) w'
              CK6.Lump_12 (flags_at_start EP_CK6) (conj eq_refl eq_refl) Hrun)
    as (_ & Hclear & w1 & _ & Hcalls & _ & H0).
  split; [exact Hclear|]. by exists w1.
Defined.

Lemma rangesApart_spec ep i k j :
  i ≠ k →
  ep = EP_CK5 ∨ hasChunks ep i = true →
  j ∈ lumpChunks (lumpStarts ep) (lumpEnds ep) i →
  j ∉ lumpChunks (lumpStarts ep) (lumpEnds ep) k.
Proof.
  intros Hne Hep. rewrite !elem_of_lumpChunks.
  intros (s & e & Hs & He & Hse) (s' & e' & Hs' & He' & Hse').
  assert (i < maxLumps ep ∧ k < maxLumps ep)%nat as [Hi Hk].
  { apply lookup_lt_Some in Hs, Hs'. by destruct ep. }
  assert (rangesApart ep = true) as Hap by (by destruct ep; vm_compute).
  unfold rangesApart in Hap. rewrite forallb_forall in Hap.
  specialize (Hap i). rewrite forallb_forall in Hap.
  assert (In i (seq 0 (maxLumps ep))) as Hini by (apply in_seq; lia).
  assert (In k (seq 0 (maxLumps ep))) as Hink by (apply in_seq; lia).
  specialize (Hap Hini k Hink).
  unfold apart, rangeOf in Hap. rewrite Hs, He, Hs', He' in Hap. simpl in Hap.
  apply orb_prop in Hap as [Hap|Hap]; [apply orb_prop in Hap as [Hap|Hap]|].
  - apply Nat.eqb_eq in Hap. done.
  - lia.
  - destruct Hep as [->|Hch]; [done|]. destruct ep; [done|].
    unfold hasChunks in Hch. rewrite Hs, He in Hch.
    apply negb_true_iff in Hch. congruence.
Qed.

Lemma requestCount_lumpChunks starts ends i j :
  j ∈ lumpChunks starts ends i → requestCount j (lumpChunks starts ends i) = 1%nat.
Proof.
  intros Hj. unfold requestCount. apply NoDup_count_occ'.
  - apply NoDup_ListNoDup. unfold lumpChunks.
    destruct (starts !! i), (ends !! i); try apply NoDup_nil_2.
    apply NoDup_seqZ.
  - by apply list_elem_of_In.
Qed.

Lemma requestCount_absent j l : j ∉ l → requestCount j l = 0%nat.
Proof. intros Hj. apply count_occ_not_In. by rewrite <- list_elem_of_In. Qed.

Lemma requestCount_bind j i (f : nat → list Z) (ks : list nat) :
  NoDup ks → i ∈ ks →
  requestCount j (f i) = 1%nat →
  (∀ k, k ∈ ks → k ≠ i → j ∉ f k) →
  requestCount j (ks ≫= f) = 1%nat.
Proof.
  intros Hnd Hi H1 Hothers. unfold requestCount in *.
  induction ks as [|k ks IH]; [by apply elem_of_nil in Hi|].
  apply NoDup_cons in Hnd as [Hk Hnd]. rewrite bind_cons, count_occ_app.
  apply elem_of_cons in Hi as [<-|Hi].
  - rewrite H1. apply eq_S, count_occ_not_In. rewrite <- list_elem_of_In.
    intros (k & Hj & Hkin)%list_elem_of_bind.
    apply (Hothers k); [by apply list_elem_of_further | by intros -> | done].
  - rewrite IH; try done.
    + rewrite (proj1 (count_occ_not_In _ _ _)); [done|].
      rewrite <- list_elem_of_In.
      apply Hothers; [apply list_elem_of_here | by intros ->].
    + intros k' Hk'. apply Hothers. by apply list_elem_of_further.
Qed.


(** The final pass requests every chunk of a flagged category once. *)
Lemma flagged_requested_once ep needed i j :
  needed !! i = Some true →
  ep = EP_CK5 ∨ hasChunks ep i = true →
  j ∈ lumpChunks (lumpStarts ep) (lumpEnds ep) i →
  requestCount j (batch ep needed) = 1%nat.
Proof.
  intros Hset Hep Hj. unfold batch, batchRequests.
  assert (i < maxLumps ep)%nat as Hi.
  { apply elem_of_lumpChunks in Hj as (s0 & _ & Hs & _).
    apply lookup_lt_Some in Hs. by destruct ep. }
  apply (requestCount_bind j i).
  - apply NoDup_seq.
  - apply elem_of_seq. lia.
  - unfold lumpRequests. rewrite Hset. by apply requestCount_lumpChunks.
  - intros k _ Hne. unfold lumpRequests.
    destruct (needed !! k) as [[]|]; try apply not_elem_of_nil.
    by apply (rangesApart_spec ep i).
Qed.

Lemma insert_true_lookup (l : list bool) k i :
  <[k := true]> l !! i = Some true ↔ (k = i ∧ (i < length l)%nat) ∨ l !! i = Some true.
Proof.
  destruct (decide (k = i)) as [->|Hne].
  - destruct (decide (i < length l)%nat) as [Hlt|Hge].
    + rewrite list_lookup_insert_eq by done. naive_solver.
    + rewrite (lookup_ge_None_2 (<[i := true]> l) i) by (rewrite length_insert; lia).
      rewrite (lookup_ge_None_2 l i) by lia. naive_solver lia.
  - rewrite list_lookup_insert_ne by done. naive_solver.
Qed.

Ltac flag_case :=
  let Hc := fresh "Hc" in let Hs := fresh "Hs" in let Hlt := fresh "Hlt" in
  intros Hc Hs Hlt;
  repeat (destruct Hs as [[<- _]|Hs]; [tauto|]);
  congruence.

(** Which flags the case of an info value sets depends on the difficulty
    and the number of shots only: a case that sets a clear flag in one
    world sets that flag in any other with the same two. *)
Lemma ScanTile_sets ep sp sp' x0 y0 x y v w0 w1 i :
  difficulty (gameState w0) = difficulty (gameState w1) →
  numShots (gameState w0) = numShots (gameState w1) →
  lumpsNeeded ep w0 !! i = Some false →
  lumpsNeeded ep (ScanTile ep sp x0 y0 v w0) !! i = Some true →
  (i < length (lumpsNeeded ep w1))%nat →
  lumpsNeeded ep (ScanTile ep sp' x y v w1) !! i = Some true.
Proof.
  destruct w0 as [[d ls ns cl fr ld] l5 l6 r lvl cs].
  destruct w1 as [[d' ls' ns' cl' fr' ld'] l5' l6' r' lvl' cs'].
  cbn [gameState difficulty numShots]. intros <- <-.
  destruct ep, d, v as [|p|p]; try (cbn; congruence);
    positive_leaves p; cbn; try congruence;
    repeat case_match; cbn;
    rewrite ?insert_true_lookup, ?length_insert; flag_case.
Qed.

(** C6: a needed flag that is set during a scan, by one tile or by many,
    has every chunk of its category requested exactly once by the final
    pass. Let a tile that the scan reads have an info value whose case,
    in the game state of the scan, sets the clear flag of category [i].
    Setting the flag is an assignment of [true], so setting it again
    changes nothing. And however many such tiles the level has and
    whatever the flags were before, the flag is set when the tile loop
    ends, and the final pass, which is the end of the call log of the
    scan, requests each chunk of the range of [i] exactly once. *)
Theorem lump_requested_once ep sp w w' k v x0 y0 w0 i j :
  ScanInfoLayer ep sp w = Some w' →
  length (lumpsNeeded ep w) = maxLumps ep →
  scannedTiles (level w) !! k = Some v →
  gameState w0 = gameState w →
  lumpsNeeded ep w0 !! i = Some false →
  lumpsNeeded ep (ScanTile ep sp x0 y0 v w0) !! i = Some true →
  j ∈ lumpChunks (lumpStarts ep) (lumpEnds ep) i →
  (∀ wa, lumpsNeeded ep (need ep i wa) = <[i := true]> (lumpsNeeded ep wa)
         ∧ need ep i (need ep i wa) = need ep i wa)
  ∧ ∃ w1, ScanTiles ep sp w = Some w1
      ∧ lumpsNeeded ep w1 !! i = Some true
      ∧ calls w' = calls w1 ++ (chunkRequest ep <$> batch ep (lumpsNeeded ep w1))
      ∧ requestCount j (batch ep (lumpsNeeded ep w1)) = 1%nat.
Proof.
  intros Hrun Hlen Hk Hgs Hclear Hsets Hj. split.
  { intros wa. split; [by destruct ep|].
    destruct ep, wa; unfold need, CK5.need, CK6.need; simpl;
      by rewrite list_insert_insert_eq. }
  assert (hasChunks ep i = true) as Hch.
  { destruct (hasChunks ep i) eqn:Hch; [done|].
    pose proof (ScanTile_effect ep sp x0 y0 v w0) as (_ & Hm).
    rewrite (marked_lookup _ _ _ _ Hm Hch) in Hsets. congruence. }
  apply ScanInfoLayer_parts in Hrun as (w1 & H1 & _ & Hcalls & _).
  exists w1. split; [done|].
  assert (lumpsNeeded ep w1 !! i = Some true) as Hset;
    [|split_and!; [done | done | apply (flagged_requested_once ep _ i); by try right]].
  assert (i < maxLumps ep)%nat as Hi.
  { apply elem_of_lumpChunks in Hj as (s0 & _ & Hs & _).
    apply lookup_lt_Some in Hs. by destruct ep. }
  apply lookup_take_Some in Hk as [Hv Hk].
  pose (Inv := λ (n : nat) (w2 : World),
          difficulty (gameState w2) = difficulty (gameState w)
          ∧ numShots (gameState w2) = numShots (gameState w)
          ∧ length (lumpsNeeded ep w2) = maxLumps ep
          ∧ ((k < n)%nat → lumpsNeeded ep w2 !! i = Some true)).
  assert (∀ ws, level ws = level w → Inv 0%nat ws →
            for_range 0 (mapHeight (level ws)) (λ y,
              for_range 0 (mapWidth (level ws)) (λ x w2,
                infoValue ← CA_TileAtPos (level w2) x y 2;
                Some (ScanTile ep sp x y infoValue w2))) ws = Some w1 →
            lumpsNeeded ep w1 !! i = Some true) as Hloop.
  { intros ws Hlvl H0 Hloop.
    apply (tile_loop_ix ep sp Inv) in Hloop; [| |done].
    - destruct Hloop as (_ & _ & _ & Hn). apply Hn. by rewrite Hlvl.
    - intros n v' x y w2 Hv' (Hd & Hns & Hl & Hn) _.
      pose proof (ScanTile_gameState ep sp x y v' w2) as Hg.
      pose proof (ScanTile_effect ep sp x y v' w2) as (_ & Hm).
      apply marked_keeps in Hm as [Hlen' Hkeep].
      split_and!.
      + rewrite Hg, <- Hd. destruct ep; [|done]. by case_match.
      + rewrite Hg, <- Hns. destruct ep; [|done]. by case_match.
      + by rewrite Hlen', Hl.
      + intros Hlt. destruct (decide (k < n)%nat) as [Hkn|Hkn].
        * apply Hkeep. by apply Hn.
        * assert (n = k) as -> by lia. rewrite Hlvl, Hv in Hv'.
          injection Hv' as <-.
          apply (ScanTile_sets ep sp sp x0 y0 x y v w0 w2); try done.
          -- by rewrite Hgs, Hd.
          -- by rewrite Hgs, Hns.
          -- lia. }
  destruct ep; simpl in H1.
  - apply (Hloop (CK5.setFuses 0 w)); [done | | exact H1].
    split_and!; [done | done | done | lia].
  - apply (Hloop w); [done | | exact H1].
    split_and!; [done | done | done | lia].
Qed.

Lemma lump_requested_once_witness :
  (∃ w1, ScanTiles EP_CK5 demoSpawners (demoWorld D_Hard 1) = Some w1
     ∧ lumpsNeeded EP_CK5 w1 !! CK5.Lump_Sparky = Some true
     ∧ requestCount 0x16E (batch EP_CK5 (lumpsNeeded EP_CK5 w1)) = 1%nat)
  ∧ (∃ w1, ScanTiles EP_CK6 demoSpawners (demoWorld D_Hard 1) = Some w1
       ∧ lumpsNeeded EP_CK6 w1 !! CK6.Lump_Bloog = Some true
       ∧ requestCount 342 (batch EP_CK6 (lumpsNeeded EP_CK6 w1)) = 1%nat).
Proof.
  split.
  - destruct (ScanInfoLayer EP_CK5 demoSpawners (demoWorld D_Hard 1)) as [w'|] eqn:Hrun;
      [|vm_compute in Hrun; discriminate Hrun].
    destruct (lump_requested_once EP_CK5 demoSpawners (demoWorld D_Hard 1) w'
                1%nat 6 0 0 (demoWorld D_Hard 1) CK5.Lump_Sparky 0x16E Hrun)
      as (_ & w1 & H1 & Hset & _ & Hcount);
      [reflexivity | reflexivity | reflexivity | reflexivity | reflexivity
      | | by exists w1].
    apply elem_of_lumpChunks. exists 0x16E, 0x179. split_and!; try reflexivity; lia.
  - destruct (ScanInfoLayer EP_CK6 demoSpawners (demoWorld D_Hard 1)) as [w'|] eqn:Hrun;
      [|vm_compute in Hrun; discriminate Hrun].
    destruct (lump_requested_once EP_CK6 demoSpawners (demoWorld D_Hard 1) w'
                1%nat 6 0 0 (demoWorld D_Hard 1) CK6.Lump_Bloog 342 Hrun)
      as (_ & w1 & H1 & Hset & _ & Hcount);
      [reflexivity | reflexivity | reflexivity | reflexivity | reflexivity
      | | by exists w1].
    apply elem_of_lumpChunks. exists 342, 350. split_and!; try reflexivity; lia.
Defined.

End ScanFacts.

(** ** The galaxy explosion *)

Module GalaxyFacts.
Import Game CK5 Samples.

Lemma starStep_x s : xLeaves s = true → starStep s = (s, None).
Proof. unfold xLeaves, starStep. by intros ->. Qed.

Lemma starStep_velocity s : sdx (starStep s).1 = sdx s ∧ sdy (starStep s).1 = sdy s.
Proof. unfold starStep. by repeat case_match. Qed.

Lemma starStep_y s :
  yLeaves s = true → sy (starStep s).1 = sy s ∧ (starStep s).2 = None.
Proof. unfold yLeaves, starStep. simpl. intros ->. by case_match. Qed.

Lemma starAfter_S n s : starAfter (S n) s = (starStep (starAfter n s)).1.
Proof. reflexivity. Qed.

Lemma starAfter_x n s : xLeaves s = true → starAfter n s = s.
Proof.
  intros Hx. induction n as [|n IH]; [done|].
  by rewrite starAfter_S, IH, starStep_x.
Qed.

Lemma starAfter_y n s :
  yLeaves s = true → sy (starAfter n s) = sy s ∧ yLeaves (starAfter n s) = true.
Proof.
  intros Hy. induction n as [|n [IHy IHl]]; [done|].
  rewrite starAfter_S. destruct (starStep_y _ IHl) as [Hsy _].
  split; [congruence|].
  unfold yLeaves in *. rewrite Hsy, (proj2 (starStep_velocity _)). done.
Qed.

(** C2, as stated, does not hold: a star on the right border that moves
    right is not stepped, and nothing is plotted for it, as the [continue]
    comes before [VH_Plot] and the buffer was blanked at the start of the
    frame. *)
Lemma leaving_star_is_not_plotted :
  ¬ (∀ info i s info' screen,
       (i < NUM_STARS)%nat →
       getStar info i = Some s →
       xLeaves s || yLeaves s = true →
       CK_GalExplodeUpdateCoords info = Some (info', screen) →
       ∃ s', getStar info' i = Some s' ∧ (sx s' / 0x80, sy s' / 0x80) ∈ screen).
Proof.
  intros H.
  destruct (H borderGalaxy 0%nat borderStar borderGalaxy []) as (s' & _ & Hin).
  - vm_compute; lia.
  - reflexivity.
  - reflexivity.
  - vm_compute; reflexivity.
  - by apply elem_of_nil in Hin.
Qed.

(** C2, amended: for a star whose next x would pass 320 * 0x80, or whose
    next y would pass 200 * 0x80, that coordinate is not updated on that
    step nor on any later one (when it is x that leaves, y is not updated
    either), and no pixel is plotted for the star on that frame nor on
    any later one. *)
Theorem leaving_star_stops s n :
  xLeaves s || yLeaves s = true →
  (starStep (starAfter n s)).2 = None
  ∧ (if xLeaves s then (starStep (starAfter n s)).1 = s else True)
  ∧ (if yLeaves s then sy (starStep (starAfter n s)).1 = sy s else True).
Proof.
  intros Hleave. destruct (xLeaves s) eqn:Hx.
  - rewrite starAfter_x, starStep_x by done. simpl.
    split_and!; [done | done | by case_match].
  - simpl in Hleave. rewrite Hleave.
    destruct (starAfter_y n s Hleave) as [Hsy Hl].
    destruct (starStep_y _ Hl) as [Hsy' Hnone].
    split_and!; [done | done | congruence].
Qed.

Lemma leaving_star_stops_witness :
  (starStep (starAfter 3 borderStar)).2 = None
  ∧ (starStep (starAfter 3 borderStar)).1 = borderStar.
Proof.
  refine (let H := leaving_star_stops borderStar 3 eq_refl in
          conj (proj1 H) (proj1 (proj2 H))).
Defined.

(** The frame is the step of each star: the table afterwards holds the
    stepped stars, and the buffer the pixels of the stars that were
    plotted, from the last star to the first. *)
Lemma frameBody_None ks : foldl frameBody None ks = None.
Proof. by induction ks. Qed.

Lemma getStar_putStar_ne info i j s : i ≠ j → getStar (putStar info i s) j = getStar info j.
Proof. intros Hne. unfold getStar, putStar. simpl. by rewrite !list_lookup_insert_ne. Qed.

Lemma getStar_putStar info i s :
  getStar info i = Some s → getStar (putStar info i (starStep s).1) i = Some (starStep s).1.
Proof.
  unfold getStar, putStar. simpl. intros H.
  destruct (x info !! i) as [xi|] eqn:Hxi; [|done]. simpl in H.
  destruct (dx info !! i) as [dxi|] eqn:Hdxi; [|done]. simpl in H.
  destruct (y info !! i) as [yi|] eqn:Hyi; [|done]. simpl in H.
  destruct (dy info !! i) as [dyi|] eqn:Hdyi; [|done]. simpl in H.
  injection H as <-.
  rewrite !list_lookup_insert_eq by by eapply lookup_lt_Some. simpl.
  destruct (starStep_velocity {| sx := xi; sdx := dxi; sy := yi; sdy := dyi |}) as [Hvx Hvy].
  simpl in Hvx, Hvy.
  destruct (starStep {| sx := xi; sdx := dxi; sy := yi; sdy := dyi |}).1 as [a b c d].
  simpl in *. by subst.
Qed.

Lemma putStar_same info i s : getStar info i = Some s → putStar info i s = info.
Proof.
  unfold getStar, putStar. intros H.
  destruct (x info !! i) as [xi|] eqn:Hxi; [|done]. simpl in H.
  destruct (dx info !! i) as [dxi|] eqn:Hdxi; [|done]. simpl in H.
  destruct (y info !! i) as [yi|] eqn:Hyi; [|done]. simpl in H.
  destruct (dy info !! i) as [dyi|] eqn:Hdyi; [|done]. simpl in H.
  injection H as <-. simpl. rewrite !list_insert_id by done. by destruct info.
Qed.

(** A turn of the loop for a star whose four entries are there is the
    step of the star; a turn that returns for a star with an entry
    missing is one that left at the first [continue], and changes
    nothing. *)
Lemma frameBody_star info screen i s :
  getStar info i = Some s →
  frameBody (Some (info, screen)) i
  = Some (putStar info i (starStep s).1, screen ++ option_list (starStep s).2).
Proof.
  intros Hs. unfold frameBody. cbn [mbind option_bind]. rewrite Hs.
  pose proof Hs as Hs'. unfold getStar in Hs'.
  destruct (x info !! i) as [xi|]; [|done]. cbn [mbind option_bind] in *.
  destruct (dx info !! i) as [dxi|]; [|done]. cbn [mbind option_bind] in *.
  destruct (y info !! i) as [yi|]; [|done]. cbn [mbind option_bind] in *.
  destruct (dy info !! i) as [dyi|]; [|done]. cbn [mbind option_bind] in *.
  injection Hs' as <-.
  destruct (u16 (xi + dxi) >? 320 * 128) eqn:Hx.
  - rewrite starStep_x by done. cbn [fst snd option_list].
    by rewrite putStar_same, app_nil_r.
  - by destruct (starStep _).
Qed.

Lemma frameBody_blind info screen i r :
  getStar info i = None → frameBody (Some (info, screen)) i = Some r → r = (info, screen).
Proof.
  intros Hs. unfold frameBody. cbn [mbind option_bind]. rewrite Hs.
  destruct (x info !! i) as [xi|]; [|done]. cbn [mbind option_bind].
  destruct (dx info !! i) as [dxi|]; [|done]. cbn [mbind option_bind].
  destruct (u16 (xi + dxi) >? 320 * 128); [|done]. by intros [= <-].
Qed.

Lemma frame_loop ks info screen info' screen' :
  NoDup ks →
  foldl frameBody (Some (info, screen)) ks = Some (info', screen') →
  (∀ i s, i ∈ ks → getStar info i = Some s → getStar info' i = Some (starStep s).1)
  ∧ (∀ i, i ∉ ks → getStar info' i = getStar info i)
  ∧ screen' = screen ++ omap (λ i, s ← getStar info i; (starStep s).2) ks.
Proof.
  revert info screen. induction ks as [|i ks IH]; intros info screen Hnd Hrun.
  - simpl in Hrun. injection Hrun as <- <-. split_and!.
    + by intros i s ?%elem_of_nil.
    + done.
    + by rewrite app_nil_r.
  - apply NoDup_cons in Hnd as [Hi Hnd]. cbn [foldl] in Hrun.
    destruct (getStar info i) as [s|] eqn:Hs.
    + rewrite (frameBody_star _ _ _ _ Hs) in Hrun.
      apply IH in Hrun as (Hin & Hout & Hscr); [|done].
      split_and!.
      * intros j sj [->|Hj]%elem_of_cons Hsj.
        -- rewrite Hs in Hsj. injection Hsj as <-. rewrite Hout by done.
           by apply getStar_putStar.
        -- apply Hin; [done|]. rewrite getStar_putStar_ne; [done|]. by intros ->.
      * intros j Hj. rewrite Hout.
        -- apply getStar_putStar_ne. intros ->. apply Hj, list_elem_of_here.
        -- intros ?. by apply Hj, list_elem_of_further.
      * rewrite Hscr.
        assert (omap (λ i0, s0 ← getStar (putStar info i (starStep s).1) i0; (starStep s0).2) ks
                = omap (λ i0, s0 ← getStar info i0; (starStep s0).2) ks) as ->.
        { clear -Hi. induction ks as [|j ks IH]; [done|].
          assert (i ≠ j) by (intros ->; apply Hi, list_elem_of_here).
          assert (i ∉ ks) as Hi' by (intros ?; by apply Hi, list_elem_of_further).
          specialize (IH Hi'). unfold omap in *. simpl.
          rewrite getStar_putStar_ne by done. by rewrite IH. }
        simpl. rewrite Hs. simpl.
        rewrite <- app_assoc. by destruct (starStep s).2.
    + destruct (frameBody (Some (info, screen)) i) as [r|] eqn:Hb;
        [|by rewrite frameBody_None in Hrun].
      apply (frameBody_blind _ _ _ _ Hs) in Hb as ->.
      apply IH in Hrun as (Hin & Hout & Hscr); [|done].
      split_and!.
      * intros j sj [->|Hj]%elem_of_cons Hsj; [congruence|]. by apply Hin.
      * intros j Hj. apply Hout. intros ?. by apply Hj, list_elem_of_further.
      * rewrite Hscr. simpl. by rewrite Hs.
Qed.

Lemma frame_is_starStep info info' screen :
  CK_GalExplodeUpdateCoords info = Some (info', screen) →
  (∀ i s, (i < NUM_STARS)%nat → getStar info i = Some s →
          getStar info' i = Some (starStep s).1)
  ∧ screen = omap (λ i, s ← getStar info i; (starStep s).2) (reverse (seq 0 NUM_STARS)).
Proof.
  unfold CK_GalExplodeUpdateCoords. generalize NUM_STARS. intros n H.
  apply (frame_loop (reverse (seq 0 n)) info []) in H as (Hin & _ & Hscr).
  - split; [|done]. intros i s Hi. apply Hin.
    rewrite elem_of_reverse, elem_of_seq. lia.
  - rewrite reverse_Permutation. apply NoDup_seq.
Qed.

End GalaxyFacts.

(** ** The enemy shot *)

Module ShotFacts.
Import Game CK5 Samples.

Lemma updObj_live h f r : live (updObj h f r) = live r.
Proof. done. Qed.

Lemma updObj_free h f r : free (updObj h f r) = free r.
Proof. done. Qed.

(** C10: [CK5_SpawnEnemyShot] on a registry whose free slots are not
    linked. With no free slot it returns null and the registry is as it
    was. Otherwise it takes the first free slot and places the shot in
    it: the slot is now the last live object, of type enemy shot and
    existing only on screen, at the position and with the action asked
    for, and no other slot is touched; the wall test is made on that
    registry. When the shot is not stuck in a wall, the call returns the
    slot and that registry. When it is stuck, the call returns null, the
    live objects are those there were before the call, and the slot is
    free again. *)
Theorem spawn_enemy_shot ct notStuck posX0 posY0 action r :
  freeSlotsUnlinked r →
  match free r with
  | [] => CK5_SpawnEnemyShot ct notStuck posX0 posY0 action r = (None, r)
  | h :: rest =>
      ∃ placed o,
        live placed = live r ++ [h] ∧ free placed = rest
        ∧ slots placed !! h = Some o
        ∧ type o = ct ∧ active o = OBJ_EXISTS_ONLY_ONSCREEN
        ∧ posX o = posX0 ∧ posY o = posY0 ∧ currentAction o = Some action
        ∧ (∀ h', h' ≠ h → slots placed !! h' = slots r !! h')
        ∧ (if notStuck placed h
           then CK5_SpawnEnemyShot ct notStuck posX0 posY0 action r = (Some h, placed)
           else ∃ r', CK5_SpawnEnemyShot ct notStuck posX0 posY0 action r = (None, r')
                  ∧ live r' = live r ∧ (h ∉ live r') ∧ free r' = free r
                  ∧ slots r' = slots placed)
  end.
Proof.
  intros Hwf. unfold CK5_SpawnEnemyShot, CK_GetNewObj.
  destruct (free r) as [|h rest] eqn:Hfree; [done|].
  unfold freeSlotsUnlinked in Hwf. rewrite Hfree in Hwf.
  apply Forall_cons in Hwf as [[Hlt Hnot] _].
  set (placed :=
         {| slots := <[h := zeroObject]> (slots r); live := live r ++ [h]; free := rest |}
           ▷ updObj h (set_posX posX0) ▷ updObj h (set_posY posY0)
           ▷ updObj h (set_type ct) ▷ updObj h (set_active OBJ_EXISTS_ONLY_ONSCREEN)
           ▷ CK_SetAction h action).
  exists placed.
  assert (∃ o, slots placed !! h = Some o
            ∧ type o = ct ∧ active o = OBJ_EXISTS_ONLY_ONSCREEN
            ∧ posX o = posX0 ∧ posY o = posY0 ∧ currentAction o = Some action)
    as (o & Ho & Hty & Hact & Hx & Hy & Hcur).
  { unfold placed, CK_SetAction, updObj. simpl.
    rewrite !list_lookup_alter_eq, list_lookup_insert_eq by done.
    eexists. split; [reflexivity|]. done. }
  exists o. split_and!; try done.
  - intros h' Hne. unfold placed, CK_SetAction, updObj. simpl.
    rewrite !list_lookup_alter_ne by done. by rewrite list_lookup_insert_ne.
  - destruct (notStuck placed h); [reflexivity|].
    eexists. split; [reflexivity|].
    unfold CK_RemoveObj, placed, CK_SetAction, updObj. simpl.
    assert (filter (λ h', h' ≠ h) (live r ++ [h]) = live r) as Hfilter.
    { rewrite filter_app, filter_cons_False, filter_nil, app_nil_r by (by intros ?).
      clear -Hnot. induction (live r) as [|a l IH]; [done|].
      rewrite filter_cons_True.
      - f_equal. apply IH. intros ?. by apply Hnot, list_elem_of_further.
      - intros ->. apply Hnot, list_elem_of_here. }
    rewrite Hfilter. split_and!; done.
Qed.

Lemma spawn_enemy_shot_witness :
  freeSlotsUnlinked demoPool
  ∧ (CK5_SpawnEnemyShot 4 demoNotStuck 256 512 7 demoPool).1 = Some 1%nat
  ∧ live (CK5_SpawnEnemyShot 4 demoNotStuck 256 512 7 demoPool).2 = [0%nat; 1%nat]
  ∧ (CK5_SpawnEnemyShot 4 demoNotStuck (-256) 512 7 demoPool).1 = None
  ∧ live (CK5_SpawnEnemyShot 4 demoNotStuck (-256) 512 7 demoPool).2 = [0%nat]
  ∧ free (CK5_SpawnEnemyShot 4 demoNotStuck (-256) 512 7 demoPool).2 = [1%nat; 2%nat].
Proof.
  assert (freeSlotsUnlinked demoPool) as Hwf.
  { repeat constructor; simpl; try lia;
      intros Hin; apply elem_of_cons in Hin as [Heq|Hin];
      (discriminate Heq || by apply elem_of_nil in Hin). }
  split; [exact Hwf|].
  pose proof (spawn_enemy_shot 4 demoNotStuck 256 512 7 demoPool Hwf) as Hfree.
  pose proof (spawn_enemy_shot 4 demoNotStuck (-256) 512 7 demoPool Hwf) as Hwall.
  change (free demoPool) with [1%nat; 2%nat] in Hfree, Hwall.
  destruct Hfree as (placed & o & Hlive & _ & Ho & _ & _ & Hx & _ & _ & _ & Hfree).
  destruct Hwall as (placed' & o' & _ & _ & Ho' & _ & _ & Hx' & _ & _ & _ & Hwall).
  assert (demoNotStuck placed 1 = true) as Hn
    by (unfold demoNotStuck; rewrite Ho, Hx; reflexivity).
  assert (demoNotStuck placed' 1 = false) as Hn'
    by (unfold demoNotStuck; rewrite Ho', Hx'; reflexivity).
  rewrite Hn in Hfree. rewrite Hn' in Hwall.
  destruct Hwall as (r' & Hrun & Hlive' & _ & Hfr & _).
  rewrite Hfree, Hrun.
  split_and!; [reflexivity | exact Hlive | reflexivity | exact Hlive' | exact Hfr].
Defined.

End ShotFacts.

(** ** The big switch *)

Module SwitchFacts.
Import Game CK6 Samples.

(** *** The scan for the info tile *)

Lemma skipEmptyInfo_first rest tx ptr :
  (∃ k v, rest !! k = Some v ∧ v ≠ 0) →
  ∃ k v, skipEmptyInfo rest tx ptr = Some (tx + Z.of_nat k, ptr + Z.of_nat k)
    ∧ rest !! k = Some v ∧ v ≠ 0
    ∧ ∀ j, (j < k)%nat → rest !! j = Some 0.
Proof.
  revert tx ptr. induction rest as [|a rest IH]; intros tx ptr (k & v & Hk & Hv).
  - by rewrite lookup_nil in Hk.
  - simpl. destruct (Z.eqb_spec a 0) as [->|Ha].
    + destruct k as [|k]; [simpl in Hk; congruence|].
      destruct (IH (tx + 1) (ptr + 1)) as (k0 & v0 & Hrun & Hk0 & Hv0 & Hzero);
        [by exists k, v|].
      exists (S k0), v0. split_and!; try done.
      * rewrite Hrun. f_equal. f_equal; lia.
      * intros [|j] Hj; [done|]. apply Hzero. lia.
    + exists 0%nat, a. split_and!; try done.
      * f_equal. f_equal; lia.
      * intros j Hj. lia.
Qed.

Lemma skipEmptyInfo_all_empty rest tx ptr :
  (∀ k v, rest !! k = Some v → v = 0) → skipEmptyInfo rest tx ptr = None.
Proof.
  revert tx ptr. induction rest as [|a rest IH]; intros tx ptr Hall; [done|].
  simpl. rewrite (Hall 0%nat a eq_refl). simpl.
  apply IH. intros k v Hk. by apply (Hall (S k)).
Qed.

Lemma readTile_drop lvl p ptr k :
  0 ≤ ptr → planes lvl !! 2%nat = Some p →
  readTile lvl 2 (ptr + Z.of_nat k) = drop (Z.to_nat ptr) p !! k.
Proof.
  intros Hptr Hp. unfold readTile.
  rewrite (proj2 (Z.ltb_ge _ _)) by lia. rewrite Hp. simpl.
  rewrite lookup_drop. f_equal. lia.
Qed.

(** C9: the scan for the info tile goes from tile to tile in the order of
    the plane; when some tile at or after the start holds a value that is
    not zero, it ends, at the first such tile, with [tx] advanced as far
    as the pointer. *)
Theorem info_scan_finds_first lvl tx ptr :
  0 ≤ ptr →
  (∃ k v, 0 ≤ k ∧ readTile lvl 2 (ptr + k) = Some v ∧ v ≠ 0) →
  ∃ k v, 0 ≤ k
    ∧ findInfoTile lvl tx ptr = Some (tx + k, ptr + k)
    ∧ readTile lvl 2 (ptr + k) = Some v ∧ v ≠ 0
    ∧ ∀ j, 0 ≤ j < k → readTile lvl 2 (ptr + j) = Some 0.
Proof.
  intros Hptr (k & v & Hk & Hread & Hv).
  unfold findInfoTile. rewrite (proj2 (Z.ltb_ge _ _)) by lia.
  destruct (planes lvl !! 2%nat) as [p|] eqn:Hp.
  2: { unfold readTile in Hread. rewrite Hp in Hread. by case_match. }
  simpl.
  destruct (skipEmptyInfo_first (drop (Z.to_nat ptr) p) tx ptr)
    as (k0 & v0 & Hrun & Hk0 & Hv0 & Hzero).
  { exists (Z.to_nat k), v. split; [|done].
    rewrite <- (readTile_drop lvl) by done. by rewrite Z2Nat.id. }
  exists (Z.of_nat k0), v0. split_and!; try done; try lia.
  - by rewrite (readTile_drop lvl p).
  - intros j Hj. rewrite <- (Z2Nat.id j) by lia.
    rewrite (readTile_drop lvl p) by done. apply Hzero. lia.
Qed.

Lemma info_scan_finds_first_witness :
  0 ≤ 1
  ∧ ∃ k v, 0 ≤ k
      ∧ findInfoTile switchLevel 0 1 = Some (0 + k, 1 + k)
      ∧ readTile switchLevel 2 (1 + k) = Some v ∧ v ≠ 0
      ∧ ∀ j, 0 ≤ j < k → readTile switchLevel 2 (1 + j) = Some 0.
Proof.
  split; [lia|].
  apply (info_scan_finds_first switchLevel 0 1); [lia|].
  exists 8, 771. split_and!; [lia | reflexivity | lia].
Defined.

(** Without such a tile the scan does not end inside the plane. *)
Lemma info_scan_runs_off lvl tx ptr :
  (∀ k v, 0 ≤ k → readTile lvl 2 (ptr + k) = Some v → v = 0) →
  findInfoTile lvl tx ptr = None.
Proof.
  intros Hall. unfold findInfoTile. case_match; [done|].
  destruct (planes lvl !! 2%nat) as [p|] eqn:Hp; [|done]. simpl.
  apply skipEmptyInfo_all_empty. intros k v Hk.
  apply (Hall (Z.of_nat k)); [lia|]. rewrite (readTile_drop lvl p); [done | lia | done].
Qed.

(** *** Reading and writing tiles *)

Lemma writeTile_Some lvl pl ptr v :
  is_Some (readTile lvl pl ptr) → is_Some (writeTile lvl pl ptr v).
Proof.
  unfold readTile, writeTile. case_match; [by intros [? ?]|].
  destruct (planes lvl !! pl) as [p|]; simpl; [|by intros [? ?]].
  intros Hr%lookup_lt_is_Some. by rewrite decide_True.
Qed.

Lemma writeTile_spec lvl pl ptr v lvl' :
  writeTile lvl pl ptr v = Some lvl' →
  mapWidth lvl' = mapWidth lvl
  ∧ (∀ pl', pl' ≠ pl → planes lvl' !! pl' = planes lvl !! pl')
  ∧ (∀ c, readTile lvl' pl c = if decide (c = ptr) then Some v else readTile lvl pl c).
Proof.
  unfold writeTile. destruct (Z.ltb_spec ptr 0) as [|Hptr]; [done|].
  destruct (planes lvl !! pl) as [p|] eqn:Hp; [|done]. simpl.
  case_decide as Hlt; [|done]. intros [= <-]. split_and!; [done | |].
  - intros pl' Hne. simpl. by rewrite list_lookup_insert_ne.
  - intros c. unfold readTile. simpl.
    rewrite list_lookup_insert_eq by by eapply lookup_lt_Some.
    rewrite Hp. simpl.
    destruct (Z.ltb_spec c 0) as [Hc|Hc]; [by rewrite decide_False by lia|].
    case_decide as Hcp.
    + subst c. by rewrite list_lookup_insert_eq.
    + rewrite list_lookup_insert_ne; [done|]. lia.
Qed.

Lemma replace_one_tile t pl x y lvl :
  RF_ReplaceTiles [t] pl x y 1 1 lvl = writeTile lvl pl (CA_TilePtrAtPos lvl x y) t.
Proof.
  unfold RF_ReplaceTiles, for_range. simpl.
  unfold CA_TilePtrAtPos. rewrite !Z.add_0_r.
  by destruct (writeTile lvl pl (y * mapWidth lvl + x) t).
Qed.

Lemma writeTile_readable lvl pl ptr v lvl' :
  writeTile lvl pl ptr v = Some lvl' → is_Some (readTile lvl pl ptr).
Proof.
  unfold writeTile, readTile. case_match; [done|].
  destruct (planes lvl !! pl) as [p|]; [|done]. simpl.
  case_decide; [|done]. intros _. by apply lookup_lt_is_Some.
Qed.

(** One write of a toggled tile. *)
Lemma write_toggled ti lvl c t lvl' :
  readTile lvl 1 c = Some t →
  writeTile lvl 1 c (toggledTile ti t) = Some lvl' →
  toggledOn ti [c] lvl lvl'.
Proof.
  intros Hr (HW & Hpl & Hrd)%writeTile_spec. split_and!; [done | by apply Hpl |].
  intros c'. rewrite Hrd. destruct (decide (c' = c)) as [->|Hne].
  - rewrite decide_True by apply list_elem_of_here. by rewrite Hr.
  - rewrite decide_False; [by destruct (readTile lvl 1 c')|].
    by intros [?|?%elem_of_nil]%elem_of_cons.
Qed.

Lemma toggledOn_nil ti lvl : toggledOn ti [] lvl lvl.
Proof.
  split_and!; try done. intros c. rewrite decide_False by apply not_elem_of_nil.
  by destruct (readTile lvl 1 c).
Qed.

Lemma switchTileArray_spec ti lvl tx ty arr :
  switchTileArray ti lvl tx ty = Some arr →
  ∃ t0 t1 t2 t3 t4 t5,
    arr = toggledTile ti <$> [t0; t1; t2; t3; t4; t5]
    ∧ Some <$> [t0; t1; t2; t3; t4; t5] = readTile lvl 1 <$> blockCells lvl tx ty.
Proof.
  unfold switchTileArray, for_range, blockCells, CA_GetMapWidth. simpl.
  set (p := CA_TilePtrAtPos lvl tx ty). set (W := mapWidth lvl).
  destruct (readTile lvl 1 p) as [t0|] eqn:H0; simpl; [|done].
  destruct (readTile lvl 1 (p + 1)) as [t1|] eqn:H1; simpl; [|done].
  replace (p + 1 + 1 + (W - 2)) with (p + W) by lia.
  destruct (readTile lvl 1 (p + W)) as [t2|] eqn:H2; simpl; [|done].
  destruct (readTile lvl 1 (p + W + 1)) as [t3|] eqn:H3; simpl; [|done].
  replace (p + W + 1 + 1 + (W - 2)) with (p + 2 * W) by lia.
  destruct (readTile lvl 1 (p + 2 * W)) as [t4|] eqn:H4; simpl; [|done].
  destruct (readTile lvl 1 (p + 2 * W + 1)) as [t5|] eqn:H5; simpl; [|done].
  intros [= <-]. by exists t0, t1, t2, t3, t4, t5.
Qed.

Ltac in_list := repeat first [apply list_elem_of_here | apply list_elem_of_further].

Lemma switchTileArray_Some ti lvl tx ty :
  (∀ c, c ∈ blockCells lvl tx ty → is_Some (readTile lvl 1 c)) →
  is_Some (switchTileArray ti lvl tx ty).
Proof.
  intros Hall. unfold switchTileArray, for_range, CA_GetMapWidth. simpl.
  unfold blockCells in Hall.
  set (p := CA_TilePtrAtPos lvl tx ty) in *. set (W := mapWidth lvl) in *.
  destruct (Hall p) as [t0 ->]; [in_list|]. simpl.
  destruct (Hall (p + 1)) as [t1 ->]; [in_list|]. simpl.
  replace (p + 1 + 1 + (W - 2)) with (p + W) by lia.
  destruct (Hall (p + W)) as [t2 ->]; [in_list|]. simpl.
  destruct (Hall (p + W + 1)) as [t3 ->]; [in_list|]. simpl.
  replace (p + W + 1 + 1 + (W - 2)) with (p + 2 * W) by lia.
  destruct (Hall (p + 2 * W)) as [t4 ->]; [in_list|]. simpl.
  destruct (Hall (p + 2 * W + 1)) as [t5 ->]; [in_list|]. simpl.
  done.
Qed.

Ltac next_write H :=
  match type of H with
  | context [writeTile ?l 1 ?ptr ?v] =>
      let lvl' := fresh "lvl" in
      let Hw := fresh "Hw" in
      destruct (writeTile l 1 ptr v) as [lvl'|] eqn:Hw; simpl in H; [|done];
      let HW := fresh "HW" in
      let Hpl := fresh "Hpl" in
      let Hrd := fresh "Hrd" in
      pose proof (writeTile_readable _ _ _ _ _ Hw);
      apply writeTile_spec in Hw as (HW & Hpl & Hrd)
  end.

Lemma replaceBlock_spec lvl tx ty t0 t1 t2 t3 t4 t5 lvl' :
  RF_ReplaceTiles [t0; t1; t2; t3; t4; t5] 1 tx ty 2 3 lvl = Some lvl' →
  let p := CA_TilePtrAtPos lvl tx ty in
  let W := mapWidth lvl in
  mapWidth lvl' = W
  ∧ planes lvl' !! 2%nat = planes lvl !! 2%nat
  ∧ ∀ c, readTile lvl' 1 c
         = if decide (c = p + 2 * W + 1) then Some t5
           else if decide (c = p + 2 * W) then Some t4
           else if decide (c = p + W + 1) then Some t3
           else if decide (c = p + W) then Some t2
           else if decide (c = p + 1) then Some t1
           else if decide (c = p) then Some t0
           else readTile lvl 1 c.
Proof.
  unfold RF_ReplaceTiles, for_range. simpl. intros H.
  do 6 next_write H.
  injection H as <-.
  unfold CA_TilePtrAtPos in *.
  rewrite HW4, HW3, HW2, HW1, HW0, HW in *.
  split_and!.
  - congruence.
  - rewrite Hpl4, Hpl3, Hpl2, Hpl1, Hpl0, Hpl by done. done.
  - intros c. rewrite Hrd4, Hrd3, Hrd2, Hrd1, Hrd0, Hrd.
    repeat case_decide; try done; lia.
Qed.

Lemma writeTile_keeps lvl pl ptr v lvl' :
  writeTile lvl pl ptr v = Some lvl' →
  mapWidth lvl' = mapWidth lvl
  ∧ ∀ c, is_Some (readTile lvl pl c) → is_Some (readTile lvl' pl c).
Proof.
  intros (HW & _ & Hrd)%writeTile_spec. split; [done|].
  intros c Hc. rewrite Hrd. by case_decide.
Qed.

Lemma replaceBlock_Some lvl tx ty t0 t1 t2 t3 t4 t5 :
  (∀ c, c ∈ blockCells lvl tx ty → is_Some (readTile lvl 1 c)) →
  is_Some (RF_ReplaceTiles [t0; t1; t2; t3; t4; t5] 1 tx ty 2 3 lvl).
Proof.
  intros Hall. unfold RF_ReplaceTiles, for_range. simpl.
  unfold blockCells in Hall.
  assert (∀ l, mapWidth l = mapWidth lvl →
               (∀ c, is_Some (readTile lvl 1 c) → is_Some (readTile l 1 c)) →
               ∀ dx dy, (dx = 0 ∨ dx = 1) → (dy = 0 ∨ dy = 1 ∨ dy = 2) →
               is_Some (readTile l 1 (CA_TilePtrAtPos l (tx + dx) (ty + dy)))) as Hrd.
  { intros l HW Hk dx dy Hdx Hdy. apply Hk, Hall. unfold CA_TilePtrAtPos. rewrite HW.
    set (W := mapWidth lvl).
    destruct Hdx as [->| ->], Hdy as [->|[->| ->]].
    - replace ((ty + 0) * W + (tx + 0)) with (ty * W + tx) by lia. in_list.
    - replace ((ty + 1) * W + (tx + 0)) with (ty * W + tx + W) by lia. in_list.
    - replace ((ty + 2) * W + (tx + 0)) with (ty * W + tx + 2 * W) by lia. in_list.
    - replace ((ty + 0) * W + (tx + 1)) with (ty * W + tx + 1) by lia. in_list.
    - replace ((ty + 1) * W + (tx + 1)) with (ty * W + tx + W + 1) by lia. in_list.
    - replace ((ty + 2) * W + (tx + 1)) with (ty * W + tx + 2 * W + 1) by lia. in_list. }
  destruct (writeTile_Some lvl 1 (CA_TilePtrAtPos lvl (tx + 0) (ty + 0)) t0) as [l0 Hw0];
    [apply Hrd; auto|].
  rewrite Hw0. simpl. apply writeTile_keeps in Hw0 as [HW0 Hk0].
  destruct (writeTile_Some l0 1 (CA_TilePtrAtPos l0 (tx + (0 + 1)) (ty + 0)) t1) as [l1 Hw1];
    [apply Hrd; auto|].
  rewrite Hw1. simpl. apply writeTile_keeps in Hw1 as [HW1 Hk1].
  destruct (writeTile_Some l1 1 (CA_TilePtrAtPos l1 (tx + 0) (ty + (0 + 1))) t2) as [l2 Hw2];
    [apply Hrd; [congruence | eauto 10 | auto | auto]|].
  rewrite Hw2. simpl. apply writeTile_keeps in Hw2 as [HW2 Hk2].
  destruct (writeTile_Some l2 1 (CA_TilePtrAtPos l2 (tx + (0 + 1)) (ty + (0 + 1))) t3) as [l3 Hw3];
    [apply Hrd; [congruence | eauto 10 | auto | auto]|].
  rewrite Hw3. simpl. apply writeTile_keeps in Hw3 as [HW3 Hk3].
  destruct (writeTile_Some l3 1 (CA_TilePtrAtPos l3 (tx + 0) (ty + (0 + 1 + 1))) t4) as [l4 Hw4];
    [apply Hrd; [congruence | eauto 10 | auto | auto]|].
  rewrite Hw4. simpl. apply writeTile_keeps in Hw4 as [HW4 Hk4].
  destruct (writeTile_Some l4 1 (CA_TilePtrAtPos l4 (tx + (0 + 1)) (ty + (0 + 1 + 1))) t5) as [l5 Hw5];
    [apply Hrd; [congruence | eauto 10 | auto | auto]|].
  rewrite Hw5. simpl. done.
Qed.

Lemma block_toggled ti lvl tx ty arr lvl' :
  switchTileArray ti lvl tx ty = Some arr →
  RF_ReplaceTiles arr 1 tx ty 2 3 lvl = Some lvl' →
  toggledOn ti (blockCells lvl tx ty) lvl lvl'.
Proof.
  intros (t0 & t1 & t2 & t3 & t4 & t5 & -> & Hreads)%switchTileArray_spec.
  simpl. intros (HW & Hpl & Hrd)%replaceBlock_spec.
  unfold blockCells in *. simpl in Hreads.
  set (p := CA_TilePtrAtPos lvl tx ty) in *. set (W := mapWidth lvl) in *.
  injection Hreads as H0 H1 H2 H3 H4 H5.
  split_and!; [done | done |].
  intros c. rewrite Hrd.
  repeat case_decide; subst;
    repeat match goal with H : Some _ = readTile _ _ _ |- _ => rewrite <- H end;
    try done;
    try (destruct (readTile lvl 1 c); done);
    exfalso;
    match goal with
    | H : ¬ (_ ∈ _) |- _ => apply H; in_list
    | H : _ ∈ _ |- _ =>
        repeat (apply elem_of_cons in H as [H|H]; [done|]); by apply elem_of_nil in H
    end.
Qed.

Lemma block_defined ti lvl tx ty :
  (∀ c, c ∈ blockCells lvl tx ty → is_Some (readTile lvl 1 c)) →
  ∃ arr lvl', switchTileArray ti lvl tx ty = Some arr
    ∧ RF_ReplaceTiles arr 1 tx ty 2 3 lvl = Some lvl'.
Proof.
  intros Hall.
  destruct (switchTileArray_Some ti lvl tx ty Hall) as [arr Harr].
  exists arr.
  destruct (switchTileArray_spec _ _ _ _ _ Harr) as (t0 & t1 & t2 & t3 & t4 & t5 & -> & _).
  destruct (replaceBlock_Some lvl tx ty (toggledTile ti t0) (toggledTile ti t1)
              (toggledTile ti t2) (toggledTile ti t3) (toggledTile ti t4)
              (toggledTile ti t5) Hall) as [lvl' Hl].
  by exists lvl'.
Qed.

Lemma block_readable ti lvl tx ty arr :
  switchTileArray ti lvl tx ty = Some arr →
  ∀ c, c ∈ blockCells lvl tx ty → is_Some (readTile lvl 1 c).
Proof.
  intros (t0 & t1 & t2 & t3 & t4 & t5 & _ & Hreads)%switchTileArray_spec c Hc.
  apply (list_elem_of_fmap_2 (readTile lvl 1)) in Hc. rewrite <- Hreads in Hc.
  apply list_elem_of_fmap in Hc as (t & -> & _). done.
Qed.

(** *** One row of a bridge *)

Lemma toggledOn_readable ti cells lvl lvl' c :
  toggledOn ti cells lvl lvl' → is_Some (readTile lvl' 1 c) ↔ is_Some (readTile lvl 1 c).
Proof.
  intros (_ & _ & Hrd). rewrite Hrd. by rewrite fmap_is_Some.
Qed.

Lemma bridgeRow_spec ti n x y lvl lvl' cells :
  bridgeRow ti n x y lvl = Some (lvl', cells) →
  ∃ k, (k ≤ n)%nat
    ∧ cells = seqZ (CA_TilePtrAtPos lvl x y) (Z.of_nat k)
    ∧ toggledOn ti cells lvl lvl'
    ∧ (∀ c, c ∈ cells → ∃ t, readTile lvl 1 c = Some t ∧ TI_ForeAnimTile ti t ≠ 0)
    ∧ ((k < n)%nat →
       ∃ t, readTile lvl 1 (CA_TilePtrAtPos lvl x y + Z.of_nat k) = Some t
            ∧ TI_ForeAnimTile ti t = 0).
Proof.
  revert x lvl lvl' cells. induction n as [|n IH]; intros x lvl lvl' cells; simpl.
  - intros [= <- <-]. exists 0%nat. split_and!; try done.
    + apply toggledOn_nil.
    + by intros c ?%elem_of_nil.
    + lia.
  - unfold CA_TileAtPos. set (p := CA_TilePtrAtPos lvl x y).
    destruct (readTile lvl 1 p) as [t|] eqn:Ht; simpl; [|done].
    destruct (Z.eqb_spec (TI_ForeAnimTile ti t) 0) as [Hz|Hnz].
    + intros [= <- <-]. exists 0%nat. split_and!; try done.
      * lia.
      * apply toggledOn_nil.
      * by intros c ?%elem_of_nil.
      * intros _. exists t. by rewrite Z.add_0_r.
    + rewrite replace_one_tile. fold p.
      destruct (writeTile lvl 1 p (u16 (t + TI_ForeAnimTile ti t))) as [lvl1|] eqn:Hw;
        simpl; [|done].
      pose proof (write_toggled ti lvl p t lvl1 Ht Hw) as (HW1 & Hpl1 & Hrd1).
      destruct (bridgeRow ti n (x + 1) y lvl1) as [[lvl2 cells']|] eqn:Hrow;
        simpl; [|done].
      intros [= <- <-].
      apply IH in Hrow as (k & Hk & -> & (HW2 & Hpl2 & Hrd2) & Hcells & Hstop).
      assert (CA_TilePtrAtPos lvl1 (x + 1) y = p + 1) as Hp1.
      { unfold p, CA_TilePtrAtPos. rewrite HW1. lia. }
      rewrite Hp1 in *.
      assert (∀ c, p + 1 ≤ c → readTile lvl1 1 c = readTile lvl 1 c) as Hlater.
      { intros c Hc. rewrite Hrd1, decide_False; [by destruct (readTile lvl 1 c)|].
        intros [->|?%elem_of_nil]%elem_of_cons; [lia|done]. }
      exists (S k). split_and!.
      * lia.
      * rewrite (seqZ_cons p) by lia. do 2 f_equal; lia.
      * split_and!; [congruence | congruence |].
        intros c. rewrite Hrd2, Hrd1.
        destruct (decide (c = p)) as [->|Hne].
        -- rewrite decide_False by (rewrite elem_of_seqZ; lia).
           rewrite !decide_True by apply list_elem_of_here.
           by destruct (readTile lvl 1 p).
        -- rewrite (decide_False (P := c ∈ [p]))
             by (by intros [->|?%elem_of_nil]%elem_of_cons).
           destruct (decide (c ∈ seqZ (p + 1) (Z.of_nat k))) as [Hin|Hin].
           ++ rewrite decide_True by by apply list_elem_of_further.
              by destruct (readTile lvl 1 c).
           ++ rewrite decide_False; [by destruct (readTile lvl 1 c)|].
              by intros [->|?]%elem_of_cons.
      * intros c [->|Hc]%elem_of_cons; [by exists t|].
        destruct (Hcells c Hc) as (t' & Ht' & Hnz'). exists t'.
        rewrite <- Hlater; [done|]. apply elem_of_seqZ in Hc. lia.
      * intros Hkn. destruct Hstop as (t' & Ht' & Hz'); [lia|]. exists t'.
        rewrite <- Hlater by lia. split; [|done]. rewrite <- Ht'. f_equal. lia.
Qed.

Lemma bridgeRow_replay ti n x y lvl k :
  (k ≤ n)%nat →
  (∀ c, c ∈ seqZ (CA_TilePtrAtPos lvl x y) (Z.of_nat k) →
        ∃ t, readTile lvl 1 c = Some t ∧ TI_ForeAnimTile ti t ≠ 0) →
  ((k < n)%nat →
   ∃ t, readTile lvl 1 (CA_TilePtrAtPos lvl x y + Z.of_nat k) = Some t
        ∧ TI_ForeAnimTile ti t = 0) →
  ∃ lvl', bridgeRow ti n x y lvl
          = Some (lvl', seqZ (CA_TilePtrAtPos lvl x y) (Z.of_nat k)).
Proof.
  revert x lvl k. induction n as [|n IH]; intros x lvl k Hk Hcells Hstop; simpl.
  - assert (k = 0%nat) as -> by lia. by exists lvl.
  - unfold CA_TileAtPos. set (p := CA_TilePtrAtPos lvl x y) in *.
    destruct k as [|k].
    + destruct Hstop as (t & Ht & Hz); [lia|]. rewrite Z.add_0_r in Ht.
      rewrite Ht. simpl. rewrite Hz. simpl. by exists lvl.
    + destruct (Hcells p) as (t & Ht & Hnz); [rewrite elem_of_seqZ; lia|].
      rewrite Ht. simpl. rewrite (proj2 (Z.eqb_neq _ _)) by done.
      rewrite replace_one_tile. fold p.
      destruct (writeTile_Some lvl 1 p (u16 (t + TI_ForeAnimTile ti t))) as [lvl1 Hw];
        [by rewrite Ht|].
      rewrite Hw. simpl.
      pose proof (write_toggled ti lvl p t lvl1 Ht Hw) as (HW1 & Hpl1 & Hrd1).
      assert (CA_TilePtrAtPos lvl1 (x + 1) y = p + 1) as Hp1.
      { unfold p, CA_TilePtrAtPos. rewrite HW1. lia. }
      assert (∀ c, p + 1 ≤ c → readTile lvl1 1 c = readTile lvl 1 c) as Hlater.
      { intros c Hc. rewrite Hrd1, decide_False; [by destruct (readTile lvl 1 c)|].
        intros [->|?%elem_of_nil]%elem_of_cons; [lia|done]. }
      destruct (IH (x + 1) lvl1 k) as (lvl2 & Hrow).
      * lia.
      * rewrite Hp1. intros c Hc. rewrite Hlater by (apply elem_of_seqZ in Hc; lia).
        apply Hcells. rewrite elem_of_seqZ in *. lia.
      * rewrite Hp1. intros Hkn. rewrite Hlater by lia.
        destruct Hstop as (t' & Ht' & Hz'); [lia|]. exists t'. split; [|done].
        rewrite <- Ht'. f_equal. lia.
      * rewrite Hrow. simpl. exists lvl2. do 2 f_equal.
        rewrite (seqZ_cons p) by lia. rewrite Hp1. do 2 f_equal; lia.
Qed.

Lemma toggleBridge_rows ti destX destY lvl :
  toggleBridge ti destX destY lvl
  = '(lvl1, row1) ← bridgeRow ti (Z.to_nat (mapWidth lvl - (destX - 0))) (destX - 0) destY lvl;
    '(lvl2, row2) ← bridgeRow ti (Z.to_nat (mapWidth lvl1 - (destX - 1))) (destX - 1)
                      (destY + 1) lvl1;
    Some (lvl2, row1 ++ row2).
Proof.
  unfold toggleBridge, for_range, CA_GetMapWidth.
  replace (destY + 2 - destY) with 2 by lia. simpl.
  rewrite Z.eqb_refl. rewrite (proj2 (Z.eqb_neq (destY + 1) destY)) by lia.
  destruct (bridgeRow ti _ (destX - 0) destY lvl) as [[lvl1 row1]|]; simpl; [|done].
  destruct (bridgeRow ti _ (destX - 1) (destY + 1) lvl1) as [[lvl2 row2]|]; simpl; done.
Qed.

(** *** Toggling a tile several times *)

Lemma toggledTile_range ti t : 0 ≤ toggledTile ti t < 65536.
Proof. unfold toggledTile, u16. apply Z.mod_pos_bound. lia. Qed.

Lemma toggledTile_fixed ti t :
  0 ≤ t < 65536 → TI_ForeAnimTile ti t = 0 → toggledTile ti t = t.
Proof.
  intros Ht Hz. unfold toggledTile, u16. rewrite Hz, Z.add_0_r.
  by apply Z.mod_small.
Qed.

Lemma cancelling_toggled ti t :
  cancelling ti t →
  cancelling ti (toggledTile ti t)
  ∧ toggledTile ti (toggledTile ti t) = t
  ∧ TI_ForeAnimTile ti (toggledTile ti t) = - TI_ForeAnimTile ti t.
Proof.
  intros [Ht Hc]. unfold offsetsCancel in Hc.
  assert (TI_ForeAnimTile ti (toggledTile ti t) = - TI_ForeAnimTile ti t) as Ha by lia.
  assert (toggledTile ti (toggledTile ti t) = t) as Hback.
  { unfold toggledTile at 1. rewrite Ha. unfold toggledTile, u16.
    rewrite Zplus_mod_idemp_l.
    replace (t + TI_ForeAnimTile ti t + - TI_ForeAnimTile ti t) with t by lia.
    by apply Z.mod_small. }
  split_and!; [|done|done].
  split; [apply toggledTile_range|]. unfold offsetsCancel. rewrite Hback. lia.
Qed.

Lemma toggles_cancelling ti k t :
  cancelling ti t →
  cancelling ti (toggles ti k t)
  ∧ (TI_ForeAnimTile ti (toggles ti k t) = 0 ↔ TI_ForeAnimTile ti t = 0).
Proof.
  intros Ht. induction k as [|k [IHc IHz]]; [done|].
  change (toggles ti (S k) t) with (toggledTile ti (toggles ti k t)).
  destruct (cancelling_toggled ti _ IHc) as (Hc & _ & Ha).
  split; [done|]. rewrite Ha. rewrite <- IHz. lia.
Qed.

Lemma toggles_twice ti k t : cancelling ti t → toggles ti (k + k) t = t.
Proof.
  intros Ht. induction k as [|k IH]; [done|].
  replace (S k + S k)%nat with (S (S (k + k))) by lia.
  change (toggles ti (S (S (k + k))) t)
    with (toggledTile ti (toggledTile ti (toggles ti (k + k) t))).
  rewrite IH. by apply cancelling_toggled.
Qed.

Lemma toggles_fixed ti k t :
  0 ≤ t < 65536 → TI_ForeAnimTile ti t = 0 → toggles ti k t = t.
Proof.
  intros Ht Hz. induction k as [|k IH]; [done|].
  change (toggles ti (S k) t) with (toggledTile ti (toggles ti k t)).
  rewrite IH. by apply toggledTile_fixed.
Qed.

Lemma toggles_range ti k t : 0 ≤ t < 65536 → 0 ≤ toggles ti k t < 65536.
Proof. intros Ht. destruct k; [done|]. apply toggledTile_range. Qed.

Lemma toggledOn_times ti cells lvl lvl' :
  toggledOn ti cells lvl lvl' → toggledTimes ti (inCells cells) lvl lvl'.
Proof.
  intros (HW & Hpl & Hrd). split_and!; [done | done |].
  intros c. rewrite Hrd. unfold inCells. by case_decide.
Qed.

Lemma toggledTimes_trans ti e1 e2 lvl1 lvl2 lvl3 :
  toggledTimes ti e1 lvl1 lvl2 → toggledTimes ti e2 lvl2 lvl3 →
  toggledTimes ti (λ c, (e2 c + e1 c)%nat) lvl1 lvl3.
Proof.
  intros (HW & Hpl & Hrd) (HW' & Hpl' & Hrd'). split_and!; [congruence | congruence |].
  intros c. rewrite Hrd', Hrd. destruct (readTile lvl1 1 c) as [t|]; [|done].
  simpl. f_equal. unfold toggles. by rewrite Nat.iter_add.
Qed.

Lemma toggledTimes_tiles16 ti e lvl lvl' :
  toggledTimes ti e lvl lvl' → tiles16 lvl → tiles16 lvl'.
Proof.
  intros (_ & _ & Hrd) H16 c t. rewrite Hrd.
  destruct (readTile lvl 1 c) as [t0|] eqn:Ht0; [|done]. intros [= <-].
  apply toggles_range. by apply (H16 c).
Qed.

Lemma toggledTimes_readable ti e lvl lvl' c :
  toggledTimes ti e lvl lvl' → is_Some (readTile lvl' 1 c) ↔ is_Some (readTile lvl 1 c).
Proof. intros (_ & _ & Hrd). rewrite Hrd. by rewrite fmap_is_Some. Qed.

Lemma readTile_info lvl lvl' c :
  planes lvl' !! 2%nat = planes lvl !! 2%nat → readTile lvl' 2 c = readTile lvl 2 c.
Proof. intros Hpl. unfold readTile. by rewrite Hpl. Qed.

Lemma findInfoTile_info lvl lvl' tx ptr :
  planes lvl' !! 2%nat = planes lvl !! 2%nat →
  findInfoTile lvl' tx ptr = findInfoTile lvl tx ptr.
Proof. intros Hpl. unfold findInfoTile. by rewrite Hpl. Qed.

(** *** The two halves of a toggle *)

Lemma blockCells_width lvl lvl' tx ty :
  mapWidth lvl' = mapWidth lvl → blockCells lvl' tx ty = blockCells lvl tx ty.
Proof. intros HW. unfold blockCells, CA_TilePtrAtPos. by rewrite HW. Qed.

Lemma replaceSwitchTiles_replay ti obj dir lvl lvlS destX destY lvlB :
  replaceSwitchTiles ti obj dir lvl = Some (lvlS, destX, destY) →
  mapWidth lvlB = mapWidth lvl →
  planes lvlB !! 2%nat = planes lvl !! 2%nat →
  (∀ c, is_Some (readTile lvl 1 c) → is_Some (readTile lvlB 1 c)) →
  ∃ lvlBS,
    replaceSwitchTiles ti obj dir lvlB = Some (lvlBS, destX, destY)
    ∧ toggledOn ti (switchBlock obj dir lvl) lvlB lvlBS.
Proof.
  unfold replaceSwitchTiles, switchBlock. intros Hrun HW Hpl Hrd.
  set (ty := if dir then tileY2 (clipRects obj) else tileY1 (clipRects obj) - 2) in *.
  set (tx0 := tileX1 (clipRects obj) - 1) in *.
  assert (∀ x y, CA_TilePtrAtPos lvlB x y = CA_TilePtrAtPos lvl x y) as Hptr.
  { intros x y. unfold CA_TilePtrAtPos. by rewrite HW. }
  rewrite Hptr, (findInfoTile_info lvl lvlB) by done.
  destruct (findInfoTile lvl tx0 _) as [[tx p]|]; simpl in *; [|done].
  destruct (switchTileArray ti lvl tx ty) as [arr|] eqn:Harr; simpl in *; [|done].
  destruct (RF_ReplaceTiles arr 1 tx ty 2 3 lvl) as [lvlS'|] eqn:HlvlS; simpl in *; [|done].
  destruct (readTile lvlS' 2 _) as [info|] eqn:Hinfo; simpl in *; [|done].
  injection Hrun as -> <- <-.
  pose proof (block_toggled _ _ _ _ _ _ Harr HlvlS) as HS.
  destruct (block_defined ti lvlB tx ty) as (arrB & lvlBS & HarrB & HlvlBS).
  { intros c Hc. rewrite (blockCells_width lvl lvlB) in Hc by done.
    by apply Hrd, (block_readable ti lvl tx ty arr). }
  pose proof (block_toggled _ _ _ _ _ _ HarrB HlvlBS) as HBS.
  rewrite (blockCells_width lvl lvlB) in HBS by done.
  exists lvlBS. split; [|done].
  rewrite HarrB. simpl. rewrite HlvlBS. simpl.
  destruct HS as (HWS & HplS & _). destruct HBS as (HWBS & HplBS & _).
  assert (CA_TilePtrAtPos lvlBS (tx + 1) (ty + 1) = CA_TilePtrAtPos lvlS (tx + 1) (ty + 1))
    as -> by (unfold CA_TilePtrAtPos; congruence).
  rewrite (readTile_info lvlS lvlBS) by congruence.
  by rewrite Hinfo.
Qed.

Lemma replaceSwitchTiles_toggled ti obj dir lvl lvlS destX destY :
  replaceSwitchTiles ti obj dir lvl = Some (lvlS, destX, destY) →
  toggledOn ti (switchBlock obj dir lvl) lvl lvlS.
Proof.
  intros Hrun.
  destruct (replaceSwitchTiles_replay ti obj dir lvl lvlS destX destY lvl Hrun)
    as (lvlS' & Hrun' & HS); try done.
  rewrite Hrun in Hrun'. by injection Hrun' as <-.
Qed.

Lemma switchEffect_bridge_defined ti mf lvl lvl' destX destY e :
  switchEffect ti mf lvl destX destY = Some Bridge →
  toggledTimes ti e lvl lvl' →
  is_Some (switchEffect ti mf lvl' destX destY).
Proof.
  unfold switchEffect. intros Heff (HW & Hpl & Hrd).
  assert (CA_TilePtrAtPos lvl' destX destY = CA_TilePtrAtPos lvl destX destY) as ->
    by (unfold CA_TilePtrAtPos; congruence).
  rewrite (readTile_info lvl lvl') by done.
  destruct (readTile lvl 2 _) as [v|]; simpl in *; [|done].
  case_match; [done|]. rewrite Hrd.
  destruct (readTile lvl 1 _) as [t|]; simpl in *; [|done].
  repeat case_match; done.
Qed.

Lemma bridgeRow_again ti n x y lvlA lvlA' cells e lvlB :
  bridgeRow ti n x y lvlA = Some (lvlA', cells) →
  tiles16 lvlA →
  toggledTimes ti e lvlA lvlB →
  (∀ c t, c ∈ cells → readTile lvlA 1 c = Some t → cancelling ti t) →
  ∃ lvlB', bridgeRow ti n x y lvlB = Some (lvlB', cells)
    ∧ toggledOn ti cells lvlB lvlB'.
Proof.
  intros HrowA H16 (HW & Hpl & Hrd) Hgood.
  destruct (bridgeRow_spec _ _ _ _ _ _ _ HrowA) as (k & Hk & Hcells & _ & Hnz & Hstop).
  assert (CA_TilePtrAtPos lvlB x y = CA_TilePtrAtPos lvlA x y) as Hptr
    by (unfold CA_TilePtrAtPos; congruence).
  destruct (bridgeRow_replay ti n x y lvlB k) as (lvlB' & HrowB).
  - done.
  - rewrite Hptr, <- Hcells. intros c Hc.
    destruct (Hnz c Hc) as (t & Ht & Hnzt). exists (toggles ti (e c) t).
    rewrite Hrd, Ht. split; [done|].
    rewrite (proj2 (toggles_cancelling ti (e c) t (Hgood c t Hc Ht))). done.
  - rewrite Hptr. intros Hkn. destruct (Hstop Hkn) as (t & Ht & Hz). exists t.
    rewrite Hrd, Ht. simpl. rewrite toggles_fixed; [done | by apply (H16 _ _ Ht) | done].
  - rewrite Hptr, <- Hcells in HrowB. exists lvlB'. split; [done|].
    by destruct (bridgeRow_spec _ _ _ _ _ _ _ HrowB) as (k' & _ & -> & HB & _).
Qed.

Lemma bridge_toggle_parts ti mf obj dir lvl lvlS destX destY lvlR row1 lvl1 row2 :
  replaceSwitchTiles ti obj dir lvl = Some (lvlS, destX, destY) →
  switchEffect ti mf lvlS destX destY = Some Bridge →
  bridgeRow ti (Z.to_nat (mapWidth lvlS - (destX - 0))) (destX - 0) destY lvlS
  = Some (lvlR, row1) →
  bridgeRow ti (Z.to_nat (mapWidth lvlR - (destX - 1))) (destX - 1) (destY + 1) lvlR
  = Some (lvl1, row2) →
  CK6_ToggleBigSwitch ti mf obj dir lvl = Some lvl1
  ∧ bridgeRegion ti mf obj dir lvl = row1 ++ row2.
Proof.
  intros Hfirst Heff Hrow1 Hrow2.
  unfold CK6_ToggleBigSwitch, bridgeRegion, applySwitchEffect.
  rewrite Hfirst. simpl. rewrite Heff. simpl.
  rewrite toggleBridge_rows, Hrow1. simpl. rewrite Hrow2. done.
Qed.

Lemma bridge_toggle_inv ti mf obj dir lvl lvl1 :
  CK6_ToggleBigSwitch ti mf obj dir lvl = Some lvl1 →
  toggleEffect ti mf obj dir lvl = Some Bridge →
  ∃ lvlS destX destY lvlR row1 row2,
    replaceSwitchTiles ti obj dir lvl = Some (lvlS, destX, destY)
    ∧ switchEffect ti mf lvlS destX destY = Some Bridge
    ∧ bridgeRow ti (Z.to_nat (mapWidth lvlS - (destX - 0))) (destX - 0) destY lvlS
      = Some (lvlR, row1)
    ∧ bridgeRow ti (Z.to_nat (mapWidth lvlR - (destX - 1))) (destX - 1) (destY + 1) lvlR
      = Some (lvl1, row2).
Proof.
  unfold CK6_ToggleBigSwitch, toggleEffect, applySwitchEffect.
  destruct (replaceSwitchTiles ti obj dir lvl) as [[[lvlS destX] destY]|];
    simpl; [|done].
  intros Hrun Heff. rewrite Heff in Hrun. simpl in Hrun.
  rewrite toggleBridge_rows in Hrun.
  destruct (bridgeRow ti _ (destX - 0) destY lvlS) as [[lvlR row1]|] eqn:Hrow1;
    simpl in Hrun; [|done].
  destruct (bridgeRow ti _ (destX - 1) (destY + 1) lvlR) as [[lvl1' row2]|] eqn:Hrow2;
    simpl in Hrun; [|done].
  injection Hrun as ->. by exists lvlS, destX, destY, lvlR, row1, row2.
Qed.

(** C8, amended: take a toggle of a big switch, on a level of 16-bit
    tiles, that returns and whose effect is the bridge one (the
    destination's info value is no arrow and its foreground tile has the
    bridge flag); let every foreground tile that its bridge loops replace
    be one whose two successive animation offsets sum to zero; and let
    the effect of a second toggle, on the level the first one leaves, be
    the bridge one again, that is, let the tile now at the destination
    have the bridge flag too. Then the second toggle returns, replaces
    the same tiles, and every tile of the bridge region is what it was
    before the first toggle. *)
Theorem bridge_toggled_twice ti mf obj dir lvl lvl1 :
  tiles16 lvl →
  CK6_ToggleBigSwitch ti mf obj dir lvl = Some lvl1 →
  toggleEffect ti mf obj dir lvl = Some Bridge →
  (∀ effect, toggleEffect ti mf obj dir lvl1 = Some effect → effect = Bridge) →
  (∀ c t, c ∈ bridgeRegion ti mf obj dir lvl → readTile lvl 1 c = Some t →
          offsetsCancel ti t) →
  ∃ lvl2, CK6_ToggleBigSwitch ti mf obj dir lvl1 = Some lvl2
    ∧ bridgeRegion ti mf obj dir lvl1 = bridgeRegion ti mf obj dir lvl
    ∧ ∀ c, c ∈ bridgeRegion ti mf obj dir lvl → readTile lvl2 1 c = readTile lvl 1 c.
Proof.
  intros H16 Hrun Heff Heff1 Hcancel.
  destruct (bridge_toggle_inv _ _ _ _ _ _ Hrun Heff)
    as (lvlS & destX & destY & lvlR & row1 & row2 & Hfirst & HeffS & Hrow1 & Hrow2).
  destruct (bridge_toggle_parts _ _ _ _ _ _ _ _ _ _ _ _ Hfirst HeffS Hrow1 Hrow2)
    as [_ Hregion].
  rewrite Hregion in *.
  (* the first toggle, step by step *)
  destruct (bridgeRow_spec _ _ _ _ _ _ _ Hrow1) as (_ & _ & _ & HR1 & _).
  destruct (bridgeRow_spec _ _ _ _ _ _ _ Hrow2) as (_ & _ & _ & HR2 & _).
  apply toggledOn_times in HR1, HR2.
  pose proof (replaceSwitchTiles_toggled _ _ _ _ _ _ _ Hfirst) as HB.
  apply toggledOn_times in HB.
  set (block := switchBlock obj dir lvl) in *.
  pose proof (toggledTimes_trans _ _ _ _ _ _ HB HR1) as H0R.
  pose proof (toggledTimes_trans _ _ _ _ _ _ H0R HR2) as H01.
  pose proof (toggledTimes_tiles16 _ _ _ _ HB H16) as H16S.
  pose proof (toggledTimes_tiles16 _ _ _ _ H0R H16) as H16R.
  (* the tiles of the bridge rows are cancelling ones, in every level *)
  assert (∀ e l c t, toggledTimes ti e lvl l → c ∈ row1 ++ row2 →
                     readTile l 1 c = Some t → cancelling ti t) as Hgood.
  { intros e l c t (_ & _ & Hrd) Hc. rewrite Hrd.
    destruct (readTile lvl 1 c) as [t0|] eqn:Ht0; [|done]. intros [= <-].
    apply toggles_cancelling. split; [by apply (H16 c) | by apply (Hcancel c)]. }
  (* the second toggle: the switch tiles *)
  destruct (replaceSwitchTiles_replay ti obj dir lvl lvlS destX destY lvl1 Hfirst)
    as (lvl1S & Hsecond & HB1).
  { apply H01. }
  { apply H01. }
  { intros c. by rewrite (toggledTimes_readable _ _ _ _ c H01). }
  apply toggledOn_times in HB1. fold block in HB1.
  (* the second toggle: the effect *)
  pose proof (toggledTimes_trans _ _ _ _ _ _ HR1 HR2) as HS1.
  pose proof (toggledTimes_trans _ _ _ _ _ _ HS1 HB1) as HS1S.
  destruct (switchEffect_bridge_defined ti mf lvlS lvl1S destX destY _ HeffS HS1S)
    as [effect Heffect].
  assert (effect = Bridge) as ->.
  { apply Heff1. unfold toggleEffect. by rewrite Hsecond. }
  (* the second toggle: the rows *)
  destruct (bridgeRow_again _ _ _ _ _ _ _ _ _ Hrow1 H16S HS1S) as (lvl1R & Hrow1' & HR1').
  { intros c t Hc. apply (Hgood _ _ _ _ HB). apply elem_of_app. by left. }
  apply toggledOn_times in HR1'.
  pose proof (toggledTimes_trans _ _ _ _ _ _ HR2 HB1) as HR1S.
  pose proof (toggledTimes_trans _ _ _ _ _ _ HR1S HR1') as HR1R.
  destruct (bridgeRow_again _ _ _ _ _ _ _ _ _ Hrow2 H16R HR1R) as (lvl2 & Hrow2' & HR2').
  { intros c t Hc. apply (Hgood _ _ _ _ H0R). apply elem_of_app. by right. }
  apply toggledOn_times in HR2'.
  assert (mapWidth lvl1S = mapWidth lvlS) as HWS by apply HS1S.
  assert (mapWidth lvl1R = mapWidth lvlR) as HWR by apply HR1R.
  rewrite <- HWS in Hrow1'. rewrite <- HWR in Hrow2'.
  destruct (bridge_toggle_parts _ _ _ _ _ _ _ _ _ _ _ _ Hsecond Heffect Hrow1' Hrow2')
    as [Hrun2 Hregion2].
  exists lvl2. split_and!; [done | done |].
  (* every tile of the rows has been toggled an even number of times *)
  pose proof (toggledTimes_trans _ _ _ _ _ _ H01 HB1) as H01S.
  pose proof (toggledTimes_trans _ _ _ _ _ _ H01S HR1') as H01R.
  pose proof (toggledTimes_trans _ _ _ _ _ _ H01R HR2') as (_ & _ & Hrd).
  intros c Hc. rewrite Hrd.
  destruct (readTile lvl 1 c) as [t|] eqn:Ht; [|done]. simpl. f_equal.
  set (k := (inCells block c + inCells row1 c + inCells row2 c)%nat).
  replace (inCells row2 c + (inCells row1 c + (inCells block c
             + (inCells row2 c + (inCells row1 c + inCells block c)))))%nat
    with (k + k)%nat by (unfold k; lia).
  apply toggles_twice. split; [by apply (H16 c) | by apply (Hcancel c)].
Qed.

Lemma tiles16_Forall lvl p :
  planes lvl !! 1%nat = Some p → Forall (λ t, 0 ≤ t < 65536) p → tiles16 lvl.
Proof.
  intros Hp Hall ptr t. unfold readTile. rewrite Hp. case_match; [done|]. simpl.
  intros Ht. rewrite Forall_forall in Hall. apply Hall.
  apply list_elem_of_lookup. eauto.
Qed.

Lemma switchLevel_tiles16 : tiles16 switchLevel.
Proof.
  eapply tiles16_Forall; [reflexivity|].
  repeat (constructor; [lia|]). constructor.
Qed.

Ltac region_cases Hc tac :=
  vm_compute in Hc;
  repeat (apply elem_of_cons in Hc as [->|Hc]; [tac|]);
  apply elem_of_nil in Hc; destruct Hc.

(** C8, as stated, does not hold: the switch tests the misc flag of the
    tile that is at the destination when it is toggled. With tile
    attributes where the retracted bridge tile 10 has the bridge flag and
    the extended tile 11 has not, the first toggle extends the bridge
    (every 10 of the two rows becomes 11; offsets 1 and -1, and a tile 0
    without offset ends each row), and the second toggle, finding no
    bridge flag at the destination, takes the last branch and changes an
    info tile instead: the bridge stays extended. *)
Lemma bridge_flag_of_toggled_tile :
  ¬ (∀ ti mf obj dir lvl lvl1,
       tiles16 lvl →
       CK6_ToggleBigSwitch ti mf obj dir lvl = Some lvl1 →
       toggleEffect ti mf obj dir lvl = Some Bridge →
       rowsBounded ti (bridgeRegion ti mf obj dir lvl) lvl →
       (∀ c t, c ∈ bridgeRegion ti mf obj dir lvl → readTile lvl 1 c = Some t →
               offsetsCancel ti t) →
       ∃ lvl2, CK6_ToggleBigSwitch ti mf obj dir lvl1 = Some lvl2
         ∧ ∀ c, c ∈ bridgeRegion ti mf obj dir lvl →
                readTile lvl2 1 c = readTile lvl 1 c).
Proof.
  intros H.
  destruct (CK6_ToggleBigSwitch halfBridgeInfo demoFlags switchObj true switchLevel)
    as [lvl1|] eqn:Hrun; [|vm_compute in Hrun; discriminate Hrun].
  destruct (H halfBridgeInfo demoFlags switchObj true switchLevel lvl1)
    as (lvl2 & Hrun2 & Hsame).
  - apply switchLevel_tiles16.
  - exact Hrun.
  - vm_compute. reflexivity.
  - intros c Hc.
    region_cases Hc
      ltac:(first [ exists 30, 0; split; [lia|]; split_and!; reflexivity
                  | exists 38, 0; split; [lia|]; split_and!; reflexivity ]).
  - intros c t Hc Ht.
    region_cases Hc ltac:(vm_compute in Ht; injection Ht as <-; reflexivity).
  - specialize (Hsame 27). vm_compute in Hrun. injection Hrun as <-.
    vm_compute in Hrun2. injection Hrun2 as <-.
    assert (27 ∈ bridgeRegion halfBridgeInfo demoFlags switchObj true switchLevel) as Hin
      by (vm_compute; apply list_elem_of_here).
    apply Hsame in Hin. vm_compute in Hin. discriminate Hin.
Qed.

Lemma bridge_toggled_twice_witness :
  ∃ lvl1,
    CK6_ToggleBigSwitch bridgeInfo demoFlags switchObj true switchLevel = Some lvl1
    ∧ ∃ lvl2,
        CK6_ToggleBigSwitch bridgeInfo demoFlags switchObj true lvl1 = Some lvl2
        ∧ bridgeRegion bridgeInfo demoFlags switchObj true lvl1
          = bridgeRegion bridgeInfo demoFlags switchObj true switchLevel
        ∧ ∀ c, c ∈ bridgeRegion bridgeInfo demoFlags switchObj true switchLevel →
               readTile lvl2 1 c = readTile switchLevel 1 c.
Proof.
  eexists. split; [vm_compute; reflexivity|].
  apply bridge_toggled_twice.
  - apply switchLevel_tiles16.
  - vm_compute. reflexivity.
  - vm_compute. reflexivity.
  - intros effect Heffect. vm_compute in Heffect. injection Heffect as <-. reflexivity.
  - intros c t Hc Ht.
    region_cases Hc ltac:(vm_compute in Ht; injection Ht as <-; reflexivity).
Defined.

Example toggle_once :
  (λ lvl, planes lvl !! 1%nat)
    <$> CK6_ToggleBigSwitch bridgeInfo demoFlags switchObj true switchLevel
  = Some (Some [21; 21; 0; 0; 0; 0; 0; 0;
                21; 21; 0; 0; 0; 0; 0; 0;
                21; 21; 0; 0; 0; 0; 0; 0;
                0; 0; 0; 11; 11; 11; 0; 0;
                0; 0; 11; 11; 11; 11; 0; 0]).
Proof. vm_compute. reflexivity. Qed.

Example toggle_region :
  bridgeRegion bridgeInfo demoFlags switchObj true switchLevel
  = [27; 28; 29; 34; 35; 36; 37].
Proof. vm_compute. reflexivity. Qed.

Example toggle_twice :
  CK6_ToggleBigSwitch bridgeInfo demoFlags switchObj true switchLevel
    ≫= CK6_ToggleBigSwitch bridgeInfo demoFlags switchObj true
  = Some switchLevel.
Proof. vm_compute. reflexivity. Qed.

End SwitchFacts.

(** ** Writes keep the frame of a level *)

Module FrameFacts.
Import Game ScanNotions SwitchFacts.

(* ---- lemmas ---- *)
Lemma sameFrame_refl pl lvl : sameFrame pl lvl lvl.
Proof. done. Qed.

Lemma sameFrame_trans pl l1 l2 l3 :
  sameFrame pl l1 l2 → sameFrame pl l2 l3 → sameFrame pl l1 l3.
Proof.
  intros (? & ? & H12) (? & ? & H23). split_and!; [congruence..|].
  intros pl' Hne. rewrite H23, H12; done.
Qed.

Lemma writeTile_frame lvl pl ptr v lvl' :
  writeTile lvl pl ptr v = Some lvl' → sameFrame pl lvl lvl'.
Proof.
  intros Hw. split_and!; [by apply writeTile_spec in Hw as (? & _) | |
                          by apply writeTile_spec in Hw as (_ & ? & _)].
  unfold writeTile in Hw. case_match; [done|].
  destruct (planes lvl !! pl); [|done]. simpl in Hw. case_decide; [|done].
  by injection Hw as <-.
Qed.

Lemma RF_ReplaceTiles_frame tiles pl x y wd ht lvl lvl' :
  RF_ReplaceTiles tiles pl x y wd ht lvl = Some lvl' → sameFrame pl lvl lvl'.
Proof.
  unfold RF_ReplaceTiles, for_range.
  apply (ScanFacts.for_count_inv (sameFrame pl lvl)); [|apply sameFrame_refl].
  intros r l1 l2 H1.
  apply (ScanFacts.for_count_inv (sameFrame pl lvl)); [|done].
  intros c l3 l4 H3 Hb.
  destruct (tiles !! Z.to_nat (r * wd + c)) as [t|]; [|done]. simpl in Hb.
  eapply sameFrame_trans; [done|]. by apply writeTile_frame in Hb.
Qed.

End FrameFacts.

(** ** Further properties of the scans *)

Module ScanLoopFacts.
Import Game Episodes Samples ScanNotions ScanFacts FrameFacts.

Lemma fuseTiles_snoc p v :
  fuseTiles (p ++ [v]) = fuseTiles p + (if v =? 41 then 1 else 0).
Proof.
  unfold fuseTiles. rewrite count_occ_app. simpl.
  destruct (Z.eq_dec v 41) as [->|Hne]; [simpl; lia|].
  rewrite (proj2 (Z.eqb_neq _ _)) by done. lia.
Qed.

Lemma fuseTiles_nonneg p : 0 ≤ fuseTiles p.
Proof. unfold fuseTiles. lia. Qed.

(** X1: the Keen 5 scan counts the fuses of the level: it clears the counter
    at its start and, off level 12, leaves it at the number of info tiles
    with value 41 among the tiles it reads, whatever the counter was; on
    level 12 it leaves 4 when there is such a tile and 0 when there is
    none. *)
Theorem scan_counts_fuses sp w w' :
  CK5.CK5_ScanInfoLayer sp w = Some w' →
  fusesRemaining (gameState w')
  = fusesAfter (currentLevel (gameState w)) (fuseTiles (scannedTiles (level w))).
Proof.
  intros Hscan.
  destruct (ScanInfoLayer_parts EP_CK5 sp w w' Hscan) as (w1 & H1 & _).
  assert (gameState w' = gameState w1) as ->.
  { unfold CK5.CK5_ScanInfoLayer in Hscan. simpl in H1. rewrite H1 in Hscan.
    simpl in Hscan. case_match.
    - apply mapTeleporters_effect in Hscan as (-> & _). by destruct w1.
    - injection Hscan as <-. by destruct w1. }
  simpl in H1. unfold CK5.CK5_ScanTiles in H1.
  change (level (CK5.setFuses 0 w)) with (level w) in H1.
  pose (Inv := λ (k : nat) (w1 : World),
          currentLevel (gameState w1) = currentLevel (gameState w)
          ∧ fusesRemaining (gameState w1)
            = fusesAfter (currentLevel (gameState w))
                (fuseTiles (take k (default [] (planes (level w) !! 2%nat))))).
  apply (tile_loop_ix EP_CK5 sp Inv (CK5.setFuses 0 w)) in H1.
  - apply H1.
  - change (level (CK5.setFuses 0 w)) with (level w).
    intros k v x y w2 Hv [Hcl Hf] _. unfold Inv.
    rewrite (take_S_r _ _ _ Hv), fuseTiles_snoc.
    rewrite (ScanTile_gameState EP_CK5).
    pose proof (fuseTiles_nonneg (take k (default [] (planes (level w) !! 2%nat)))) as Hn.
    revert Hf Hn. generalize (fuseTiles (take k (default [] (planes (level w) !! 2%nat)))).
    intros n Hf Hn. unfold fusesAfter in *.
    destruct (Z.eqb_spec v 41) as [->|Hne]; simpl.
    + rewrite Hcl. split; [done|].
      destruct (Z.eqb_spec (currentLevel (gameState w)) 12).
      * by rewrite (proj2 (Z.eqb_neq _ _)) by lia.
      * lia.
    + split; [done|]. by rewrite Z.add_0_r.
  - split; [by destruct w as [[] ? ? ? ? ?]|].
    rewrite take_0. unfold fusesAfter, fuseTiles. simpl. by case_match.
Qed.

Lemma scan_counts_fuses_witness :
  ∃ w', CK5.CK5_ScanInfoLayer demoSpawners (demoWorld D_Hard 1) = Some w'
    ∧ fusesRemaining (gameState (demoWorld D_Hard 1)) = 7
    ∧ fusesRemaining (gameState w') = 1.
Proof.
  eexists. split; [vm_compute; reflexivity|]. split; [reflexivity|].
  apply (scan_counts_fuses demoSpawners (demoWorld D_Hard 1)).
  vm_compute; reflexivity.
Defined.



Lemma tile_loop_gameState ep sp (w w' : World) :
  for_range 0 (mapHeight (level w)) (λ y,
    for_range 0 (mapWidth (level w)) (λ x w1,
      infoValue ← CA_TileAtPos (level w1) x y 2;
      Some (ScanTile ep sp x y infoValue w1))) w = Some w' →
  (∃ n, gameState w' = set_fusesRemaining n (gameState w))
  ∧ (ep = EP_CK6 → gameState w' = gameState w).
Proof.
  unfold for_range.
  pose (P := λ w1 : World,
          (∃ n, gameState w1 = set_fusesRemaining n (gameState w))
          ∧ (ep = EP_CK6 → gameState w1 = gameState w)).
  assert (P w) as H0.
  { split; [|done]. exists (fusesRemaining (gameState w)). by destruct (gameState w). }
  apply (for_count_inv P); [|done].
  intros y w1 w2 H1. apply (for_count_inv P); [|done].
  intros x w3 w4 [[n Hn] H6] Hb.
  destruct (CA_TileAtPos (level w3) x y 2) as [v|]; [|done].
  injection Hb as <-. unfold P. rewrite ScanTile_gameState. destruct ep.
  - split; [|done]. case_match; [|by exists n]. rewrite Hn. by eexists.
  - split; [by exists n | done].
Qed.



(** X3: the scan sets needed flags and clears none, not even at its start:
    a category that is still flagged when the scan begins is flagged when
    it ends, and the final pass requests its chunks again. *)
Theorem scan_keeps_flags ep sp w w' :
  ScanInfoLayer ep sp w = Some w' →
  length (lumpsNeeded ep w') = length (lumpsNeeded ep w)
  ∧ ∀ i, lumpsNeeded ep w !! i = Some true →
      lumpsNeeded ep w' !! i = Some true
      ∧ ((i < maxLumps ep)%nat →
         ∀ j, j ∈ lumpChunks (lumpStarts ep) (lumpEnds ep) i →
              chunkRequest ep j ∈ calls w').
Proof.
  intros (w1 & H1 & _ & Hcalls & Hflags)%ScanInfoLayer_parts.
  apply ScanTiles_effect in H1 as (_ & Hm).
  apply marked_keeps in Hm as [Hlen Hkeep].
  rewrite Hflags. split; [done|]. intros i Hi. split; [by apply Hkeep|].
  intros Hlt j Hj. rewrite Hcalls. apply elem_of_app. right.
  apply list_elem_of_fmap_2. unfold batch. apply elem_of_batchRequests.
  exists i. split_and!; [done | by apply Hkeep | done].
Qed.

Lemma scan_keeps_flags_witness :
  ∃ w', ScanInfoLayer EP_CK5 demoSpawners
          (set_ck5_lumpsNeeded (<[CK5.Lump_Korath := true]> (replicate 34 false))
             (demoWorld D_Hard 1)) = Some w'
    ∧ ck5_lumpsNeeded w' !! CK5.Lump_Korath = Some true
    ∧ CA_MarkGrChunk 0x126 ∈ calls w'.
Proof.
  match goal with
  | |- ∃ w', ?run = Some w' ∧ _ =>
      destruct run as [w'|] eqn:Hrun; [|vm_compute in Hrun; discriminate Hrun]
  end.
  exists w'. split; [reflexivity|].
  destruct (scan_keeps_flags EP_CK5 _ _ _ Hrun) as [_ Hkeep].
  destruct (Hkeep CK5.Lump_Korath) as [Hflag Hchunks]; [reflexivity|].
  split; [exact Hflag|]. apply (Hchunks ltac:(vm_compute; lia) 0x126).
  apply elem_of_lumpChunks. exists 0x126, 0x12F. split_and!; try reflexivity; lia.
Defined.

Lemma tile_loop_defined ep sp (w : World) :
  (Z.to_nat (mapWidth (level w)) * Z.to_nat (mapHeight (level w))
   ≤ length (default [] (planes (level w) !! 2%nat)))%nat →
  is_Some (for_range 0 (mapHeight (level w)) (λ y,
             for_range 0 (mapWidth (level w)) (λ x w1,
               infoValue ← CA_TileAtPos (level w1) x y 2;
               Some (ScanTile ep sp x y infoValue w1))) w).
Proof.
  intros Hlen. unfold for_range.
  set (W := mapWidth (level w)) in *. set (H := mapHeight (level w)) in *.
  destruct (for_count_total (λ w1, level w1 = level w) (Z.to_nat (H - 0)) 0
              (λ y, for_count (Z.to_nat (W - 0)) 0 (λ x w1,
                 infoValue ← CA_TileAtPos (level w1) x y 2;
                 Some (ScanTile ep sp x y infoValue w1))) w) as (w' & Hw' & _);
    [|done|by exists w'].
  intros y w1 Hy Hl1.
  apply (for_count_total (λ w1, level w1 = level w)); [|done].
  intros x w2 Hx Hl2.
  assert (is_Some (CA_TileAtPos (level w2) x y 2)) as [v Hv].
  { unfold CA_TileAtPos, CA_TilePtrAtPos, readTile. rewrite Hl2. fold W.
    rewrite (proj2 (Z.ltb_ge _ _)) by nia.
    destruct (planes (level w) !! 2%nat) as [p|]; simpl in *; [|nia].
    apply lookup_lt_is_Some. nia. }
  rewrite Hv. simpl. eexists. split; [done|].
  rewrite <- Hl2. apply ScanTile_effect.
Qed.

(** X4: the scan reads the info plane at every position of the map and nowhere
    else: off the world map of Keen 5 it returns exactly when the plane
    holds a tile for each of the [width * height] positions. *)
Theorem scan_reads_inside_plane ep sp w :
  (ep = EP_CK5 → currentLevel (gameState w) ≠ 0) →
  is_Some (ScanInfoLayer ep sp w)
  ↔ (Z.to_nat (mapWidth (level w)) * Z.to_nat (mapHeight (level w))
     ≤ length (default [] (planes (level w) !! 2%nat)))%nat.
Proof.
  intros Hlvl. split.
  - intros [w' (w1 & H1 & _)%ScanInfoLayer_parts].
    assert (for_range 0 (mapHeight (level w)) (λ y,
              for_range 0 (mapWidth (level w)) (λ x w1,
                infoValue ← CA_TileAtPos (level w1) x y 2;
                Some (ScanTile ep sp x y infoValue w1)))
              (match ep with EP_CK5 => CK5.setFuses 0 w | EP_CK6 => w end) = Some w1)
      as Hloop by by destruct ep.
    assert (level (match ep with EP_CK5 => CK5.setFuses 0 w | EP_CK6 => w end) = level w)
      as Hl by by destruct ep.
    rewrite <- Hl in Hloop |- *.
    apply (tile_loop_ix ep sp (λ k _, (k ≤ length (default [] (planes (level
             (match ep with EP_CK5 => CK5.setFuses 0 w | EP_CK6 => w end)) !! 2%nat)))%nat))
      in Hloop; [done| |lia].
    intros k v _ _ _ Hv%lookup_lt_Some _ _. lia.
  - intros Hlen. destruct ep; simpl.
    + unfold CK5.CK5_ScanInfoLayer, CK5.CK5_ScanTiles.
      destruct (tile_loop_defined EP_CK5 sp (CK5.setFuses 0 w)) as [w1 H1]; [done|].
      simpl in H1. change (level (CK5.setFuses 0 w)) with (level w). rewrite H1. simpl.
      apply (tile_loop_gameState EP_CK5 sp (CK5.setFuses 0 w)) in H1 as [[n Hn] _].
      destruct w1 as [gs1 ? ? ? ? ?]. simpl in *. subst gs1. simpl.
      rewrite (proj2 (Z.eqb_neq _ _)) by auto. done.
    + unfold CK6.CK6_ScanInfoLayer, CK6.CK6_ScanTiles.
      destruct (tile_loop_defined EP_CK6 sp w) as [w1 H1]; [done|].
      simpl in H1. rewrite H1. done.
Qed.

Lemma scan_reads_inside_plane_witness :
  is_Some (ScanInfoLayer EP_CK5 demoSpawners (demoWorld D_Hard 1))
  ∧ ¬ is_Some (ScanInfoLayer EP_CK5 demoSpawners
                 (set_level {| mapWidth := 3; mapHeight := 3; planes := planes demoLevel |}
                    (demoWorld D_Hard 1))).
Proof.
  split.
  - apply scan_reads_inside_plane; [discriminate|]. vm_compute. lia.
  - rewrite scan_reads_inside_plane by discriminate. vm_compute. lia.
Defined.

Ltac kept := first [left; reflexivity | right; reflexivity].

(** X5: the difficulty gates of both scans are monotone: what a tile spawns
    and marks at one difficulty it spawns and marks at every higher one,
    with the one exception of the stand platforms of codes 33 and 34,
    which a tile keeps at every lower difficulty instead. *)
Theorem harder_keeps_enemies ep sp x y v w d d' :
  (v ≠ 33 → v ≠ 34 → difficultyValue d ≤ difficultyValue d' → keptAt ep sp x y v w d d')
  ∧ (v = 33 ∨ v = 34 → difficultyValue d' ≤ difficultyValue d → keptAt ep sp x y v w d d').
Proof.
  destruct w as [[d0 ls ns cl fr ld] l5 l6 r lvl cs]. unfold keptAt, atDifficulty.
  split.
  - intros H33 H34 Hd.
    destruct d, d'; try (exfalso; simpl in Hd; lia); clear Hd;
      destruct ep, v as [|p|p]; try kept;
      positive_leaves p; try kept; try done;
      cbn; repeat case_match; kept.
  - intros [-> | ->] Hd;
      destruct d, d'; try (exfalso; simpl in Hd; lia); clear Hd;
      destruct ep; kept.
Qed.

Lemma harder_keeps_enemies_witness :
  keptAt EP_CK5 demoSpawners 1 0 5 (demoWorld D_Easy 1) D_Normal D_Hard
  ∧ keptAt EP_CK6 demoSpawners 1 0 33 (demoWorld D_Easy 1) D_Normal D_Easy.
Proof.
  split.
  - apply (proj1 (harder_keeps_enemies EP_CK5 demoSpawners 1 0 5 (demoWorld D_Easy 1)
                    D_Normal D_Hard)); [lia | lia | simpl; lia].
  - apply (proj2 (harder_keeps_enemies EP_CK6 demoSpawners 1 0 33 (demoWorld D_Easy 1)
                    D_Normal D_Easy)); [by left | simpl; lia].
Defined.

End ScanLoopFacts.

(** ** Further properties of the galaxy explosion *)

Module StarFacts.
Import Game CK5 Samples GalaxyNotions GalaxyFacts.

Lemma starStep_plot s px py :
  (starStep s).2 = Some (px, py) → 0 ≤ px ≤ 320 ∧ 0 ≤ py ≤ 200.
Proof.
  unfold starStep, u16.
  destruct (Z.gtb_spec ((sx s + sdx s) mod 65536) (320 * 128)) as [|Hx]; [done|].
  simpl.
  destruct (Z.gtb_spec ((sy s + sdy s) mod 65536) (200 * 128)) as [|Hy]; [done|].
  simpl. intros [= <- <-].
  pose proof (Z.mod_pos_bound (sx s + sdx s) 65536 eq_refl).
  pose proof (Z.mod_pos_bound (sy s + sdy s) 65536 eq_refl).
  split; split.
  - apply Z.div_pos; lia.
  - apply Z.div_le_upper_bound; lia.
  - apply Z.div_pos; lia.
  - apply Z.div_le_upper_bound; lia.
Qed.

(** X6: every pixel that a frame plots lies within columns 0 to 320 and rows
    0 to 200, both ends included. *)
Theorem plots_within_bounds info info' screen px py :
  CK_GalExplodeUpdateCoords info = Some (info', screen) →
  (px, py) ∈ screen →
  0 ≤ px ≤ 320 ∧ 0 ≤ py ≤ 200.
Proof.
  intros [_ ->]%frame_is_starStep Hin.
  apply list_elem_of_omap in Hin as (i & _ & Hi).
  destruct (getStar info i) as [s|]; [|done]. simpl in Hi.
  by apply starStep_plot in Hi.
Qed.

Lemma plots_within_bounds_witness :
  CK_GalExplodeUpdateCoords edgeGalaxy
  = Some (edgeGalaxyAfter, replicate 4000 (320, 200))
  ∧ (320, 200) ∈ replicate 4000 (320, 200)
  ∧ (0 ≤ 320 ≤ 320 ∧ 0 ≤ 200 ≤ 200).
Proof.
  assert (CK_GalExplodeUpdateCoords edgeGalaxy
          = Some (edgeGalaxyAfter, replicate 4000 (320, 200))) as Hrun
    by (vm_compute; reflexivity).
  assert ((320, 200) ∈ replicate 4000 (320, 200)) as Hin by apply list_elem_of_here.
  split; [exact Hrun|]. split; [exact Hin|].
  exact (plots_within_bounds edgeGalaxy _ _ 320 200 Hrun Hin).
Defined.

Lemma starInside_putStar info i j s :
  i ≠ j → starInside (putStar info j s) i ↔ starInside info i.
Proof.
  intros Hne. unfold starInside, putStar. simpl.
  by rewrite !list_lookup_insert_ne by done.
Qed.

Lemma frameBody_defined info screen i :
  is_Some (frameBody (Some (info, screen)) i) ↔ starInside info i.
Proof.
  unfold frameBody, starInside, getStar. cbn [mbind option_bind].
  destruct (x info !! i) as [xi|]; cbn [mbind option_bind];
    [|split; [by intros [? ?] | by intros (? & ? & ? & _)]].
  destruct (dx info !! i) as [dxi|]; cbn [mbind option_bind];
    [|split; [by intros [? ?] | by intros (? & ? & _ & ? & _)]].
  destruct (u16 (xi + dxi) >? 320 * 128) eqn:Hx.
  - split; [|by eexists]. intros _. exists xi, dxi. split_and!; try done.
    intros Hf. by rewrite Hx in Hf.
  - split.
    + intros Hsome. exists xi, dxi. split_and!; try done. intros _.
      destruct (y info !! i) as [yi|]; cbn [mbind option_bind] in Hsome;
        [|by destruct Hsome].
      destruct (dy info !! i) as [dyi|]; cbn [mbind option_bind] in Hsome;
        [|by destruct Hsome].
      by split; eexists.
    + intros (? & ? & [= <-] & [= <-] & Hy). destruct (Hy Hx) as [[yi ->] [dyi ->]].
      cbn [mbind option_bind]. destruct (starStep _). by eexists.
Qed.

(** What a turn leaves of the table: the velocities, the sizes of the
    arrays, and every entry of another star. *)
Lemma frameBody_keeps info screen i info' screen' :
  frameBody (Some (info, screen)) i = Some (info', screen') →
  dx info' = dx info ∧ dy info' = dy info
  ∧ length (x info') = length (x info) ∧ length (y info') = length (y info)
  ∧ (∀ j, j ≠ i → x info' !! j = x info !! j ∧ y info' !! j = y info !! j)
  ∧ (getStar info i = None → info' = info).
Proof.
  intros Hb. destruct (getStar info i) as [s|] eqn:Hs.
  - rewrite (frameBody_star _ _ _ _ Hs) in Hb. injection Hb as <- <-.
    unfold putStar. simpl. rewrite !length_insert. split_and!; try done.
    intros j Hne. by rewrite !list_lookup_insert_ne.
  - apply (frameBody_blind _ _ _ _ Hs) in Hb. injection Hb as <- <-. done.
Qed.

Lemma frame_loop_defined ks info screen :
  NoDup ks →
  is_Some (foldl frameBody (Some (info, screen)) ks) ↔ ∀ i, i ∈ ks → starInside info i.
Proof.
  revert info screen. induction ks as [|i ks IH]; intros info screen Hnd.
  { split; [by intros _ i ?%elem_of_nil | by eexists]. }
  apply NoDup_cons in Hnd as [Hi Hnd]. cbn [foldl].
  destruct (frameBody (Some (info, screen)) i) as [[info1 screen1]|] eqn:Hb.
  - assert (starInside info i) as Hin
      by (apply (frameBody_defined info screen i); by rewrite Hb).
    assert (∀ j, j ∈ ks → starInside info1 j ↔ starInside info j) as Hsame.
    { intros j Hj. assert (j ≠ i) as Hne by (by intros ->).
      destruct (getStar info i) as [s|] eqn:Hs.
      - rewrite (frameBody_star _ _ _ _ Hs) in Hb. injection Hb as <- <-.
        by apply starInside_putStar.
      - apply (frameBody_blind _ _ _ _ Hs) in Hb. by injection Hb as <- <-. }
    rewrite IH by done. split.
    + intros Hall j [->|Hj]%elem_of_cons; [done|]. apply Hsame; [done|]. by apply Hall.
    + intros Hall j Hj. apply Hsame; [done|]. apply Hall. by apply list_elem_of_further.
  - rewrite frameBody_None. split; [by intros [? ?]|]. intros Hall. exfalso.
    assert (is_Some (frameBody (Some (info, screen)) i)) as [r Hr]
      by (apply (frameBody_defined info screen i), Hall, list_elem_of_here).
    congruence.
Qed.

Lemma frame_loop_keeps ks info screen info' screen' :
  foldl frameBody (Some (info, screen)) ks = Some (info', screen') →
  dx info' = dx info ∧ dy info' = dy info
  ∧ length (x info') = length (x info) ∧ length (y info') = length (y info)
  ∧ ∀ j, j ∉ ks → x info' !! j = x info !! j ∧ y info' !! j = y info !! j.
Proof.
  revert info screen. induction ks as [|i ks IH]; intros info screen Hrun.
  - by injection Hrun as <- <-.
  - cbn [foldl] in Hrun.
    destruct (frameBody (Some (info, screen)) i) as [[info1 screen1]|] eqn:Hb;
      [|by rewrite frameBody_None in Hrun].
    apply frameBody_keeps in Hb as (Hdx & Hdy & Hlx & Hly & Hother & _).
    apply IH in Hrun as (-> & -> & -> & -> & Hrest).
    split_and!; try done. intros j Hj.
    assert (j ≠ i) as Hne by (intros ->; apply Hj, list_elem_of_here).
    assert (j ∉ ks) as Hj' by (intros ?; by apply Hj, list_elem_of_further).
    destruct (Hrest j Hj') as [-> ->]. by apply Hother.
Qed.

(** A star with an entry missing is left as it is by the whole loop. *)
Lemma frame_loop_blind ks info screen info' screen' i :
  foldl frameBody (Some (info, screen)) ks = Some (info', screen') →
  getStar info i = None →
  x info' !! i = x info !! i ∧ y info' !! i = y info !! i.
Proof.
  revert info screen. induction ks as [|j ks IH]; intros info screen Hrun Hnone.
  - by injection Hrun as <- <-.
  - cbn [foldl] in Hrun.
    destruct (frameBody (Some (info, screen)) j) as [[info1 screen1]|] eqn:Hb;
      [|by rewrite frameBody_None in Hrun].
    pose proof (frameBody_keeps _ _ _ _ _ Hb) as (Hdx & Hdy & _ & _ & Hother & Hsame).
    destruct (decide (i = j)) as [->|Hne].
    + rewrite (Hsame Hnone) in Hrun. by apply (IH info screen1).
    + destruct (Hother i Hne) as [Hx Hy].
      assert (getStar info1 i = None) as Hnone1.
      { unfold getStar in *. by rewrite Hx, Hy, Hdx, Hdy. }
      destruct (IH _ _ Hrun Hnone1) as [-> ->]. done.
Qed.

(** X7: a frame steps each of the 4000 stars once. It reads inside the star
    table exactly when, for each star, [x] and [dx] have its entry, and
    [y] and [dy] have it too unless the star leaves by its x, where the
    turn ends before they are read. When the frame returns, every star
    whose four entries are there is the step of what it was, a star
    with an entry missing is as it was, the velocities and the sizes of
    the arrays are as they were, and the pixels plotted are those of
    the steps, from star 3999 down to star 0. *)
Theorem frame_steps_all_stars info :
  (is_Some (CK_GalExplodeUpdateCoords info)
   ↔ ∀ i, (i < NUM_STARS)%nat → starInside info i)
  ∧ ∀ info' screen, CK_GalExplodeUpdateCoords info = Some (info', screen) →
      dx info' = dx info ∧ dy info' = dy info
      ∧ length (x info') = length (x info) ∧ length (y info') = length (y info)
      ∧ (∀ i s, getStar info i = Some s →
           getStar info' i
           = Some (if decide (i < NUM_STARS)%nat then (starStep s).1 else s))
      ∧ (∀ i, getStar info i = None →
           x info' !! i = x info !! i ∧ y info' !! i = y info !! i)
      ∧ screen = omap (λ i, s ← getStar info i; (starStep s).2)
                      (reverse (seq 0 NUM_STARS)).
Proof.
  unfold CK_GalExplodeUpdateCoords. generalize NUM_STARS. intros n.
  assert (NoDup (reverse (seq 0 n))) as Hnd
    by (rewrite reverse_Permutation; apply NoDup_seq).
  split.
  - rewrite frame_loop_defined by done. split; intros Hall i Hi; apply Hall.
    + rewrite elem_of_reverse, elem_of_seq. lia.
    + rewrite elem_of_reverse, elem_of_seq in Hi. lia.
  - intros info' screen Hrun.
    pose proof (frame_loop_keeps _ _ _ _ _ Hrun) as (Hdx & Hdy & Hlx & Hly & _).
    pose proof (frame_loop _ _ _ _ _ Hnd Hrun) as (Hin & Hout & Hscr).
    split_and!; try done.
    + intros i s Hs. case_decide as Hi.
      * apply Hin; [|done]. rewrite elem_of_reverse, elem_of_seq. lia.
      * rewrite Hout; [done|]. rewrite elem_of_reverse, elem_of_seq. lia.
    + intros i Hnone. by apply (frame_loop_blind _ _ _ _ _ _ Hrun).
Qed.

(** On a table without the y of its last stars the frame returns when
    these stars leave by their x: their y is not read. *)
Example frame_steps_all_stars_example :
  CK_GalExplodeUpdateCoords cutGalaxy = Some (cutGalaxy, []).
Proof. vm_compute. reflexivity. Qed.

End StarFacts.

(** ** Further properties of the big switch *)

Module ToggleFacts.
Import Game CK6 Samples ScanNotions SwitchNotions SwitchFacts FrameFacts.

Lemma zapperRun_frame ti fuel goOn mid destX destY lvl destY' lvl' :
  zapperRun ti fuel goOn mid destX destY lvl = Some (destY', lvl') →
  sameFrame 1 lvl lvl'.
Proof.
  revert destY lvl. induction fuel as [|fuel IH]; intros destY lvl; simpl; [done|].
  destruct (CA_TileAtPos lvl destX destY 1) as [t|]; simpl; [|done].
  case_match; [|by intros [= <- <-]].
  destruct (RF_ReplaceTiles [mid] 1 destX destY 1 1 lvl) as [l1|] eqn:H1; simpl; [|done].
  intros Hrun%IH. eapply sameFrame_trans; [|done]. by eapply RF_ReplaceTiles_frame.
Qed.

Lemma toggleZapper_frame ti goOn srcX destX destY lvl lvl' :
  toggleZapper ti goOn srcX destX destY lvl = Some lvl' → sameFrame 1 lvl lvl'.
Proof.
  unfold toggleZapper. intros H.
  destruct (CA_TileAtPos lvl srcX 0 1) as [start|]; cbn -[zapperRun] in H; [|done].
  destruct (CA_TileAtPos lvl (srcX + 1) 0 1) as [mid|]; cbn -[zapperRun] in H; [|done].
  destruct (CA_TileAtPos lvl (srcX + 2) 0 1) as [end_|]; cbn -[zapperRun] in H; [|done].
  destruct (RF_ReplaceTiles [start] 1 destX destY 1 1 lvl) as [l1|] eqn:H1;
    cbn -[zapperRun] in H; [|done].
  destruct (planes l1 !! 1%nat) as [fg|]; cbn -[zapperRun] in H; [|done].
  destruct (zapperRun ti _ goOn mid destX (destY + 1) l1) as [[y2 l2]|] eqn:H2;
    cbn -[zapperRun] in H; [|done].
  apply RF_ReplaceTiles_frame in H1, H. apply zapperRun_frame in H2.
  eapply sameFrame_trans; [|done]. by eapply sameFrame_trans.
Qed.

Lemma bridgeRow_frame ti n x y lvl lvl' cells :
  bridgeRow ti n x y lvl = Some (lvl', cells) → sameFrame 1 lvl lvl'.
Proof.
  revert x lvl lvl' cells. induction n as [|n IH]; intros x lvl lvl' cells; simpl.
  - by intros [= <- <-].
  - destruct (CA_TileAtPos lvl x y 1) as [t|]; simpl; [|done].
    case_match; [by intros [= <- <-]|].
    destruct (RF_ReplaceTiles _ 1 x y 1 1 lvl) as [l1|] eqn:H1; simpl; [|done].
    destruct (bridgeRow ti n (x + 1) y l1) as [[l2 cs]|] eqn:H2; simpl; [|done].
    intros [= <- <-]. apply IH in H2. apply RF_ReplaceTiles_frame in H1.
    by eapply sameFrame_trans.
Qed.

Lemma toggleBridge_frame ti destX destY lvl lvl' cells :
  toggleBridge ti destX destY lvl = Some (lvl', cells) → sameFrame 1 lvl lvl'.
Proof.
  rewrite toggleBridge_rows. intros H.
  destruct (bridgeRow ti _ (destX - 0) destY lvl) as [[l1 r1]|] eqn:H1;
    simpl in H; [|done].
  destruct (bridgeRow ti _ (destX - 1) (destY + 1) l1) as [[l2 r2]|] eqn:H2;
    simpl in H; [|done].
  injection H as <- <-. apply bridgeRow_frame in H1, H2. by eapply sameFrame_trans.
Qed.

Lemma replaceSwitchTiles_frame ti obj dir lvl lvlS destX destY :
  replaceSwitchTiles ti obj dir lvl = Some (lvlS, destX, destY) → sameFrame 1 lvl lvlS.
Proof.
  unfold replaceSwitchTiles. intros H.
  destruct (findInfoTile lvl _ _) as [[tx p]|]; simpl in H; [|done].
  destruct (switchTileArray ti lvl tx _) as [arr|]; simpl in H; [|done].
  destruct (RF_ReplaceTiles arr 1 tx _ 2 3 lvl) as [l1|] eqn:H1; simpl in H; [|done].
  destruct (readTile l1 2 _) as [v|]; simpl in H; [|done].
  injection H as <- <- <-. by eapply RF_ReplaceTiles_frame.
Qed.

(** A toggle in its two halves. *)
Lemma toggle_inv ti mf obj dir lvl lvl1 :
  CK6_ToggleBigSwitch ti mf obj dir lvl = Some lvl1 →
  ∃ lvlS destX destY e cells,
    replaceSwitchTiles ti obj dir lvl = Some (lvlS, destX, destY)
    ∧ switchEffect ti mf lvlS destX destY = Some e
    ∧ toggleEffect ti mf obj dir lvl = Some e
    ∧ destinationTile ti obj dir lvl = Some (CA_TilePtrAtPos lvlS destX destY)
    ∧ applySwitchEffect ti mf lvlS destX destY = Some (lvl1, cells).
Proof.
  unfold CK6_ToggleBigSwitch, toggleEffect, destinationTile.
  destruct (replaceSwitchTiles ti obj dir lvl) as [[[lvlS destX] destY]|]; simpl; [|done].
  destruct (applySwitchEffect ti mf lvlS destX destY) as [[l1 cells]|] eqn:Happ;
    simpl; [|done].
  intros [= <-]. exists lvlS, destX, destY.
  unfold applySwitchEffect in Happ.
  destruct (switchEffect ti mf lvlS destX destY) as [e|] eqn:He; [|done].
  exists e, cells. split_and!; try done.
  unfold applySwitchEffect. by rewrite He.
Qed.

Lemma applySwitchEffect_frame ti mf lvlS destX destY lvl1 cells e :
  switchEffect ti mf lvlS destX destY = Some e →
  applySwitchEffect ti mf lvlS destX destY = Some (lvl1, cells) →
  sameFrame (match e with ToggleArrow | BBlock => 2 | _ => 1 end) lvlS lvl1.
Proof.
  unfold applySwitchEffect. intros -> H. simpl in H. destruct e.
  - destruct (readTile lvlS 2 _) as [v|]; simpl in H; [|done].
    destruct (infoPlaneInverses !! _) as [k|]; simpl in H; [|done].
    destruct (writeTile lvlS 2 _ _) as [l1|] eqn:Hw; simpl in H; [|done].
    injection H as <- <-. by eapply writeTile_frame.
  - destruct (toggleZapper ti _ 0 destX destY lvlS) as [l1|] eqn:Hz; simpl in H; [|done].
    injection H as <- <-. by eapply toggleZapper_frame.
  - destruct (toggleZapper ti _ 3 destX destY lvlS) as [l1|] eqn:Hz; simpl in H; [|done].
    injection H as <- <-. by eapply toggleZapper_frame.
  - by eapply toggleBridge_frame.
  - destruct (readTile lvlS 2 _) as [v|]; simpl in H; [|done].
    destruct (writeTile lvlS 2 _ _) as [l1|] eqn:Hw; simpl in H; [|done].
    injection H as <- <-. by eapply writeTile_frame.
Qed.

(** X8: a toggle keeps the size of the map and writes to the foreground and
    the info plane only. *)
Theorem toggle_keeps_frame ti mf obj dir lvl lvl1 :
  CK6_ToggleBigSwitch ti mf obj dir lvl = Some lvl1 →
  mapWidth lvl1 = mapWidth lvl ∧ mapHeight lvl1 = mapHeight lvl
  ∧ ∀ pl, pl ≠ 1%nat → pl ≠ 2%nat → planes lvl1 !! pl = planes lvl !! pl.
Proof.
  intros (lvlS & destX & destY & e & cells & HS & He & _ & _ & Happ)%toggle_inv.
  apply replaceSwitchTiles_frame in HS as (HW & HH & Hpl).
  apply (applySwitchEffect_frame _ _ _ _ _ _ _ _ He) in Happ as (HW' & HH' & Hpl').
  split_and!; [congruence | congruence |].
  intros pl H1 H2. rewrite Hpl', Hpl; [done..|]. by destruct e.
Qed.

Lemma lxor_involution v k : Z.lxor (Z.lxor v k) k = v.
Proof. by rewrite Z.lxor_assoc, Z.lxor_nilpotent, Z.lxor_0_r. Qed.

Lemma infoAfter_arrow v :
  0x5B ≤ v < 0x5B + 8 →
  infoPlaneInverses !! Z.to_nat (v - 0x5B) = Some (infoAfter ToggleArrow v - 0x5B)
  ∧ 0x5B ≤ infoAfter ToggleArrow v < 0x5B + 8
  ∧ infoAfter ToggleArrow v ≠ v
  ∧ infoAfter ToggleArrow (infoAfter ToggleArrow v) = v.
Proof.
  intros Hv.
  assert (v = 0x5B ∨ v = 0x5C ∨ v = 0x5D ∨ v = 0x5E
          ∨ v = 0x5F ∨ v = 0x60 ∨ v = 0x61 ∨ v = 0x62) as Hcases by lia.
  repeat destruct Hcases as [->|Hcases]; try subst v; by vm_compute.
Qed.

(** X9: what a toggle does to the info plane: it stores [infoAfter] in the
    info tile of the destination and leaves every other info tile. *)
Theorem toggle_info_plane ti mf obj dir lvl lvl1 :
  CK6_ToggleBigSwitch ti mf obj dir lvl = Some lvl1 →
  ∃ e d v,
    toggleEffect ti mf obj dir lvl = Some e
    ∧ destinationTile ti obj dir lvl = Some d
    ∧ readTile lvl 2 d = Some v
    ∧ (e = ToggleArrow ↔ 0x5B ≤ v < 0x5B + 8)
    ∧ (∀ c, readTile lvl1 2 c
            = if decide (c = d) then Some (infoAfter e v) else readTile lvl 2 c)
    ∧ (e = ToggleArrow ∨ e = BBlock →
       infoAfter e v ≠ v ∧ infoAfter e (infoAfter e v) = v).
Proof.
  intros (lvlS & destX & destY & e & cells & HS & He & Heff & Hd & Happ)%toggle_inv.
  pose proof (replaceSwitchTiles_frame _ _ _ _ _ _ _ HS) as (_ & _ & HplS).
  assert (∀ c, readTile lvlS 2 c = readTile lvl 2 c) as HrdS.
  { intros c. apply readTile_info. by apply HplS. }
  set (d := CA_TilePtrAtPos lvlS destX destY) in *.
  assert (∃ v, readTile lvl 2 d = Some v ∧ (e = ToggleArrow ↔ 0x5B ≤ v < 0x5B + 8))
    as (v & Hv & Harrow).
  { unfold switchEffect in He. fold d in He. rewrite HrdS in He.
    destruct (readTile lvl 2 d) as [v|]; simpl in He; [|done]. exists v. split; [done|].
    destruct ((0x5B <=? v) && (v <? 0x5B + 8)) eqn:Hr.
    - injection He as <-. split; [intros _|done].
      apply andb_true_iff in Hr as [?%Z.leb_le ?%Z.ltb_lt]. lia.
    - assert (e ≠ ToggleArrow) as Hne.
      { destruct (readTile lvlS 1 d); simpl in He; [|done].
        repeat case_match; by injection He as <-. }
      split; [done|]. intros Hrange. apply andb_false_iff in Hr as [?%Z.leb_gt|?%Z.ltb_ge]; lia. }
  exists e, d, v. split_and!; try done.
  - pose proof (applySwitchEffect_frame _ _ _ _ _ _ _ _ He Happ) as Hframe.
    unfold applySwitchEffect in Happ. rewrite He in Happ. simpl in Happ. fold d in Happ.
    rewrite HrdS, Hv in Happ. simpl in Happ.
    assert (e ≠ ToggleArrow → e ≠ BBlock → ∀ c, readTile lvl1 2 c
              = if decide (c = d) then Some (infoAfter e v) else readTile lvl 2 c) as Hother.
    { intros H1 H2 c. destruct Hframe as (_ & _ & Hpl).
      rewrite (readTile_info lvlS lvl1), HrdS by (apply Hpl; by destruct e).
      case_decide as Hc; [|done]. subst c. rewrite Hv. by destruct e. }
    destruct e; try (by apply Hother).
    + destruct (infoAfter_arrow v) as (Hinv & _); [by apply Harrow|].
      rewrite Hinv in Happ. simpl in Happ.
      destruct (writeTile lvlS 2 d _) as [l1|] eqn:Hw; simpl in Happ; [|done].
      injection Happ as <- <-. apply writeTile_spec in Hw as (_ & _ & Hrd).
      intros c. rewrite Hrd, HrdS. case_decide; [|done]. f_equal.
      unfold infoAfter. lia.
    + destruct (writeTile lvlS 2 d _) as [l1|] eqn:Hw; simpl in Happ; [|done].
      injection Happ as <- <-. apply writeTile_spec in Hw as (_ & _ & Hrd).
      intros c. by rewrite Hrd, HrdS.
  - intros [-> | ->].
    + destruct (infoAfter_arrow v) as (_ & _ & ? & ?); [by apply Harrow|done].
    + simpl. split; [|apply lxor_involution].
      intros Heq. assert (Z.lxor (Z.lxor v 31) v = 0) as H0
        by (rewrite Heq; apply Z.lxor_nilpotent).
      rewrite (Z.lxor_comm v 31), Z.lxor_assoc, Z.lxor_nilpotent, Z.lxor_0_r in H0. lia.
Qed.

Lemma writeTile_plane lvl pl ptr v lvl' :
  writeTile lvl pl ptr v = Some lvl' →
  ∃ p, planes lvl !! pl = Some p ∧ 0 ≤ ptr ∧ (Z.to_nat ptr < length p)%nat
    ∧ planes lvl' !! pl = Some (<[Z.to_nat ptr := v]> p).
Proof.
  unfold writeTile. destruct (Z.ltb_spec ptr 0) as [|Hptr]; [done|].
  destruct (planes lvl !! pl) as [p|] eqn:Hp; [|done]. simpl.
  case_decide as Hlt; [|done]. intros [= <-]. exists p. split_and!; try done.
  simpl. rewrite list_lookup_insert_eq; [done|]. by eapply lookup_lt_Some.
Qed.

Lemma skipEmptyInfo_pattern l l' tx ptr :
  Forall2 (λ a b, a = 0 ↔ b = 0) l l' →
  skipEmptyInfo l tx ptr = skipEmptyInfo l' tx ptr.
Proof.
  intros H. revert tx ptr. induction H as [|a b l l' Hab _ IH]; intros tx ptr; [done|].
  simpl. destruct (Z.eqb_spec a 0) as [Ha|Ha], (Z.eqb_spec b 0) as [Hb|Hb];
    try done; tauto.
Qed.

Lemma findInfoTile_pattern lvl lvl' p i v v' tx ptr :
  planes lvl !! 2%nat = Some p →
  planes lvl' !! 2%nat = Some (<[i := v']> p) →
  p !! i = Some v → (v = 0 ↔ v' = 0) →
  findInfoTile lvl' tx ptr = findInfoTile lvl tx ptr.
Proof.
  intros Hp Hp' Hv Hz. unfold findInfoTile. rewrite Hp, Hp'. case_match; [done|].
  simpl. apply skipEmptyInfo_pattern, Forall2_drop.
  rewrite <- (list_insert_id p i v) at 2 by done.
  apply Forall2_insert; [|done]. apply Forall2_same_length_lookup. split; [done|].
  intros j a b Ha Hb. by assert (a = b) as -> by congruence.
Qed.

Lemma routingTile_found obj dir lvl r :
  routingTile obj dir lvl = Some r →
  let ty := if dir then tileY2 (clipRects obj) else tileY1 (clipRects obj) - 2 in
  let tx0 := tileX1 (clipRects obj) - 1 in
  ∃ tx p, findInfoTile lvl tx0 (CA_TilePtrAtPos lvl (tx0 + 1) (ty + 1)) = Some (tx, p)
    ∧ r = CA_TilePtrAtPos lvl (tx + 1) (ty + 1).
Proof.
  intros H ty tx0. unfold routingTile in H. fold ty tx0 in H.
  destruct (findInfoTile lvl tx0 _) as [[tx p]|]; simpl in H; [|done].
  injection H as <-. by exists tx, p.
Qed.

Lemma replaceSwitchTiles_rerouted ti obj dir lvl lvlS destX destY lvlB :
  replaceSwitchTiles ti obj dir lvl = Some (lvlS, destX, destY) →
  mapWidth lvlB = mapWidth lvl →
  findInfoTile lvlB (tileX1 (clipRects obj) - 1) (scanStart obj dir lvl)
  = findInfoTile lvl (tileX1 (clipRects obj) - 1) (scanStart obj dir lvl) →
  (∀ r, routingTile obj dir lvl = Some r → readTile lvlB 2 r = readTile lvl 2 r) →
  (∀ c, is_Some (readTile lvl 1 c) → is_Some (readTile lvlB 1 c)) →
  ∃ lvlBS,
    replaceSwitchTiles ti obj dir lvlB = Some (lvlBS, destX, destY)
    ∧ toggledOn ti (switchBlock obj dir lvl) lvlB lvlBS.
Proof.
  unfold replaceSwitchTiles, switchBlock, routingTile, scanStart.
  intros Hrun HW Hfind Hroute Hrd.
  set (ty := if dir then tileY2 (clipRects obj) else tileY1 (clipRects obj) - 2) in *.
  set (tx0 := tileX1 (clipRects obj) - 1) in *.
  assert (∀ x y, CA_TilePtrAtPos lvlB x y = CA_TilePtrAtPos lvl x y) as Hptr.
  { intros x y. unfold CA_TilePtrAtPos. by rewrite HW. }
  rewrite Hptr, Hfind.
  destruct (findInfoTile lvl tx0 _) as [[tx p]|]; simpl in *; [|done].
  destruct (switchTileArray ti lvl tx ty) as [arr|] eqn:Harr; simpl in *; [|done].
  destruct (RF_ReplaceTiles arr 1 tx ty 2 3 lvl) as [lvlS'|] eqn:HlvlS; simpl in *; [|done].
  destruct (readTile lvlS' 2 _) as [info|] eqn:Hinfo; simpl in *; [|done].
  injection Hrun as -> <- <-.
  pose proof (block_toggled _ _ _ _ _ _ Harr HlvlS) as HS.
  destruct (block_defined ti lvlB tx ty) as (arrB & lvlBS & HarrB & HlvlBS).
  { intros c Hc. rewrite (blockCells_width lvl lvlB) in Hc by done.
    by apply Hrd, (block_readable ti lvl tx ty arr). }
  pose proof (block_toggled _ _ _ _ _ _ HarrB HlvlBS) as HBS.
  rewrite (blockCells_width lvl lvlB) in HBS by done.
  exists lvlBS. split; [|done].
  rewrite HarrB. simpl. rewrite HlvlBS. simpl.
  destruct HS as (HWS & HplS & _). destruct HBS as (HWBS & HplBS & _).
  assert (CA_TilePtrAtPos lvlBS (tx + 1) (ty + 1) = CA_TilePtrAtPos lvl (tx + 1) (ty + 1))
    as -> by (unfold CA_TilePtrAtPos; congruence).
  assert (CA_TilePtrAtPos lvlS (tx + 1) (ty + 1) = CA_TilePtrAtPos lvl (tx + 1) (ty + 1))
    as HptrS by (unfold CA_TilePtrAtPos; congruence).
  rewrite HptrS in Hinfo.
  rewrite (readTile_info lvlB lvlBS) by done.
  rewrite Hroute by done.
  rewrite <- (readTile_info lvl lvlS) by done.
  by rewrite Hinfo.
Qed.

(** X10: toggling a switch that points at an arrow twice: the second toggle
    finds the same info tile and the same destination, turns the arrow
    back, and so restores the info plane; the six tiles of the switch are
    toggled twice. *)
Theorem arrow_toggled_twice ti mf obj dir lvl lvl1 :
  CK6_ToggleBigSwitch ti mf obj dir lvl = Some lvl1 →
  toggleEffect ti mf obj dir lvl = Some ToggleArrow →
  routingTile obj dir lvl ≠ destinationTile ti obj dir lvl →
  ∃ lvl2,
    CK6_ToggleBigSwitch ti mf obj dir lvl1 = Some lvl2
    ∧ toggleEffect ti mf obj dir lvl1 = Some ToggleArrow
    ∧ planes lvl1 !! 2%nat ≠ planes lvl !! 2%nat
    ∧ planes lvl2 !! 2%nat = planes lvl !! 2%nat
    ∧ ∀ c t, readTile lvl 1 c = Some t →
             (c ∈ switchBlock obj dir lvl → cancelling ti t) →
             readTile lvl2 1 c = Some t.
Proof.
  intros Hrun Heff Hne.
  destruct (toggle_inv _ _ _ _ _ _ Hrun)
    as (lvlS & destX & destY & e & cells & HS & He & Heff' & Hd & Happ).
  assert (e = ToggleArrow) as -> by congruence.
  pose proof (replaceSwitchTiles_frame _ _ _ _ _ _ _ HS) as (HWS & _ & HplS).
  pose proof (replaceSwitchTiles_toggled _ _ _ _ _ _ _ HS) as (_ & _ & HfgS).
  set (d := CA_TilePtrAtPos lvlS destX destY) in *.
  (* the first toggle *)
  unfold applySwitchEffect in Happ. rewrite He in Happ. simpl in Happ. fold d in Happ.
  destruct (readTile lvlS 2 d) as [v|] eqn:Hv; simpl in Happ; [|done].
  assert (0x5B ≤ v < 0x5B + 8) as Hrange.
  { unfold switchEffect in He. fold d in He. rewrite Hv in He. simpl in He.
    destruct ((0x5B <=? v) && (v <? 0x5B + 8)) eqn:Hr.
    - apply andb_true_iff in Hr as [?%Z.leb_le ?%Z.ltb_lt]. lia.
    - destruct (readTile lvlS 1 d); simpl in He; [|done]. by repeat case_match. }
  destruct (infoAfter_arrow v Hrange) as (Hinv & Hrange' & Hdiff & Hback).
  set (v' := infoAfter ToggleArrow v) in *.
  rewrite Hinv in Happ. simpl in Happ. replace (v' - 91 + 91) with v' in Happ by lia.
  destruct (writeTile lvlS 2 d v') as [l1|] eqn:Hw; simpl in Happ; [|done].
  injection Happ as -> <-.
  pose proof (writeTile_frame _ _ _ _ _ Hw) as (HW1 & _ & Hpl1).
  pose proof (writeTile_plane _ _ _ _ _ Hw) as (p & Hp & Hd0 & Hdlt & Hp1).
  pose proof (writeTile_spec _ _ _ _ _ Hw) as (_ & _ & Hrd1).
  assert (p !! Z.to_nat d = Some v) as Hpv.
  { unfold readTile in Hv. rewrite (proj2 (Z.ltb_ge _ _)), Hp in Hv by done. done. }
  assert (planes lvl !! 2%nat = Some p) as Hp0 by (rewrite <- Hp; symmetry; by apply HplS).
  (* the second toggle finds the same tiles *)
  destruct (replaceSwitchTiles_rerouted ti obj dir lvl lvlS destX destY lvl1 HS)
    as (lvl1S & HS1 & HW1S & Hpl1S & Hfg1S).
  - congruence.
  - apply (findInfoTile_pattern lvl lvl1 p (Z.to_nat d) v v'); try done. lia.
  - intros r Hr. rewrite Hrd1. rewrite decide_False; [by apply readTile_info, HplS|].
    intros ->. apply Hne. by rewrite Hr, Hd.
  - intros c Hc.
    assert (readTile lvl1 1 c = readTile lvlS 1 c) as ->
      by (unfold readTile; by rewrite Hpl1 by done).
    rewrite HfgS. by apply fmap_is_Some.
  - assert (CA_TilePtrAtPos lvl1S destX destY = d) as Hd1
      by (unfold d, CA_TilePtrAtPos; congruence).
    assert (readTile lvl1S 2 d = Some v') as Hv1.
    { rewrite (readTile_info lvl1 lvl1S) by done. rewrite Hrd1. by rewrite decide_True. }
    assert (switchEffect ti mf lvl1S destX destY = Some ToggleArrow) as He1.
    { unfold switchEffect. rewrite Hd1, Hv1. simpl.
      rewrite (proj2 (Z.leb_le _ _)), (proj2 (Z.ltb_lt _ _)) by lia. done. }
    destruct (infoAfter_arrow v' Hrange') as (Hinv' & _).
    destruct (writeTile_Some lvl1S 2 d v) as [lvl2 Hw2]; [by rewrite Hv1|].
    exists lvl2.
    assert (CK6_ToggleBigSwitch ti mf obj dir lvl1 = Some lvl2) as Hrun2.
    { unfold CK6_ToggleBigSwitch. rewrite HS1. simpl. unfold applySwitchEffect.
      rewrite He1. simpl. rewrite Hd1, Hv1. simpl. rewrite Hinv'.
      cbn -[infoAfter Z.add Z.sub]. rewrite Hback.
      replace (v - 91 + 91) with v by lia. by rewrite Hw2. }
    pose proof (writeTile_frame _ _ _ _ _ Hw2) as (_ & _ & Hpl2).
    pose proof (writeTile_plane _ _ _ _ _ Hw2) as (p1 & Hp1S & _ & _ & Hp2).
    split_and!.
    + done.
    + unfold toggleEffect. by rewrite HS1.
    + rewrite Hp1, Hp0. intros [= Heq].
      apply (f_equal (λ l, l !! Z.to_nat d)) in Heq.
      rewrite list_lookup_insert_eq, Hpv in Heq by done. congruence.
    + rewrite Hp2, Hp0. f_equal.
      assert (p1 = <[Z.to_nat d := v']> p) as -> by congruence.
      rewrite list_insert_insert_eq. by apply list_insert_id.
    + intros c t Ht Hc.
      unfold readTile at 1. rewrite Hpl2 by done. fold (readTile lvl1S 1 c).
      rewrite Hfg1S. unfold readTile at 1. rewrite Hpl1 by done.
      fold (readTile lvlS 1 c). rewrite HfgS, Ht. simpl.
      case_decide as Hin; [|done]. simpl. f_equal.
      by apply cancelling_toggled, Hc.
Qed.

Lemma toggle_keeps_frame_witness :
  ∃ lvl1, CK6_ToggleBigSwitch bridgeInfo demoFlags switchObj true arrowLevel = Some lvl1
    ∧ mapWidth lvl1 = 8 ∧ mapHeight lvl1 = 5
    ∧ ∀ pl, pl ≠ 1%nat → pl ≠ 2%nat → planes lvl1 !! pl = planes arrowLevel !! pl.
Proof.
  eexists. split; [vm_compute; reflexivity|].
  apply (toggle_keeps_frame bridgeInfo demoFlags switchObj true arrowLevel).
  vm_compute; reflexivity.
Defined.

Lemma toggle_info_plane_witness :
  ∃ lvl1, CK6_ToggleBigSwitch bridgeInfo demoFlags switchObj true arrowLevel = Some lvl1
    ∧ ∃ e d v,
        toggleEffect bridgeInfo demoFlags switchObj true arrowLevel = Some e
        ∧ destinationTile bridgeInfo switchObj true arrowLevel = Some d
        ∧ readTile arrowLevel 2 d = Some v
        ∧ (e = ToggleArrow ↔ 0x5B ≤ v < 0x5B + 8)
        ∧ (∀ c, readTile lvl1 2 c
                = if decide (c = d) then Some (infoAfter e v) else readTile arrowLevel 2 c)
        ∧ (e = ToggleArrow ∨ e = BBlock →
           infoAfter e v ≠ v ∧ infoAfter e (infoAfter e v) = v).
Proof.
  eexists. split; [vm_compute; reflexivity|].
  apply (toggle_info_plane bridgeInfo demoFlags switchObj true arrowLevel).
  vm_compute; reflexivity.
Defined.

Lemma arrow_toggled_twice_witness :
  ∃ lvl1 lvl2,
    CK6_ToggleBigSwitch bridgeInfo demoFlags switchObj true arrowLevel = Some lvl1
    ∧ readTile lvl1 2 27 = Some 0x5D
    ∧ CK6_ToggleBigSwitch bridgeInfo demoFlags switchObj true lvl1 = Some lvl2
    ∧ planes lvl2 !! 2%nat = planes arrowLevel !! 2%nat.
Proof.
  eexists. 
  destruct (arrow_toggled_twice bridgeInfo demoFlags switchObj true arrowLevel _
              ltac:(vm_compute; reflexivity) ltac:(vm_compute; reflexivity)
              ltac:(vm_compute; discriminate))
    as (lvl2 & Hrun2 & _ & _ & Hinfo & _).
  exists lvl2. split_and!; [vm_compute; reflexivity | vm_compute; reflexivity | done..].
Defined.

Lemma skipEmptyInfo_advance l tx ptr tx' r :
  skipEmptyInfo l tx ptr = Some (tx', r) → ptr ≤ r ∧ tx' - tx = r - ptr.
Proof.
  revert tx ptr. induction l as [|a l IH]; intros tx ptr; simpl; [done|].
  destruct (a =? 0); [|intros [= <- <-]; lia].
  intros Hrun%IH. lia.
Qed.

Lemma skipEmptyInfo_prefix l l' tx ptr tx' r :
  skipEmptyInfo l tx ptr = Some (tx', r) →
  (∀ j, Z.of_nat j ≤ r - ptr → l' !! j = l !! j) →
  skipEmptyInfo l' tx ptr = Some (tx', r).
Proof.
  revert l' tx ptr. induction l as [|a l IH]; intros l' tx ptr; simpl; [done|].
  intros Hrun Hsame.
  assert (ptr ≤ r) as Hle.
  { destruct (a =? 0); [apply skipEmptyInfo_advance in Hrun|injection Hrun as <- <-]; lia. }
  destruct l' as [|b l']; [by specialize (Hsame 0%nat ltac:(lia))|].
  assert (b = a) as -> by (specialize (Hsame 0%nat ltac:(lia)); simpl in Hsame; congruence).
  simpl. destruct (a =? 0); [|done].
  apply IH; [done|]. intros j Hj. apply (Hsame (S j)).
  apply skipEmptyInfo_advance in Hrun. lia.
Qed.

(** A write to the info plane outside the tiles that the scan reads does
    not change what the scan finds. *)
Lemma findInfoTile_outside lvl lvl' p i v' tx ptr tx' r :
  planes lvl !! 2%nat = Some p →
  planes lvl' !! 2%nat = Some (<[i := v']> p) →
  findInfoTile lvl tx ptr = Some (tx', r) →
  (Z.of_nat i < ptr ∨ r < Z.of_nat i) →
  findInfoTile lvl' tx ptr = Some (tx', r).
Proof.
  intros Hp Hp' Hfind Hout. unfold findInfoTile in *. rewrite Hp in Hfind. rewrite Hp'.
  destruct (Z.ltb_spec ptr 0) as [|Hptr]; [done|]. simpl in *.
  eapply skipEmptyInfo_prefix; [done|].
  intros j Hj. rewrite !lookup_drop. apply list_lookup_insert_ne. lia.
Qed.

Lemma routingTile_is_found obj dir lvl r :
  routingTile obj dir lvl = Some r →
  ∃ tx, findInfoTile lvl (tileX1 (clipRects obj) - 1) (scanStart obj dir lvl) = Some (tx, r).
Proof.
  unfold routingTile, scanStart.
  set (ty := if dir then tileY2 (clipRects obj) else tileY1 (clipRects obj) - 2).
  set (tx0 := tileX1 (clipRects obj) - 1).
  destruct (findInfoTile lvl tx0 _) as [[tx p]|] eqn:Hfind; simpl; [|done].
  intros [= <-]. exists tx. do 2 f_equal.
  unfold findInfoTile in Hfind. case_match; [done|].
  destruct (planes lvl !! 2%nat); simpl in Hfind; [|done].
  apply skipEmptyInfo_advance in Hfind. unfold CA_TilePtrAtPos in *. lia.
Qed.

(** The effect of a switch depends on the destination's info value only
    through its being an arrow, and on the destination's foreground tile. *)
Lemma switchEffect_same ti mf lvl lvl' destX destY v v' :
  mapWidth lvl' = mapWidth lvl →
  readTile lvl 2 (CA_TilePtrAtPos lvl destX destY) = Some v →
  readTile lvl' 2 (CA_TilePtrAtPos lvl destX destY) = Some v' →
  (0x5B ≤ v < 0x5B + 8 ↔ 0x5B ≤ v' < 0x5B + 8) →
  readTile lvl' 1 (CA_TilePtrAtPos lvl destX destY)
  = readTile lvl 1 (CA_TilePtrAtPos lvl destX destY) →
  switchEffect ti mf lvl' destX destY = switchEffect ti mf lvl destX destY.
Proof.
  intros HW Hv Hv' Hrange Hfg. unfold switchEffect.
  assert (CA_TilePtrAtPos lvl' destX destY = CA_TilePtrAtPos lvl destX destY) as ->
    by (unfold CA_TilePtrAtPos; congruence).
  rewrite Hv, Hv', Hfg. simpl.
  destruct (Z.leb_spec 0x5B v), (Z.ltb_spec v (0x5B + 8)),
    (Z.leb_spec 0x5B v'), (Z.ltb_spec v' (0x5B + 8)); simpl; try done; lia.
Qed.

(** X11: toggling a switch that points at a B block twice, when the
    destination is neither among the info tiles that the scan for the
    routing tile reads nor one of the six tiles of the switch, and its
    info value does not become an arrow: the second toggle undoes the
    first in the info plane. *)
Theorem bblock_toggled_twice ti mf obj dir lvl lvl1 r d v :
  CK6_ToggleBigSwitch ti mf obj dir lvl = Some lvl1 →
  toggleEffect ti mf obj dir lvl = Some BBlock →
  routingTile obj dir lvl = Some r →
  destinationTile ti obj dir lvl = Some d →
  readTile lvl 2 d = Some v →
  (d < scanStart obj dir lvl ∨ r < d) →
  d ∉ switchBlock obj dir lvl →
  ¬ (0x5B ≤ Z.lxor v 0x1F < 0x5B + 8) →
  ∃ lvl2,
    CK6_ToggleBigSwitch ti mf obj dir lvl1 = Some lvl2
    ∧ toggleEffect ti mf obj dir lvl1 = Some BBlock
    ∧ readTile lvl1 2 d = Some (Z.lxor v 0x1F)
    ∧ planes lvl2 !! 2%nat = planes lvl !! 2%nat
    ∧ ∀ c t, readTile lvl 1 c = Some t →
             (c ∈ switchBlock obj dir lvl → cancelling ti t) →
             readTile lvl2 1 c = Some t.
Proof.
  intros Hrun Heff Hr Hdest Hv0 Hout Hblock Hnoarrow.
  destruct (toggle_inv _ _ _ _ _ _ Hrun)
    as (lvlS & destX & destY & e & cells & HS & He & Heff' & Hd & Happ).
  assert (e = BBlock) as -> by congruence.
  assert (d = CA_TilePtrAtPos lvlS destX destY) as Hdd by congruence.
  pose proof (replaceSwitchTiles_frame _ _ _ _ _ _ _ HS) as (HWS & _ & HplS).
  pose proof (replaceSwitchTiles_toggled _ _ _ _ _ _ _ HS) as (_ & _ & HfgS).
  assert (readTile lvlS 2 d = Some v) as Hv
    by (rewrite (readTile_info lvl lvlS); [done | by apply HplS]).
  (* the first toggle *)
  unfold applySwitchEffect in Happ. rewrite He in Happ. simpl in Happ.
  rewrite <- Hdd, Hv in Happ. simpl in Happ.
  set (v' := Z.lxor v 31) in *.
  destruct (writeTile lvlS 2 d v') as [l1|] eqn:Hw; simpl in Happ; [|done].
  injection Happ as -> <-.
  pose proof (writeTile_frame _ _ _ _ _ Hw) as (HW1 & _ & Hpl1).
  pose proof (writeTile_plane _ _ _ _ _ Hw) as (p & Hp & Hd0 & Hdlt & Hp1).
  pose proof (writeTile_spec _ _ _ _ _ Hw) as (_ & _ & Hrd1).
  assert (p !! Z.to_nat d = Some v) as Hpv.
  { unfold readTile in Hv. rewrite (proj2 (Z.ltb_ge _ _)), Hp in Hv by done. done. }
  assert (planes lvl !! 2%nat = Some p) as Hp0 by (rewrite <- Hp; symmetry; by apply HplS).
  assert (∀ c, readTile lvl1 1 c = readTile lvlS 1 c) as Hfg1
    by (intros c; unfold readTile; by rewrite Hpl1 by done).
  assert (r ≠ d) as Hrd.
  { intros ->. destruct (routingTile_is_found _ _ _ _ Hr) as (tx & Hfind).
    unfold findInfoTile in Hfind. case_match; [done|].
    destruct (planes lvl !! 2%nat); simpl in Hfind; [|done].
    apply skipEmptyInfo_advance in Hfind. lia. }
  (* the second toggle finds the same tiles *)
  destruct (replaceSwitchTiles_rerouted ti obj dir lvl lvlS destX destY lvl1 HS)
    as (lvl1S & HS1 & HW1S & Hpl1S & Hfg1S).
  - congruence.
  - destruct (routingTile_is_found _ _ _ _ Hr) as (tx & Hfind). rewrite Hfind.
    apply (findInfoTile_outside lvl lvl1 p (Z.to_nat d) v'); try done. lia.
  - intros r' Hr'. assert (r' = r) as -> by congruence.
    rewrite Hrd1, decide_False by done. by apply readTile_info, HplS.
  - intros c Hc. rewrite Hfg1, HfgS. by apply fmap_is_Some.
  - assert (readTile lvl1S 2 d = Some v') as Hv1.
    { rewrite (readTile_info lvl1 lvl1S) by done. rewrite Hrd1. by rewrite decide_True. }
    assert (switchEffect ti mf lvl1S destX destY = Some BBlock) as He1.
    { rewrite <- He. apply (switchEffect_same ti mf lvlS lvl1S destX destY v v');
        rewrite <- ?Hdd; try done.
      - congruence.
      - split; [|done]. intros Hrange. exfalso.
        unfold switchEffect in He. rewrite <- Hdd, Hv in He. simpl in He.
        by rewrite (proj2 (Z.leb_le _ _)), (proj2 (Z.ltb_lt _ _)) in He by lia.
      - rewrite Hfg1S, Hfg1. rewrite decide_False by done.
        by destruct (readTile lvlS 1 d). }
    assert (CA_TilePtrAtPos lvl1S destX destY = d) as Hd1
      by (rewrite Hdd; unfold CA_TilePtrAtPos; congruence).
    destruct (writeTile_Some lvl1S 2 d v) as [lvl2 Hw2]; [by rewrite Hv1|].
    exists lvl2.
    assert (CK6_ToggleBigSwitch ti mf obj dir lvl1 = Some lvl2) as Hrun2.
    { unfold CK6_ToggleBigSwitch. rewrite HS1. simpl. unfold applySwitchEffect.
      rewrite He1. simpl. rewrite Hd1, Hv1. simpl.
      unfold v'. rewrite lxor_involution. by rewrite Hw2. }
    pose proof (writeTile_frame _ _ _ _ _ Hw2) as (_ & _ & Hpl2).
    pose proof (writeTile_plane _ _ _ _ _ Hw2) as (p1 & Hp1S & _ & _ & Hp2).
    split_and!.
    + done.
    + unfold toggleEffect. by rewrite HS1.
    + rewrite Hrd1. by rewrite decide_True.
    + rewrite Hp2, Hp0. f_equal.
      assert (p1 = <[Z.to_nat d := v']> p) as -> by congruence.
      rewrite list_insert_insert_eq. by apply list_insert_id.
    + intros c t Ht Hc.
      unfold readTile at 1. rewrite Hpl2 by done. fold (readTile lvl1S 1 c).
      rewrite Hfg1S, Hfg1, HfgS, Ht. simpl.
      case_decide as Hin; [|done]. simpl. f_equal.
      by apply cancelling_toggled, Hc.
Qed.

Lemma bblock_toggled_twice_witness :
  ∃ lvl1 lvl2,
    CK6_ToggleBigSwitch bridgeInfo demoFlags switchObj true blockLevel = Some lvl1
    ∧ CK6_ToggleBigSwitch bridgeInfo demoFlags switchObj true lvl1 = Some lvl2
    ∧ readTile lvl1 2 27 = Some 0
    ∧ planes lvl2 !! 2%nat = planes blockLevel !! 2%nat.
Proof.
  eexists.
  destruct (bblock_toggled_twice bridgeInfo demoFlags switchObj true blockLevel _ 9 27 0x1F
              ltac:(vm_compute; reflexivity) ltac:(vm_compute; reflexivity)
              ltac:(vm_compute; reflexivity) ltac:(vm_compute; reflexivity)
              ltac:(vm_compute; reflexivity) ltac:(right; reflexivity))
    as (lvl2 & Hrun2 & _ & Hinfo1 & Hinfo & _).
  - vm_compute. intros Hin.
    repeat (apply elem_of_cons in Hin as [Heq|Hin]; [discriminate Heq|]).
    by apply elem_of_nil in Hin.
  - change (Z.lxor 31 31) with 0. lia.
  - exists lvl2. split_and!; [vm_compute; reflexivity | done..].
Defined.

Lemma zapperRun_spec ti fuel goOn mid destX y0 lvl yEnd lvl' :
  mapWidth lvl ≠ 0 →
  zapperRun ti fuel goOn mid destX y0 lvl = Some (yEnd, lvl') →
  let ptr y := y * mapWidth lvl + destX in
  y0 ≤ yEnd
  ∧ mapWidth lvl' = mapWidth lvl
  ∧ (∀ y, y0 ≤ y < yEnd →
       (∃ t, readTile lvl 1 (ptr y) = Some t ∧ goOn (TI_ForeMisc ti t) = true)
       ∧ readTile lvl' 1 (ptr y) = Some mid)
  ∧ (∃ t, readTile lvl 1 (ptr yEnd) = Some t ∧ goOn (TI_ForeMisc ti t) = false)
  ∧ (∀ c, (∀ y, y0 ≤ y < yEnd → c ≠ ptr y) → readTile lvl' 1 c = readTile lvl 1 c).
Proof.
  intros HW Hrun ptr. revert y0 lvl HW Hrun ptr.
  induction fuel as [|fuel IH]; intros y0 lvl HW Hrun ptr; simpl in Hrun; [done|].
  unfold CA_TileAtPos, CA_TilePtrAtPos in Hrun. fold (ptr y0) in Hrun.
  destruct (readTile lvl 1 (ptr y0)) as [t|] eqn:Ht; simpl in Hrun; [|done].
  destruct (goOn (TI_ForeMisc ti t)) eqn:Hgo.
  - rewrite replace_one_tile in Hrun. unfold CA_TilePtrAtPos in Hrun. fold (ptr y0) in Hrun.
    destruct (writeTile lvl 1 (ptr y0) mid) as [l1|] eqn:Hw; simpl in Hrun; [|done].
    apply writeTile_spec in Hw as (HW1 & _ & Hrd1).
    apply IH in Hrun as (Hle & HW' & Hmid & Hend & Helse); [|congruence].
    rewrite HW1 in *. fold ptr in Hmid, Hend, Helse.
    assert (∀ y, y0 < y → readTile l1 1 (ptr y) = readTile lvl 1 (ptr y)) as Hlater.
    { intros y Hy. rewrite Hrd1, decide_False; [done|]. unfold ptr. nia. }
    split_and!; [lia | done | | |].
    + intros y Hy. destruct (decide (y = y0)) as [->|Hne].
      * split; [by exists t|]. rewrite Helse; [by rewrite Hrd1, decide_True|].
        intros y Hy'. unfold ptr. nia.
      * destruct (Hmid y) as [(t' & Ht' & Hgo') Hm]; [lia|]. split; [|done].
        exists t'. by rewrite <- Hlater by lia.
    + destruct Hend as (t' & Ht' & Hgo'). exists t'. by rewrite <- Hlater by lia.
    + intros c Hc. rewrite Helse by (intros y Hy; apply Hc; lia).
      rewrite Hrd1, decide_False; [done|]. apply Hc. lia.
  - injection Hrun as <- <-. split_and!; [lia | done | intros; lia | by exists t | done].
Qed.

Lemma toggleZapper_spec ti goOn srcX destX destY lvl lvl' :
  mapWidth lvl ≠ 0 →
  toggleZapper ti goOn srcX destX destY lvl = Some lvl' →
  let ptr y := y * mapWidth lvl + destX in
  ∃ start mid end_ yEnd,
    CA_TileAtPos lvl srcX 0 1 = Some start
    ∧ CA_TileAtPos lvl (srcX + 1) 0 1 = Some mid
    ∧ CA_TileAtPos lvl (srcX + 2) 0 1 = Some end_
    ∧ destY < yEnd
    ∧ readTile lvl' 1 (ptr destY) = Some start
    ∧ (∀ y, destY < y < yEnd →
         readTile lvl' 1 (ptr y) = Some mid
         ∧ ∃ t, readTile lvl 1 (ptr y) = Some t ∧ goOn (TI_ForeMisc ti t) = true)
    ∧ readTile lvl' 1 (ptr yEnd) = Some end_
    ∧ (∃ t, readTile lvl 1 (ptr yEnd) = Some t ∧ goOn (TI_ForeMisc ti t) = false)
    ∧ ∀ c, (∀ y, destY ≤ y ≤ yEnd → c ≠ ptr y) → readTile lvl' 1 c = readTile lvl 1 c.
Proof.
  intros HW H ptr. unfold toggleZapper in H.
  destruct (CA_TileAtPos lvl srcX 0 1) as [start|]; cbn -[zapperRun] in H; [|done].
  destruct (CA_TileAtPos lvl (srcX + 1) 0 1) as [mid|]; cbn -[zapperRun] in H; [|done].
  destruct (CA_TileAtPos lvl (srcX + 2) 0 1) as [end_|]; cbn -[zapperRun] in H; [|done].
  rewrite replace_one_tile in H. unfold CA_TilePtrAtPos in H. fold (ptr destY) in H.
  destruct (writeTile lvl 1 (ptr destY) start) as [l1|] eqn:Hw1; cbn -[zapperRun] in H;
    [|done].
  apply writeTile_spec in Hw1 as (HW1 & _ & Hrd1).
  destruct (planes l1 !! 1%nat) as [fg|]; cbn -[zapperRun] in H; [|done].
  destruct (zapperRun ti _ goOn mid destX (destY + 1) l1) as [[yEnd l2]|] eqn:Hrun;
    cbn -[zapperRun] in H; [|done].
  rewrite replace_one_tile in H.
  apply zapperRun_spec in Hrun as (Hle & HW2 & Hmid & Hend & Helse); [|congruence].
  unfold CA_TilePtrAtPos in H. rewrite HW2, HW1 in *. fold (ptr yEnd) in H.
  fold ptr in Hmid, Hend, Helse.
  apply writeTile_spec in H as (_ & _ & Hrd3).
  assert (∀ y y', y ≠ y' → ptr y ≠ ptr y') as Hptr by (intros y y' ?; unfold ptr; nia).
  assert (∀ y, destY < y → readTile l1 1 (ptr y) = readTile lvl 1 (ptr y)) as Hlater.
  { intros y Hy. rewrite Hrd1, decide_False; [done|]. apply Hptr. lia. }
  exists start, mid, end_, yEnd. split_and!; try done.
  - lia.
  - rewrite Hrd3, decide_False by (apply Hptr; lia).
    rewrite Helse by (intros y Hy; apply Hptr; lia). by rewrite Hrd1, decide_True.
  - intros y Hy. destruct (Hmid y) as [(t & Ht & Hgo) Hm]; [lia|]. split.
    + by rewrite Hrd3, decide_False by (apply Hptr; lia).
    + exists t. by rewrite <- Hlater by lia.
  - by rewrite Hrd3, decide_True.
  - destruct Hend as (t & Ht & Hgo). exists t. by rewrite <- Hlater by lia.
  - intros c Hc. rewrite Hrd3, decide_False by (apply Hc; lia).
    rewrite Helse by (intros y Hy; apply Hc; lia).
    rewrite Hrd1, decide_False; [done|]. apply Hc. lia.
Qed.

(** X12: switching a zapper: in the level as the replaced switch tiles leave
    it, the destination gets the first of three tiles of row 0 (columns
    0 to 2 to switch an active zapper off, 3 to 5 to switch an inactive
    one on), the tiles below it the second as long as the run goes on,
    and the tile that ends the run the third; no other foreground tile
    changes. *)
Theorem zapper_toggled ti mf obj dir lvl lvlS destX destY lvl1 e :
  replaceSwitchTiles ti obj dir lvl = Some (lvlS, destX, destY) →
  CK6_ToggleBigSwitch ti mf obj dir lvl = Some lvl1 →
  switchEffect ti mf lvlS destX destY = Some e →
  e = ActiveZapper ∨ e = InactiveZapper →
  mapWidth lvl ≠ 0 →
  let ptr y := y * mapWidth lvl + destX in
  ∃ start mid end_ yEnd,
    CA_TileAtPos lvlS (zapperSource e) 0 1 = Some start
    ∧ CA_TileAtPos lvlS (zapperSource e + 1) 0 1 = Some mid
    ∧ CA_TileAtPos lvlS (zapperSource e + 2) 0 1 = Some end_
    ∧ destY < yEnd
    ∧ readTile lvl1 1 (ptr destY) = Some start
    ∧ (∀ y, destY < y < yEnd →
         readTile lvl1 1 (ptr y) = Some mid
         ∧ ∃ t, readTile lvlS 1 (ptr y) = Some t
                ∧ zapperGoesOn mf e (TI_ForeMisc ti t) = true)
    ∧ readTile lvl1 1 (ptr yEnd) = Some end_
    ∧ (∃ t, readTile lvlS 1 (ptr yEnd) = Some t
            ∧ zapperGoesOn mf e (TI_ForeMisc ti t) = false)
    ∧ ∀ c, (∀ y, destY ≤ y ≤ yEnd → c ≠ ptr y) → readTile lvl1 1 c = readTile lvlS 1 c.
Proof.
  intros HS Hrun He Hz HW ptr.
  pose proof (replaceSwitchTiles_toggled _ _ _ _ _ _ _ HS) as (HWS & _ & _).
  unfold CK6_ToggleBigSwitch in Hrun. rewrite HS in Hrun. simpl in Hrun.
  unfold applySwitchEffect in Hrun. rewrite He in Hrun. cbn -[toggleZapper] in Hrun.
  unfold ptr. rewrite <- HWS.
  destruct Hz as [-> | ->].
  - destruct (toggleZapper ti _ 0 destX destY lvlS) as [l1|] eqn:Hzap;
      cbn -[toggleZapper] in Hrun; [|done].
    injection Hrun as <-. apply toggleZapper_spec in Hzap; [done|congruence].
  - destruct (toggleZapper ti _ 3 destX destY lvlS) as [l1|] eqn:Hzap;
      cbn -[toggleZapper] in Hrun; [|done].
    injection Hrun as <-. apply toggleZapper_spec in Hzap; [done|congruence].
Qed.

Lemma zapper_toggled_witness :
  ∃ lvlS lvl1,
    replaceSwitchTiles zapInfo zapObj true zapLevel = Some (lvlS, 3, 1)
    ∧ planes lvl1 !! 1%nat
      = Some [50; 51; 52; 60; 61; 62; 0; 0;
              0; 0; 0; 50; 0; 0; 0; 0;
              0; 0; 0; 51; 21; 21; 0; 0;
              0; 0; 0; 51; 21; 21; 0; 0;
              0; 0; 0; 52; 21; 21; 0; 0;
              0; 0; 0; 0; 0; 0; 0; 0]
    ∧ ∃ start mid end_ yEnd,
        CA_TileAtPos lvlS 0 0 1 = Some start
        ∧ CA_TileAtPos lvlS 1 0 1 = Some mid
        ∧ CA_TileAtPos lvlS 2 0 1 = Some end_
        ∧ 1 < yEnd
        ∧ readTile lvl1 1 (1 * 8 + 3) = Some start
        ∧ (∀ y, 1 < y < yEnd →
             readTile lvl1 1 (y * 8 + 3) = Some mid
             ∧ ∃ t, readTile lvlS 1 (y * 8 + 3) = Some t
                    ∧ zapperGoesOn demoFlags ActiveZapper (TI_ForeMisc zapInfo t) = true)
        ∧ readTile lvl1 1 (yEnd * 8 + 3) = Some end_
        ∧ (∃ t, readTile lvlS 1 (yEnd * 8 + 3) = Some t
                ∧ zapperGoesOn demoFlags ActiveZapper (TI_ForeMisc zapInfo t) = false)
        ∧ ∀ c, (∀ y, 1 ≤ y ≤ yEnd → c ≠ y * 8 + 3) →
               readTile lvl1 1 c = readTile lvlS 1 c.
Proof.
  eexists _, _. split; [vm_compute; reflexivity|].
  split; [|apply (zapper_toggled zapInfo demoFlags zapObj true zapLevel _ 3 1 _ ActiveZapper)].
  - instantiate (1 := default zapLevel
                        (CK6_ToggleBigSwitch zapInfo demoFlags zapObj true zapLevel)).
    vm_compute. reflexivity.
  - vm_compute; reflexivity.
  - vm_compute; reflexivity.
  - vm_compute; reflexivity.
  - by left.
  - discriminate.
Defined.

End ToggleFacts.

(** ** The doors of the Keen 5 world map *)

Module DoorFacts.
Import Game CK5 ScanNotions ScanFacts SwitchFacts FrameFacts DoorNotions.

Lemma replace_block t0 t1 t2 t3 pl x y lvl lvl' :
  RF_ReplaceTiles [t0; t1; t2; t3] pl x y 2 2 lvl = Some lvl' →
  ∃ l1 l2 l3,
    writeTile lvl pl (CA_TilePtrAtPos lvl x y) t0 = Some l1
    ∧ writeTile l1 pl (CA_TilePtrAtPos lvl (x + 1) y) t1 = Some l2
    ∧ writeTile l2 pl (CA_TilePtrAtPos lvl x (y + 1)) t2 = Some l3
    ∧ writeTile l3 pl (CA_TilePtrAtPos lvl (x + 1) (y + 1)) t3 = Some lvl'.
Proof.
  unfold RF_ReplaceTiles, for_range. change (Z.to_nat (2 - 0)) with 2%nat.
  cbn [for_count]. change (0 + 1) with 1.
  change (Z.to_nat (0 * 2 + 0)) with 0%nat. change (Z.to_nat (0 * 2 + 1)) with 1%nat.
  change (Z.to_nat (1 * 2 + 0)) with 2%nat. change (Z.to_nat (1 * 2 + 1)) with 3%nat.
  cbn -[writeTile CA_TilePtrAtPos Z.add].
  unfold CA_TilePtrAtPos.
  destruct (writeTile lvl pl _ t0) as [l1|] eqn:H1; [|done]. cbn [mbind option_bind].
  pose proof (writeTile_spec _ _ _ _ _ H1) as (W1 & _).
  destruct (writeTile l1 pl _ t1) as [l2|] eqn:H2; [|done]. cbn [mbind option_bind].
  pose proof (writeTile_spec _ _ _ _ _ H2) as (W2 & _).
  destruct (writeTile l2 pl _ t2) as [l3|] eqn:H3; [|done]. cbn [mbind option_bind].
  pose proof (writeTile_spec _ _ _ _ _ H3) as (W3 & _).
  destruct (writeTile l3 pl _ t3) as [l4|] eqn:H4; [|done]. cbn [mbind option_bind].
  intros [= <-]. exists l1, l2, l3.
  rewrite W1 in *. rewrite W2 in *. rewrite W3 in *.
  repeat rewrite Z.add_0_r in *.
  split_and!; [exact H1 | exact H2 | exact H3 | exact H4].
Qed.

(** X20: setting a door copies the picture of the door, read before the first
    store, to the four tiles of the door, in a map at least two tiles
    wide; the rest of the foreground and the other planes are as they
    were. So a door set over the pictures themselves still shows the
    picture as it was. *)
Theorem door_shows_picture opened tileX tileY lvl lvl' :
  2 ≤ mapWidth lvl →
  setDoor opened tileX tileY lvl = Some lvl' →
  sameFrame 1 lvl lvl'
  ∧ (∀ c r, (c = 0 ∨ c = 1) → (r = 0 ∨ r = 1) →
       CA_TileAtPos lvl' (tileX + c) (tileY + r) 1 = doorPicture opened lvl c r)
  ∧ (∀ ptr, ptr ∉ doorTiles lvl tileX tileY → readTile lvl' 1 ptr = readTile lvl 1 ptr).
Proof.
  intros HW Hset.
  assert (∃ t0 t1 t2 t3,
            doorPicture opened lvl 0 0 = Some t0 ∧ doorPicture opened lvl 1 0 = Some t1
            ∧ doorPicture opened lvl 0 1 = Some t2 ∧ doorPicture opened lvl 1 1 = Some t3
            ∧ RF_ReplaceTiles [t0; t1; t2; t3] 1 tileX tileY 2 2 lvl = Some lvl')
    as (t0 & t1 & t2 & t3 & P0 & P1 & P2 & P3 & Hrep).
  { unfold doorPicture, setDoor, CK5_OpenMapTeleporter, CK5_CloseMapTeleporter in *.
    destruct opened.
    - destruct (CA_TileAtPos lvl (5 * 2 + 0) 0 1) as [t0|]; [|done].
      destruct (CA_TileAtPos lvl (5 * 2 + 1) 0 1) as [t1|]; [|done].
      destruct (CA_TileAtPos lvl (5 * 2 + 0) 1 1) as [t2|]; [|done].
      destruct (CA_TileAtPos lvl (5 * 2 + 1) 1 1) as [t3|]; [|done].
      by exists t0, t1, t2, t3.
    - change (0 + 0) with 0. change (0 + 1) with 1.
      destruct (CA_TileAtPos lvl 0 0 1) as [t0|]; [|done].
      destruct (CA_TileAtPos lvl 1 0 1) as [t1|]; [|done].
      destruct (CA_TileAtPos lvl 0 1 1) as [t2|]; [|done].
      destruct (CA_TileAtPos lvl 1 1 1) as [t3|]; [|done].
      by exists t0, t1, t2, t3. }
  split; [by apply RF_ReplaceTiles_frame in Hrep|].
  pose proof (RF_ReplaceTiles_frame _ _ _ _ _ _ _ _ Hrep) as (HW' & _).
  apply replace_block in Hrep as (l1 & l2 & l3 & H1 & H2 & H3 & H4).
  apply writeTile_spec in H1 as (_ & _ & R1). apply writeTile_spec in H2 as (_ & _ & R2).
  apply writeTile_spec in H3 as (_ & _ & R3). apply writeTile_spec in H4 as (_ & _ & R4).
  assert (∀ ptr, readTile lvl' 1 ptr
                 = if decide (ptr = CA_TilePtrAtPos lvl (tileX + 1) (tileY + 1)) then Some t3
                   else if decide (ptr = CA_TilePtrAtPos lvl tileX (tileY + 1)) then Some t2
                   else if decide (ptr = CA_TilePtrAtPos lvl (tileX + 1) tileY) then Some t1
                   else if decide (ptr = CA_TilePtrAtPos lvl tileX tileY) then Some t0
                   else readTile lvl 1 ptr) as Hread.
  { intros ptr. rewrite R4, R3, R2, R1. done. }
  clear R1 R2 R3 R4. unfold CA_TilePtrAtPos in Hread. split.
  - intros c r Hc Hr. unfold CA_TileAtPos, CA_TilePtrAtPos. rewrite Hread, HW'.
    destruct Hc as [-> | ->], Hr as [-> | ->]; repeat case_decide; try done; nia.
  - intros ptr Hptr. rewrite Hread. unfold doorTiles, CA_TilePtrAtPos in Hptr.
    repeat case_decide; try done; exfalso; apply Hptr; subst ptr;
      repeat first [apply list_elem_of_here | apply list_elem_of_further].
Qed.

Lemma door_shows_picture_witness :
  ∃ lvl', CK5_OpenMapTeleporter 10 1 doorLevel = Some lvl'
    ∧ CA_TileAtPos lvl' 10 1 1 = Some 110 ∧ CA_TileAtPos lvl' 11 2 1 = Some 123.
Proof.
  destruct (CK5_OpenMapTeleporter 10 1 doorLevel) as [lvl'|] eqn:Hrun;
    [|vm_compute in Hrun; discriminate Hrun].
  exists lvl'. split; [reflexivity|].
  destruct (door_shows_picture true 10 1 doorLevel lvl' ltac:(simpl; lia) Hrun)
    as (_ & Hdoor & _).
  split.
  - exact (Hdoor 0 0 (or_introl eq_refl) (or_introl eq_refl)).
  - exact (Hdoor 1 1 (or_intror eq_refl) (or_intror eq_refl)).
Defined.

End DoorFacts.

(** ** File names and the presence checks, further *)

Module FileFacts.
Import FS Present FileNames.

Lemma replace_last_three {A} (l : list A) (a b c : A) :
  (3 ≤ length l)%nat →
  <[(length l - 1)%nat := c]> (<[(length l - 2)%nat := b]> (<[(length l - 3)%nat := a]> l))
  = take (length l - 3) l ++ [a; b; c].
Proof.
  intros Hlen.
  assert (∃ p x y z, l = p ++ [x; y; z]) as (p & x & y & z & ->).
  { exists (take (length l - 3) l).
    destruct (drop (length l - 3) l) as [|x [|y [|z [|? ?]]]] eqn:Hdrop;
      try (apply (f_equal length) in Hdrop; rewrite length_drop in Hdrop;
           simpl in Hdrop; lia).
    exists x, y, z. by rewrite <- Hdrop, take_drop. }
  rewrite length_app. simpl.
  replace (length p + 3 - 3)%nat with (length p + 0)%nat by lia.
  replace (length p + 3 - 2)%nat with (length p + 1)%nat by lia.
  replace (length p + 3 - 1)%nat with (length p + 2)%nat by lia.
  rewrite !insert_app_r. simpl. rewrite Nat.add_0_r.
  by rewrite take_app_length.
Qed.

(** X15: [FS_AdjustExtension] is defined for names of 3 to 15 characters: the
    result has the length of the name, its characters but the last three,
    and the extension of the current episode as the last three; whether
    the name has a dot or an extension is not looked at. Adjusting a
    result again, for any episode, is adjusting the name. *)
Theorem adjust_extension ep filename :
  let name := String.list_ascii_of_string filename in
  let n := length name in
  (is_Some (FS_AdjustExtension ep filename) ↔ (3 ≤ n < 16)%nat)
  ∧ ∀ newname, FS_AdjustExtension ep filename = Some newname →
      String.list_ascii_of_string newname
      = take (n - 3) name ++ String.list_ascii_of_string (episodeExt ep)
      ∧ length (String.list_ascii_of_string newname) = n
      ∧ ∀ ep', FS_AdjustExtension ep' newname = FS_AdjustExtension ep' filename.
Proof.
  intros name n.
  assert (∀ ep0 f, (3 ≤ length (String.list_ascii_of_string f) < 16)%nat →
            FS_AdjustExtension ep0 f
            = Some (String.string_of_list_ascii
                      (take (length (String.list_ascii_of_string f) - 3)
                         (String.list_ascii_of_string f)
                       ++ String.list_ascii_of_string (episodeExt ep0)))) as Hdef.
  { intros ep0 f Hlen. unfold FS_AdjustExtension.
    rewrite decide_False by lia. rewrite replace_last_three by lia. by destruct ep0. }
  assert (is_Some (FS_AdjustExtension ep filename) → (3 ≤ n < 16)%nat) as Hlen.
  { unfold FS_AdjustExtension. fold name n. case_decide; [by intros [? ?]|lia]. }
  split.
  - split; [done|]. intros H. by rewrite Hdef.
  - intros newname Hrun. specialize (Hlen ltac:(by eexists)).
    rewrite Hdef in Hrun by done. injection Hrun as <-. fold name n.
    rewrite String.list_ascii_of_string_of_list_ascii.
    assert (length (take (n - 3) name ++ String.list_ascii_of_string (episodeExt ep)) = n)
      as Hn.
    { rewrite length_app, length_take. fold n. destruct ep; simpl; lia. }
    split_and!; [done | done |].
    intros ep'. rewrite !Hdef; rewrite ?String.list_ascii_of_string_of_list_ascii;
      fold name n; rewrite ?Hn; try done.
    do 2 f_equal. rewrite take_app_le by (rewrite length_take; fold n; lia).
    rewrite take_take. by rewrite Nat.min_id.
Qed.

Example adjust_extension_example :
  FS_AdjustExtension EP_CK6 "EGAGRAPH.CK4" = Some "EGAGRAPH.CK6"%string
  ∧ FS_AdjustExtension EP_CK5 "CK4" = Some "CK5"%string
  ∧ FS_AdjustExtension EP_CK5 "AB" = None
  ∧ FS_AdjustExtension EP_CK5 "SAVEGAME00000.CK4" = None.
Proof. split_and!; reflexivity. Qed.

Ltac presence_case :=
  match goal with
  | |- context [FS_IsKeenFilePresent ?fs ?f] =>
      let H := fresh "Hk" in destruct (FS_IsKeenFilePresent fs f) eqn:H; simpl
  | |- context [FS_IsOmniFilePresent ?fs ?f] =>
      let H := fresh "Ho" in destruct (FS_IsOmniFilePresent fs f) eqn:H; simpl
  end.

Ltac listed H :=
  repeat (apply elem_of_cons in H as [->|H]; [done|]); by apply elem_of_nil in H.

(** X16: the presence check of an episode answers true exactly when each of
    its three game files is found in the Keen directory and each of its
    eight engine files in the Keen directory or the engine's own; it then
    leaves the globals as they were, but for Keen 6, where [ck6_episode]
    is set to version 1.5 when EGAGRAPH.CK6 has 464662 bytes and to
    version 1.4 otherwise. *)
Theorem presence_check_complete ep fs g :
  ((IsPresent ep fs g).1 = true
   ↔ (∀ f, f ∈ keenFiles ep → FS_IsKeenFilePresent fs f = true)
     ∧ (∀ f, f ∈ omniFiles ep → FS_IsOmniFilePresent fs f = true))
  ∧ ((IsPresent ep fs g).1 = true →
     (IsPresent ep fs g).2
     = match ep with
       | EP_CK5 => g
       | EP_CK6 => set_ck6_episode (ck6_version fs) g
       end).
Proof.
  destruct ep; simpl; unfold CK5_IsPresent, CK6_IsPresent, ck6_version.
  - repeat presence_case;
      (split; [split; [try done; intros _; split; intros f Hf; listed Hf|]|try done]);
      intros [HK HO];
      first [ rewrite HK in * by (repeat first [apply list_elem_of_here
                                               | apply list_elem_of_further]); done
            | rewrite HO in * by (repeat first [apply list_elem_of_here
                                               | apply list_elem_of_further]); done ].
  - repeat presence_case;
      (split; [split; [try done; intros _; split; intros f Hf; listed Hf|]|try done]);
      try (by case_match);
      intros [HK HO];
      first [ rewrite HK in * by (repeat first [apply list_elem_of_here
                                               | apply list_elem_of_further]); done
            | rewrite HO in * by (repeat first [apply list_elem_of_here
                                               | apply list_elem_of_further]); done ].
Qed.

End FileFacts.

(** ** Properties of the little-endian streams *)

Module StreamFacts.
Import Streams.

Lemma byte_split v :
  0 ≤ v < 65536 →
  Z.land v 0xFF = v mod 256 ∧ Z.shiftr v 8 = v / 256
  ∧ 0 ≤ v mod 256 < 256 ∧ 0 ≤ v / 256 < 256.
Proof.
  intros Hv. change 0xFF with (Z.ones 8). rewrite Z.land_ones by lia.
  rewrite Z.shiftr_div_pow2 by lia. change (2 ^ 8) with 256.
  split_and!; try done; try apply Z.mod_pos_bound; try lia.
  - apply Z.div_pos; lia.
  - apply Z.div_lt_upper_bound; lia.
Qed.

Lemma lor_bytes h l :
  0 ≤ h < 256 → 0 ≤ l < 256 → Z.lor (Z.shiftl h 8) l = 256 * h + l.
Proof.
  intros Hh Hl. pose proof (Z.add_lor_land (Z.shiftl h 8) l) as Hadd.
  assert (Z.land (Z.shiftl h 8) l = 0) as H0.
  { apply Z.bits_inj'. intros n Hn. rewrite Z.land_spec, Z.bits_0.
    destruct (Z.ltb_spec n 8).
    - by rewrite Z.shiftl_spec_low by lia.
    - rewrite (Z.bits_above_log2 l n); [apply andb_false_r | lia |].
      destruct (Z.eq_dec l 0) as [->|]; [simpl; lia|].
      apply Z.log2_lt_pow2; [lia|].
      assert (2 ^ 8 ≤ 2 ^ n) as Hpow by (apply Z.pow_le_mono_r; lia).
      change (2 ^ 8) with 256 in Hpow. lia. }
  rewrite H0 in Hadd. rewrite Z.shiftl_mul_pow2 in * by lia.
  change (2 ^ 8) with 256 in *. lia.
Qed.

Lemma swapped16_bytes v :
  0 ≤ v < 65536 →
  0 ≤ swapped16 v < 65536
  ∧ swapped16 v mod 256 = v / 256 ∧ swapped16 v / 256 = v mod 256.
Proof.
  intros Hv. destruct (byte_split v Hv) as (_ & _ & Hl & Hh). unfold swapped16.
  split_and!; [lia..| |].
  - rewrite Z.add_comm, Z.mod_add by lia. apply Z.mod_small. lia.
  - rewrite Z.div_add_l by lia. rewrite (Z.div_small (v / 256)); lia.
Qed.

(** Whatever the host, the bytes that reach the file are the value's low
    byte and then its high byte. *)
Lemma hostBytes_swapped c v :
  crossSwaps c → 0 ≤ v < 65536 →
  hostBytes (CK_CROSS_IS_BIGENDIAN c) (CK_Cross_SwapLE16 c v) = littleEndian v.
Proof.
  intros Hc Hv. destruct (Hc v Hv) as [_ ->]. unfold hostBytes, littleEndian.
  destruct (CK_CROSS_IS_BIGENDIAN c).
  - destruct (swapped16_bytes v Hv) as (Hr & Hm & Hd).
    destruct (byte_split _ Hr) as (-> & -> & _). by rewrite Hm, Hd.
  - by destruct (byte_split v Hv) as (-> & -> & _).
Qed.

(** And whatever the host, a word of the file is read as low byte plus
    256 times high byte. *)
Lemma hostWord_swapped c l h :
  crossSwaps c → 0 ≤ l < 256 → 0 ≤ h < 256 →
  (if CK_CROSS_IS_BIGENDIAN c
   then CK_Cross_Swap16 c (hostWord true (l, h)) else hostWord false (l, h))
  = l + 256 * h.
Proof.
  intros Hc Hl Hh. unfold hostWord. simpl. rewrite !lor_bytes by done.
  destruct (CK_CROSS_IS_BIGENDIAN c); [|lia].
  destruct (Hc (256 * l + h)) as [-> _]; [lia|]. unfold swapped16.
  replace (256 * l + h) with (h + l * 256) by lia.
  rewrite Z.mod_add, Z.div_add by lia. rewrite Z.mod_small, Z.div_small by lia. lia.
Qed.

Lemma writeAt_app a b stream : writeAt (a ++ b) stream = writeAt b (writeAt a stream).
Proof.
  unfold writeAt. simpl.
  set (p := f_pos stream).
  set (old := f_bytes stream ++ replicate (p - length (f_bytes stream)) 0).
  assert (p ≤ length old)%nat as Hold.
  { unfold old. rewrite length_app, length_replicate. lia. }
  assert (length (take p old) = p) as Htake by (rewrite length_take; lia).
  assert (length (take p old ++ a) = (p + length a)%nat) as Hpa
    by (rewrite length_app; lia).
  assert (p + length a ≤ length (take p old ++ a ++ drop (p + length a) old))%nat as Hlen.
  { rewrite !length_app, Htake. lia. }
  replace (p + length a - length (take p old ++ a ++ drop (p + length a) old))%nat
    with 0%nat by lia.
  simpl. rewrite app_nil_r. f_equal; [|rewrite length_app; lia].
  rewrite (app_assoc (take p old) a).
  rewrite (take_app_length' (take p old ++ a) _ (p + length a)) by done.
  rewrite (drop_app_add' (take p old ++ a) _ (p + length a)) by done.
  rewrite drop_drop.
  rewrite <- !app_assoc. do 4 f_equal. rewrite length_app. lia.
Qed.

Lemma fwrite_app a b stream : fwrite (a ++ b) stream = fwrite b (fwrite a stream).
Proof.
  destruct a as [|x a]; [done|]. destruct b as [|y b]; [by rewrite app_nil_r|].
  change (fwrite ((x :: a) ++ y :: b) stream) with (writeAt ((x :: a) ++ y :: b) stream).
  apply writeAt_app.
Qed.

Lemma fwrite_each {A} (enc : A → list Z) (l : list A) (n : nat) stream :
  foldl (λ '(actualCount, stream) v, ((actualCount + 1)%nat, fwrite (enc v) stream))
        (n, stream) l
  = ((n + length l)%nat, fwrite (l ≫= enc) stream).
Proof.
  revert n stream. induction l as [|v l IH]; intros n stream; simpl.
  - by rewrite Nat.add_0_r.
  - rewrite IH. change ((v :: l) ≫= enc) with (enc v ++ (l ≫= enc)).
    rewrite fwrite_app. f_equal. lia.
Qed.

Lemma words_encoded {A} (enc : A → Z * Z) (l : list A) (post : list Z) :
  words (length l) ((l ≫= λ v, [(enc v).1; (enc v).2]) ++ post) = enc <$> l.
Proof.
  induction l as [|v l IH]; [by destruct post|].
  rewrite bind_cons, fmap_cons. cbn [app length words]. rewrite IH.
  by destruct (enc v).
Qed.

Lemma length_encoded {A} (enc : A → Z * Z) (l : list A) :
  length (l ≫= λ v, [(enc v).1; (enc v).2]) = (2 * length l)%nat.
Proof.
  induction l as [|v l IH]; [done|].
  rewrite bind_cons, length_app, IH. simpl. lia.
Qed.

Lemma drop_written bs stream :
  bs ≠ [] →
  ∃ post, drop (f_pos stream) (f_bytes (fwrite bs stream)) = bs ++ post
    ∧ f_pos (fwrite bs stream) = (f_pos stream + length bs)%nat.
Proof.
  intros Hne. destruct bs as [|b bs]; [done|].
  change (fwrite (b :: bs) stream) with (writeAt (b :: bs) stream).
  unfold writeAt. cbn [f_bytes f_pos].
  set (p := f_pos stream).
  set (old := f_bytes stream ++ replicate (p - length (f_bytes stream)) 0).
  assert (length (take p old) = p) as Htake.
  { rewrite length_take. unfold old. rewrite length_app, length_replicate. lia. }
  eexists. split; [|done].
  by rewrite (drop_app_length' (take p old) _ p).
Qed.

(** After a write of two-byte elements and a seek back to where the
    write began, the bytes ahead begin with the elements, and the write
    ended just after them. *)
Lemma written_ahead {A} (enc : A → Z * Z) (l : list A) stream :
  let stream1 := fwrite (l ≫= λ v, [(enc v).1; (enc v).2]) stream in
  let stream2 := (FS_SeekTo stream1 (f_pos stream)).2 in
  f_bytes stream2 = f_bytes stream1
  ∧ f_pos stream1 = (f_pos stream2 + 2 * length l)%nat
  ∧ ∃ post, drop (f_pos stream2) (f_bytes stream2)
            = (l ≫= λ v, [(enc v).1; (enc v).2]) ++ post.
Proof.
  intros stream1 stream2. split; [done|]. cbn [stream2 FS_SeekTo snd f_pos f_bytes].
  destruct l as [|v0 l].
  { cbn. split; [lia|]. by eexists. }
  destruct (drop_written ((v0 :: l) ≫= λ v, [(enc v).1; (enc v).2]) stream)
    as (post & Hdrop & Hpos); [done|].
  rewrite length_encoded in Hpos. split; [done|]. by exists post.
Qed.

Lemma read_written {A} (enc : A → Z * Z) (l : list A) stream :
  let stream1 := fwrite (l ≫= λ v, [(enc v).1; (enc v).2]) stream in
  fread2 (length l) (FS_SeekTo stream1 (f_pos stream)).2 = (enc <$> l, stream1).
Proof.
  intros stream1.
  destruct (written_ahead enc l stream) as (Hb & Hp & post & Hdrop).
  fold stream1 in Hb, Hp, Hdrop. unfold fread2. rewrite Hdrop, words_encoded.
  f_equal. rewrite length_app, length_encoded, Hb.
  destruct stream1 as [bytes1 pos1]. simpl in *. f_equal. lia.
Qed.

Lemma bind_ext_Forall {A B} (f g : A → list B) (P : A → Prop) (l : list A) :
  (∀ v, P v → f v = g v) → Forall P l → l ≫= f = l ≫= g.
Proof.
  intros Hfg Hl. induction Hl as [|v l Hv _ IH]; [done|].
  by rewrite !bind_cons, IH, Hfg.
Qed.

Lemma write16_format c ptr stream :
  crossSwaps c → Forall (λ v, 0 ≤ v < 65536) ptr →
  FS_WriteInt16LE c ptr stream = (length ptr, fwrite (ptr ≫= littleEndian) stream).
Proof.
  intros Hc Hptr. unfold FS_WriteInt16LE.
  pose proof (hostBytes_swapped c) as Hbytes.
  destruct (CK_CROSS_IS_BIGENDIAN c) eqn:Hbig.
  - rewrite (fwrite_each (λ v, hostBytes true (CK_Cross_Swap16 c v))). simpl.
    do 2 f_equal. apply (bind_ext_Forall _ _ (λ v, 0 ≤ v < 65536)); [|done].
    intros v Hv. rewrite <- Hbytes by done.
    destruct (Hc v Hv) as [-> ->]. by rewrite Hbig.
  - do 2 f_equal. apply (bind_ext_Forall _ _ (λ v, 0 ≤ v < 65536)); [|done].
    intros v Hv. rewrite <- Hbytes by done.
    destruct (Hc v Hv) as [_ ->]. by rewrite Hbig.
Qed.

Lemma read16_format c ws :
  crossSwaps c → Forall (λ w, 0 ≤ w.1 < 256 ∧ 0 ≤ w.2 < 256) ws →
  (if CK_CROSS_IS_BIGENDIAN c
   then CK_Cross_Swap16 c <$> (hostWord (CK_CROSS_IS_BIGENDIAN c) <$> ws)
   else hostWord (CK_CROSS_IS_BIGENDIAN c) <$> ws)
  = (λ w, w.1 + 256 * w.2) <$> ws.
Proof.
  intros Hc Hws. pose proof (hostWord_swapped c) as Hword.
  destruct (CK_CROSS_IS_BIGENDIAN c).
  - rewrite <- list_fmap_compose. apply Forall_fmap_ext_1.
    eapply Forall_impl; [exact Hws|]. intros [l h] [Hl Hh]. by apply Hword.
  - apply Forall_fmap_ext_1.
    eapply Forall_impl; [exact Hws|]. intros [l h] [Hl Hh]. by apply Hword.
Qed.

(** X17: what [FS_WriteInt16LE] writes does not depend on the byte order of
    the host: each value goes to the file low byte first. And
    [FS_ReadInt16LE], on a host of either byte order, reads the values
    back from the position where they were written, and ends where the
    write ended. *)
Theorem int16_round_trip cW cR ptr stream :
  crossSwaps cW → crossSwaps cR → Forall (λ v, 0 ≤ v < 65536) ptr →
  let '(written, stream1) := FS_WriteInt16LE cW ptr stream in
  let '(oldOff, stream2) := FS_SeekTo stream1 (f_pos stream) in
  written = length ptr
  ∧ stream1 = fwrite (ptr ≫= littleEndian) stream
  ∧ FS_ReadInt16LE cR (length ptr) stream2 = (ptr, length ptr, stream1).
Proof.
  intros HcW HcR Hptr. rewrite write16_format by done.
  cbn [FS_SeekTo]. split_and!; [done..|].
  unfold FS_ReadInt16LE.
  pose proof (read_written (λ v, (v mod 256, v / 256)) ptr stream) as Hread.
  cbn [FS_SeekTo snd fst] in Hread. unfold littleEndian. rewrite Hread.
  rewrite length_fmap. do 2 f_equal.
  rewrite read16_format; [|done|].
  - rewrite <- list_fmap_compose. rewrite <- (list_fmap_id ptr) at 2.
    apply Forall_fmap_ext_1. eapply Forall_impl; [exact Hptr|].
    intros v Hv. simpl. rewrite (Z.div_mod v 256) at 3 by lia. lia.
  - apply Forall_fmap. eapply Forall_impl; [exact Hptr|].
    intros v Hv. simpl. by destruct (byte_split v Hv) as (_ & _ & Hl & Hh).
Qed.

Lemma crossSwaps_littleHost : crossSwaps littleHost.
Proof. by intros v Hv. Qed.

Lemma crossSwaps_bigHost : crossSwaps bigHost.
Proof. by intros v Hv. Qed.

Lemma int16_round_trip_witness :
  FS_WriteInt16LE bigHost [0x1234; 0xFFFF; 7] sampleStream
  = (3%nat, {| f_bytes := [1; 2; 0x34; 0x12; 0xFF; 0xFF; 7; 0]; f_pos := 8 |})
  ∧ FS_ReadInt16LE littleHost 3
      {| f_bytes := [1; 2; 0x34; 0x12; 0xFF; 0xFF; 7; 0]; f_pos := 2 |}
    = ([0x1234; 0xFFFF; 7], 3%nat,
       {| f_bytes := [1; 2; 0x34; 0x12; 0xFF; 0xFF; 7; 0]; f_pos := 8 |}).
Proof.
  pose proof (int16_round_trip bigHost littleHost [0x1234; 0xFFFF; 7] sampleStream
                crossSwaps_bigHost crossSwaps_littleHost) as H.
  destruct (FS_WriteInt16LE bigHost [0x1234; 0xFFFF; 7] sampleStream)
    as [written stream1] eqn:Hw.
  cbn [FS_SeekTo] in H.
  destruct H as (-> & -> & Hr).
  { repeat constructor; lia. }
  split; [reflexivity|]. exact Hr.
Defined.

Lemma hostWord_zero bigEndian w :
  (hostWord bigEndian w =? 0) = (w.1 =? 0) && (w.2 =? 0).
Proof.
  apply eq_true_iff_eq. rewrite andb_true_iff, !Z.eqb_eq.
  unfold hostWord. destruct bigEndian;
    rewrite Z.lor_eq_0_iff, Z.shiftl_eq_0_iff by lia; tauto.
Qed.

Lemma drop_ahead {A} (p n : nat) (bs : list A) : drop (p + n) bs = drop n (drop p bs).
Proof. by rewrite drop_drop. Qed.

Lemma bool_loop_none (c : Cross) (l : list nat) : foldl (readBool c) None l = None.
Proof. by induction l. Qed.

Lemma words_short (n : nat) (bs : list Z) : (length bs < 2)%nat → words n bs = [].
Proof. destruct n, bs as [|b0 [|b1 bs]]; simpl; (done || lia). Qed.

Lemma bool_loop (c : Cross) (n : nat) : ∀ (i : nat) ptr (a : nat) stream,
  foldl (readBool c) (Some (ptr, a, stream)) (seq i n)
  = let left := drop (f_pos stream) (f_bytes stream) in
    let ws := words n left in
    if decide (ws = [] ∨ i + length ws ≤ length ptr)%nat
    then Some (take i ptr ++ ((λ w, negb ((w.1 =? 0) && (w.2 =? 0))) <$> ws)
                 ++ drop (i + length ws) ptr,
               (a + length ws)%nat,
               {| f_bytes := f_bytes stream;
                  f_pos := f_pos stream + Nat.min (2 * n) (length left) |})
    else None.
Proof.
  induction n as [|n IH]; intros i ptr a stream.
  { cbn [seq foldl words]. rewrite decide_True by by left.
    cbn [fmap list_fmap length app]. rewrite !Nat.add_0_r, take_drop.
    by destruct stream. }
  cbn [seq foldl]. unfold readBool at 2. cbn [mbind option_bind]. unfold fread2 at 1.
  assert (∀ left, (length left < 2)%nat →
            drop (f_pos stream) (f_bytes stream) = left →
            foldl (readBool c)
              (Some (ptr, a, {| f_bytes := f_bytes stream;
                                f_pos := f_pos stream + Nat.min (2 * 1) (length left) |}))
              (seq (S i) n)
            = (let ws := words (S n) left in
               if decide (ws = [] ∨ i + length ws ≤ length ptr)%nat
               then Some (take i ptr
                            ++ ((λ w, negb ((w.1 =? 0) && (w.2 =? 0))) <$> ws)
                            ++ drop (i + length ws) ptr,
                          (a + length ws)%nat,
                          {| f_bytes := f_bytes stream;
                             f_pos := f_pos stream + Nat.min (2 * S n) (length left) |})
               else None)) as Hshort.
  { intros left Hlen Hleft. rewrite IH. cbn [f_bytes f_pos].
    rewrite drop_ahead, Hleft.
    replace (Nat.min (2 * 1) (length left)) with (length left) by lia.
    rewrite drop_all. rewrite (words_short n []) by (simpl; lia).
    rewrite (words_short (S n) left) by done.
    cbn zeta. rewrite !decide_True by (by left).
    cbn [fmap list_fmap length app]. rewrite !Nat.add_0_r, !take_drop.
    do 3 f_equal. simpl length. lia. }
  destruct (drop (f_pos stream) (f_bytes stream)) as [|b0 [|b1 rest]] eqn:Hleft.
  - cbn [words]. apply Hshort; [simpl; lia|done].
  - cbn [words]. apply Hshort; [simpl; lia|done].
  - cbn [words]. cbn [length].
    destruct (decide (i < length ptr)%nat) as [Hi|Hi].
    + rewrite IH. cbn [f_bytes f_pos].
      replace (Nat.min (2 * 1) (S (S (length rest)))) with 2%nat by lia.
      rewrite drop_ahead, Hleft. cbn [drop]. rewrite !drop_0.
      rewrite length_insert. cbn [fmap list_fmap length].
      destruct (decide (words n rest = [] ∨ S i + length (words n rest) ≤ length ptr)%nat)
        as [Hok|Hbad].
      * rewrite decide_True.
        2:{ right. destruct Hok as [->|Hok]; simpl; lia. }
        f_equal. f_equal; [f_equal|].
        -- rewrite (take_S_r _ _ (negb (hostWord (CK_CROSS_IS_BIGENDIAN c) (b0, b1) =? 0)))
             by (by apply list_lookup_insert_eq).
           rewrite take_insert_ge by lia. rewrite <- app_assoc. f_equal.
           rewrite hostWord_zero. cbn [app fst snd]. do 2 f_equal.
           rewrite drop_insert_lt by lia. f_equal. lia.
        -- lia.
        -- f_equal. lia.
      * rewrite decide_False; [done|]. intros [Hnil|Hle]; [done|].
        apply Hbad. right. lia.
    + rewrite bool_loop_none. rewrite decide_False; [done|].
      intros [Hnil|Hle]; [done|]. lia.
Qed.

Lemma length_words (n : nat) : ∀ bs, length (words n bs) = Nat.min n (length bs / 2).
Proof.
  induction n as [|n IH]; intros bs; [done|].
  destruct bs as [|b0 [|b1 rest]]; [done..|].
  cbn [words length]. rewrite IH.
  change (S (S (length rest))) with (1 * 2 + length rest)%nat.
  rewrite Nat.div_add_l by done. lia.
Qed.

(** X18: [FS_ReadBoolFrom16LE] on a stream that may be too short: the
    complete words that are left, at most [count], are stored at the
    front of the array, true for a word with a byte that is not zero,
    and counted; the entries behind them are left as they were. The
    stream ends behind the words asked for, or at its end. The byte
    order of the host plays no part. Only a store past the end of the
    array is undefined. *)
Theorem read_bools_of_short_stream c ptr count stream :
  let left := drop (f_pos stream) (f_bytes stream) in
  let ws := words count left in
  length ws = Nat.min count (length left / 2)
  ∧ FS_ReadBoolFrom16LE c ptr count stream
    = if decide (length ws ≤ length ptr)%nat
      then Some (((λ w, negb ((w.1 =? 0) && (w.2 =? 0))) <$> ws)
                   ++ drop (length ws) ptr,
                 length ws,
                 {| f_bytes := f_bytes stream;
                    f_pos := f_pos stream + Nat.min (2 * count) (length left) |})
      else None.
Proof.
  intros left ws. split; [apply length_words|].
  unfold FS_ReadBoolFrom16LE. rewrite bool_loop. cbn zeta. fold left. fold ws.
  rewrite !Nat.add_0_l. cbn [take app].
  destruct (decide (length ws ≤ length ptr)%nat) as [Hle|Hgt].
  - by rewrite decide_True by (by right).
  - rewrite decide_False; [done|]. intros [Hnil|Hle]; [|done].
    rewrite Hnil in Hgt. simpl in Hgt. lia.
Qed.

Lemma writeBool_format c ptr stream :
  crossSwaps c →
  FS_WriteBoolTo16LE c ptr stream = (length ptr, fwrite (ptr ≫= boolWord) stream).
Proof.
  intros Hc. unfold FS_WriteBoolTo16LE.
  rewrite (fwrite_each (λ b : bool, hostBytes (CK_CROSS_IS_BIGENDIAN c)
                                      (CK_Cross_SwapLE16 c (if b then 1 else 0)))).
  simpl. do 2 f_equal. apply (bind_ext_Forall _ _ (λ _, True)).
  - intros b _. rewrite hostBytes_swapped by (done || destruct b; lia). by destruct b.
  - by apply Forall_true.
Qed.

(** X19: [FS_WriteBoolTo16LE] writes each flag as the word 1 or 0, low byte
    first, on a host of either byte order; and [FS_ReadBoolFrom16LE], on
    a host of either byte order, reads the flags back from the position
    where they were written into the front of an array that has room
    for them, and ends where the write ended. *)
Theorem bools_round_trip cW cR ptr old stream :
  crossSwaps cW → (length ptr ≤ length old)%nat →
  let '(written, stream1) := FS_WriteBoolTo16LE cW ptr stream in
  let '(oldOff, stream2) := FS_SeekTo stream1 (f_pos stream) in
  written = length ptr
  ∧ stream1 = fwrite (ptr ≫= boolWord) stream
  ∧ FS_ReadBoolFrom16LE cR old (length ptr) stream2
    = Some (ptr ++ drop (length ptr) old, length ptr, stream1).
Proof.
  intros HcW Hroom. rewrite writeBool_format by done.
  cbn [FS_SeekTo]. split_and!; [done..|].
  destruct (written_ahead (λ b : bool, (if b then 1 else 0, 0)) ptr stream)
    as (Hb & Hp & post & Hdrop).
  cbn [fst snd FS_SeekTo] in Hb, Hp, Hdrop.
  change (ptr ≫= (λ v : bool, [if v then 1 else 0; 0])) with (ptr ≫= boolWord)
    in Hb, Hp, Hdrop.
  destruct (read_bools_of_short_stream cR old (length ptr)
              {| f_bytes := f_bytes (fwrite (ptr ≫= boolWord) stream);
                 f_pos := f_pos stream |}) as [_ ->].
  cbn [f_bytes f_pos] in *. rewrite Hdrop.
  pose proof (words_encoded (λ b : bool, (if b then 1 else 0, 0)) ptr post) as Hws.
  cbn [fst snd] in Hws.
  change (ptr ≫= (λ v : bool, [if v then 1 else 0; 0])) with (ptr ≫= boolWord) in Hws.
  rewrite Hws, length_fmap. rewrite decide_True by done.
  f_equal. f_equal; [f_equal|].
  - f_equal. rewrite <- list_fmap_compose. rewrite <- (list_fmap_id ptr) at 2.
    apply list_fmap_ext. by intros _ [] _.
  - rewrite length_app.
    pose proof (length_encoded (λ b : bool, (if b then 1 else 0, 0)) ptr) as Hlen.
    cbn [fst snd] in Hlen.
    change (ptr ≫= (λ v : bool, [if v then 1 else 0; 0])) with (ptr ≫= boolWord) in Hlen.
    rewrite Hlen.
    destruct (fwrite (ptr ≫= boolWord) stream) as [bytes1 pos1]. simpl in *.
    f_equal. lia.
Qed.

Lemma bools_round_trip_witness :
  FS_WriteBoolTo16LE bigHost [true; false; true] sampleStream
  = (3%nat, {| f_bytes := [1; 2; 1; 0; 0; 0; 1; 0]; f_pos := 8 |})
  ∧ FS_ReadBoolFrom16LE littleHost [false; true; false; true] 3
      {| f_bytes := [1; 2; 1; 0; 0; 0; 1; 0]; f_pos := 2 |}
    = Some ([true; false; true; true], 3%nat,
            {| f_bytes := [1; 2; 1; 0; 0; 0; 1; 0]; f_pos := 8 |}).
Proof.
  pose proof (bools_round_trip bigHost littleHost [true; false; true]
                [false; true; false; true] sampleStream crossSwaps_bigHost) as H.
  destruct (FS_WriteBoolTo16LE bigHost [true; false; true] sampleStream)
    as [written stream1] eqn:Hw.
  cbn [FS_SeekTo] in H.
  destruct H as (-> & -> & Hr).
  { simpl. lia. }
  split; [reflexivity|]. exact Hr.
Defined.

(** A stream with one complete word and an odd byte left, read into an
    array of three flags. *)
Example read_bools_of_short_stream_example :
  FS_ReadBoolFrom16LE bigHost [true; true; false] 3
    {| f_bytes := [9; 0; 0; 5]; f_pos := 1 |}
  = Some ([false; true; false], 1%nat, {| f_bytes := [9; 0; 0; 5]; f_pos := 4 |}).
Proof. reflexivity. Qed.

End StreamFacts.
